(** * Hypothesis map to Excalidraw converter: model and verified properties

    Shallow embedding of [src/excalidraw_converter.py] and of the data model
    of [src/model.py].

    Python [str] values are modelled by [string]; one character of the model
    stands for one code point of the Python string, so [String.length] is
    Python's [len].  The string constants of the source that are not ASCII
    appear as their UTF-8 bytes; the converter never takes their length.
    Python [dict]s are [gmap]s.  The numbers of the converter are exact
    rationals ([Q]): every coordinate [convert_to_excalidraw] computes is an
    integer multiple of 1/8 of moderate size, on which the arithmetic of
    Python's [float] (IEEE 754 binary64) is exact.  The helpers
    [create_card] and [create_arrow] accept any [float]: [create_card_f64]
    and [create_arrow_f64] are these functions in binary64 arithmetic, where
    every operation rounds its exact result ([round64]). *)

From Stdlib Require Import ZArith QArith Qabs Qround Qpower Qreduction Lia Lqa Ascii.
From Stdlib Require String.
From Stdlib Require Uint63 PrimFloat SpecFloat FloatOps.
From stdpp Require Import gmap strings list fin_maps pretty.

(** ** Python string primitives used by the converter *)

Definition nl : ascii := "010"%char.
Definition sp : ascii := " "%char.

(** [len(s)] *)
Definition len (s : string) : Z := Z.of_nat (String.length s).

(** [s.split(sep)] for a one-character separator: never returns the empty
    list, and yields empty pieces around adjacent separators. *)
Fixpoint str_split (sep : ascii) (s : string) : list string :=
  match s with
  | EmptyString => [EmptyString]
  | String c s' =>
      if decide (c = sep) then EmptyString :: str_split sep s'
      else match str_split sep s' with
           | [] => [String c EmptyString]
           | piece :: rest => String c piece :: rest
           end
  end.

(** [sep.join(l)] *)
Fixpoint str_join (sep : string) (l : list string) : string :=
  match l with
  | [] => EmptyString
  | x :: rest =>
      match rest with
      | [] => x
      | _ :: _ => x +:+ sep +:+ str_join sep rest
      end
  end.

(** [c in s] for a single character [c]. *)
Fixpoint has_char (c : ascii) (s : string) : bool :=
  match s with
  | EmptyString => false
  | String a s' => if decide (a = c) then true else has_char c s'
  end.

(** [s.count(c)] for a single character [c]. *)
Fixpoint count_char (c : ascii) (s : string) : nat :=
  match s with
  | EmptyString => 0
  | String a s' => (if decide (a = c) then 1 else 0) + count_char c s'
  end.

(** ** [wrap_text] *)

(** Body of the inner loop [for word in words], on the pair
    [(wrapped_lines, current_line)]. *)
Definition wrap_word (max_chars_per_line : Z)
    (st : list string * string) (word : string) : list string * string :=
  let '(wrapped_lines, current_line) := st in
  if decide (current_line = "") then (wrapped_lines, word)
  else if (len current_line + 1 + len word <=? max_chars_per_line)%Z
       then (wrapped_lines, current_line +:+ " " +:+ word)
       else (wrapped_lines ++ [current_line], word).

(** Body of the outer loop [for line in lines], on [wrapped_lines]. *)
Definition wrap_line (max_chars_per_line : Z)
    (wrapped_lines : list string) (line : string) : list string :=
  if (len line <=? max_chars_per_line)%Z then wrapped_lines ++ [line]
  else
    let '(wrapped_lines', current_line) :=
      foldl (wrap_word max_chars_per_line) (wrapped_lines, "") (str_split sp line) in
    if decide (current_line = "") then wrapped_lines'
    else wrapped_lines' ++ [current_line].

(** What the end of the inner loop appends for [current_line]. *)
Definition flush (current_line : string) : list string :=
  if decide (current_line = "") then [] else [current_line].

Definition wrapped_lines_of (text : string) (max_chars_per_line : Z) : list string :=
  foldl (wrap_line max_chars_per_line) [] (str_split nl text).

Definition wrap_text (text : string) (max_chars_per_line : Z) : string :=
  str_join (String nl "") (wrapped_lines_of text max_chars_per_line).

(** The lines that one input line contributes to [wrapped_lines]. *)
Definition wrap_one (max_chars_per_line : Z) (line : string) : list string :=
  wrap_line max_chars_per_line [] line.

(** The words of a line: the non-empty pieces between spaces. *)
Definition words (s : string) : list string :=
  filter (λ p, p ≠ "") (str_split sp s).

(** ** Data model ([src/model.py]) *)

Inductive Priority := HIGH | MEDIUM | LOW | NONE.

Inductive TopologyType :=
  | CLASSIC | MANY_LEVELS | SEPARATED_METRICS | GOALS_HIERARCHY
  | MANY_GOALS | SEPARATED_MOTIVATION | GROUPED_TASKS | TASKS_BOARD.

Record Metric := {
  metric_name : string;
  current_value : string;
  target_value : string;
  is_leading : bool;
  is_lagging : bool
}.

Record Goal_ := {
  goal_description : string;
  metrics : list Metric;
  balancing_metrics : list Metric;
  goal_deadline : option string;
  goal_priority : Priority;
  goal_id : string
}.

Record Subject := {
  subject_description : string;
  pains_desires : list string;
  is_negative : bool;
  subject_priority : Priority;
  subject_id : string
}.

Record Hypothesis_ := {
  if_part : string;
  then_part : string;
  because_part : string;
  then_metric : string;
  hyp_subject_id : option string;
  hyp_goal_id : option string;
  hyp_priority : Priority;
  is_validated : bool;
  hyp_id : string
}.

Record Task := {
  task_description : string;
  hypothesis_id : string;
  task_deadline : option string;
  task_priority : Priority;
  task_id : string
}.

Record Blocker := {
  reason : string;
  actions : list string;
  responsible : option string;
  blocker_deadline : option string;
  blocker_id : string
}.

Record Note := {
  content : string;
  related_element_id : option string;
  note_id : string
}.

Record HypothesisMap := {
  goals : list Goal_;
  subjects : list Subject;
  hypotheses : list Hypothesis_;
  tasks : list Task;
  blockers : list Blocker;
  notes : list Note;
  topology : TopologyType
}.

(** ** Constants of the converter *)

Definition COLORS_goal : string := "#cadf58".
Definition COLORS_subject : string := "#ffc831".
Definition COLORS_hypothesis : string := "#ffef73".
Definition COLORS_task : string := "#a6cdff".
Definition COLORS_stroke : string := "#1e1e1e".

Definition PRIORITY_COLORS (p : Priority) : string :=
  match p with
  | HIGH => "#FF7373"
  | MEDIUM => "#FFC831"
  | LOW => "#8FD14F"
  | NONE => "#70736d"
  end.

Definition PRIORITY_STROKE (p : Priority) : Z :=
  match p with
  | HIGH => 4
  | MEDIUM => 3
  | LOW => 2
  | NONE => 2
  end.

(** ** Randomness

    [random.randint] is modelled over an explicit source: an oracle giving
    the n-th raw draw and the number of draws made so far. *)

Record rng := { oracle : nat → Z; drawn : nat }.

Definition randint (a b : Z) (g : rng) : Z * rng :=
  ((a + oracle g (drawn g) `mod` (b - a + 1))%Z,
   {| oracle := oracle g; drawn := S (drawn g) |}).

Definition generate_id (g : rng) : string * rng :=
  let '(n, g') := randint 100000 999999 g in (pretty n, g').

Definition generate_seed (g : rng) : Z * rng :=
  randint 100000000 999999999 g.

(** ** Output elements

    Every element is a dictionary with a common set of keys; text and arrow
    elements carry additional keys. *)

Record bound_ref := { ref_id : string; ref_type : string }.

Record binding := { elementId : string; focus : Z; gap : Z }.

Record text_fields := {
  text : string;
  fontSize : Z;
  fontFamily : Z;
  textAlign : string;
  verticalAlign : string;
  containerId : option string;
  originalText : string;
  lineHeight : Q
}.

Record arrow_fields := {
  points : list (Q * Q);
  lastCommittedPoint : option (Q * Q);
  startBinding : binding;
  endBinding : binding;
  startArrowhead : option string;
  endArrowhead : option string
}.

Inductive element_extra :=
  | NoExtra
  | TextFields (t : text_fields)
  | ArrowFields (a : arrow_fields).

Record element := {
  el_id : string;
  el_type : string;
  el_x : Q;
  el_y : Q;
  el_width : Q;
  el_height : Q;
  angle : Z;
  strokeColor : string;
  backgroundColor : string;
  fillStyle : string;
  strokeWidth : Z;
  strokeStyle : string;
  roughness : Z;
  opacity : Z;
  groupIds : list string;
  frameId : option string;
  roundness : option Z;
  seed : Z;
  version : Z;
  versionNonce : Z;
  isDeleted : bool;
  boundElements : list bound_ref;
  updated : Z;
  link : option string;
  locked : bool;
  extra : element_extra
}.

Definition NL : string := String nl "".

(** [create_card]: the rectangle and the text bound to it, on arguments on
    which the operations of the function are exact in binary64 (all that the
    converter passes); [create_card_f64] is the function on any doubles. *)
Definition create_card (card_id text_id : string) (x y width height : Q)
    (bg_color : string) (txt : string) (font_size : Z) (g : rng)
    : element * element * rng :=
  let lines := (Z.of_nat (count_char nl txt) + 1)%Z in
  let text_height := (inject_Z lines * inject_Z font_size * (5 # 4))%Q in
  let '(seed1, g1) := generate_seed g in
  let '(nonce1, g2) := generate_seed g1 in
  let rect :=
    {| el_id := card_id; el_type := "rectangle";
       el_x := x; el_y := y; el_width := width; el_height := height;
       angle := 0; strokeColor := COLORS_stroke; backgroundColor := bg_color;
       fillStyle := "solid"; strokeWidth := 2; strokeStyle := "solid";
       roughness := 0; opacity := 100; groupIds := []; frameId := None;
       roundness := Some 3%Z; seed := seed1; version := 1;
       versionNonce := nonce1; isDeleted := false;
       boundElements := [{| ref_id := text_id; ref_type := "text" |}];
       updated := 1; link := None; locked := false; extra := NoExtra |} in
  let '(seed2, g3) := generate_seed g2 in
  let '(nonce2, g4) := generate_seed g3 in
  let text_elem :=
    {| el_id := text_id; el_type := "text";
       el_x := (x + 10)%Q; el_y := (y + (height - text_height) / 2)%Q;
       el_width := (width - 20)%Q; el_height := text_height;
       angle := 0; strokeColor := COLORS_stroke; backgroundColor := "transparent";
       fillStyle := "solid"; strokeWidth := 1; strokeStyle := "solid";
       roughness := 0; opacity := 100; groupIds := []; frameId := None;
       roundness := None; seed := seed2; version := 1;
       versionNonce := nonce2; isDeleted := false;
       boundElements := [];
       updated := 1; link := None; locked := false;
       extra := TextFields
         {| text := txt; fontSize := font_size; fontFamily := 3;
            textAlign := "left"; verticalAlign := "middle";
            containerId := Some card_id; originalText := txt;
            lineHeight := (5 # 4)%Q |} |} in
  (rect, text_elem, g4).

(** [create_arrow], on coordinates whose differences are exact in binary64
    (all that the converter passes); [create_arrow_f64] is the function on
    any doubles. *)
Definition create_arrow (arrow_id start_id end_id : string)
    (start_x start_y end_x end_y : Q) (color : string) (stroke_width : Z)
    (g : rng) : element * rng :=
  let '(seed1, g1) := generate_seed g in
  let '(nonce1, g2) := generate_seed g1 in
  ({| el_id := arrow_id; el_type := "arrow";
      el_x := start_x; el_y := start_y;
      el_width := Qabs (end_x - start_x); el_height := Qabs (end_y - start_y);
      angle := 0; strokeColor := color; backgroundColor := "transparent";
      fillStyle := "solid"; strokeWidth := stroke_width; strokeStyle := "solid";
      roughness := 0; opacity := 100; groupIds := []; frameId := None;
      roundness := Some 2%Z; seed := seed1; version := 1;
      versionNonce := nonce1; isDeleted := false;
      boundElements := [];
      updated := 1; link := None; locked := false;
      extra := ArrowFields
        {| points := [(0, 0)%Q; (end_x - start_x, end_y - start_y)%Q];
           lastCommittedPoint := None;
           startBinding := {| elementId := start_id; focus := 0; gap := 5 |};
           endBinding := {| elementId := end_id; focus := 0; gap := 5 |};
           startArrowhead := None;
           endArrowhead := Some "arrow" |} |},
   g2).

(** The text element shared by [create_label] and the title: both differ only
    in identifier, geometry, colour, content, font size and alignment. *)
Definition free_text (id : string) (x y width height : Q) (stroke : string)
    (txt : string) (font_size : Z) (align : string) (seed1 nonce1 : Z) : element :=
  {| el_id := id; el_type := "text";
     el_x := x; el_y := y; el_width := width; el_height := height;
     angle := 0; strokeColor := stroke; backgroundColor := "transparent";
     fillStyle := "solid"; strokeWidth := 1; strokeStyle := "solid";
     roughness := 0; opacity := 100; groupIds := []; frameId := None;
     roundness := None; seed := seed1; version := 1;
     versionNonce := nonce1; isDeleted := false;
     boundElements := [];
     updated := 1; link := None; locked := false;
     extra := TextFields
       {| text := txt; fontSize := font_size; fontFamily := 3;
          textAlign := align; verticalAlign := "top";
          containerId := None; originalText := txt;
          lineHeight := (5 # 4)%Q |} |}.

(** [create_label] *)
Definition create_label (txt : string) (x y width : Q) (g : rng) : element * rng :=
  let '(n, g1) := generate_id g in
  let label_id := "label-" +:+ n in
  let '(seed1, g2) := generate_seed g1 in
  let '(nonce1, g3) := generate_seed g2 in
  (free_text label_id x y width 30 "#868e96" txt 18 "center" seed1 nonce1, g3).

(** ** Card texts

    [str.lower] and [str.strip] are Python built-ins whose behaviour on
    Unicode text is not modelled: the converter is parameterised by them. *)

Class PyStr := {
  str_lower : string → string;
  str_strip : string → string
}.

(** [needle in hay] *)
Fixpoint str_contains (needle hay : string) : bool :=
  String.prefix needle hay ||
  match hay with
  | EmptyString => false
  | String _ hay' => str_contains needle hay'
  end.

Definition goal_text (goal : Goal_) : string :=
  let text0 := "ЦЕЛЬ" +:+ NL +:+ goal_description goal +:+ NL in
  let text1 :=
    match metrics goal with
    | [] => text0
    | _ :: _ =>
        foldl (λ t m, t +:+ "• " +:+ metric_name m +:+ ": " +:+ current_value m
                        +:+ " → " +:+ target_value m +:+ NL)
              (text0 +:+ NL +:+ "Метрики:" +:+ NL) (take 3 (metrics goal))
    end in
  match balancing_metrics goal with
  | [] => text1
  | _ :: _ =>
      foldl (λ t m, t +:+ "• " +:+ metric_name m +:+ NL)
            (text1 +:+ NL +:+ "Балансирующие:" +:+ NL)
            (take 2 (balancing_metrics goal))
  end.

Definition subject_text `{PyStr} (subject : Subject) : string :=
  let text0 := "СУБЪЕКТ" +:+ NL +:+ subject_description subject +:+ NL in
  match pains_desires subject with
  | [] => text0
  | _ :: _ =>
      let pains :=
        List.filter (λ p, str_contains "боль" (str_lower p)
                          || str_contains "страх" (str_lower p))
                    (pains_desires subject) in
      let desires :=
        List.filter (λ p, bool_decide (p ∉ pains)) (pains_desires subject) in
      let text1 :=
        match pains with
        | [] => text0
        | _ :: _ => text0 +:+ NL +:+ "Боли:" +:+ NL
                    +:+ str_join NL ((λ p, "• " +:+ p) <$> take 3 pains)
        end in
      match desires with
      | [] => text1
      | _ :: _ => text1 +:+ NL +:+ NL +:+ "Желания:" +:+ NL
                  +:+ str_join NL ((λ d, "• " +:+ d) <$> take 3 desires)
      end
  end.

Definition priority_label (p : Priority) : string :=
  match p with
  | HIGH => "🔴 Высокий"
  | MEDIUM => "🟡 Средний"
  | LOW => "🟢 Низкий"
  | NONE => ""
  end.

Definition hypothesis_text (i : nat) (hyp : Hypothesis_) : string :=
  let text0 := "ГИПОТЕЗА " +:+ pretty (i + 1) in
  let text1 :=
    if decide (priority_label (hyp_priority hyp) = "") then text0
    else text0 +:+ NL +:+ priority_label (hyp_priority hyp) +:+ " приоритет" in
  let if_wrapped := wrap_text (if_part hyp) 40 in
  let then_wrapped := wrap_text (then_part hyp) 40 in
  let because_wrapped := wrap_text (because_part hyp) 40 in
  let result_wrapped := wrap_text (then_metric hyp) 40 in
  text1 +:+ NL +:+ NL +:+ "ЕСЛИ " +:+ if_wrapped +:+ "," +:+ NL +:+ NL
        +:+ "ТО " +:+ then_wrapped +:+ "," +:+ NL +:+ NL
        +:+ "ПОТОМУ ЧТО " +:+ because_wrapped +:+ "," +:+ NL +:+ NL
        +:+ "ТОГДА " +:+ result_wrapped.

(** ** Layout *)

Definition COL_GOAL : Q := 100.
Definition COL_SUBJECT : Q := 500.
Definition COL_HYPOTHESIS : Q := 950.
Definition COL_TASK : Q := 1400.

Definition TITLE_Y : Q := 10.
Definition HEADER_Y : Q := 60.
Definition ROW_START : Q := 110.
Definition ROW_SPACING : Q := 180.

Definition GOAL_W : Q := 320.
Definition GOAL_H : Q := 200.
Definition SUBJECT_W : Q := 280.
Definition SUBJECT_H : Q := 200.
Definition HYPOTHESIS_W : Q := 380.
Definition HYPOTHESIS_H : Q := 350.
Definition TASK_W : Q := 240.
Definition TASK_H : Q := 100.

(** An entry of [positions]: the tuple [(x, y, width, height, card_id)];
    [pos[0]] .. [pos[4]] are the five projections in this order. *)
Record position := mk_pos {
  pos_x : Q;
  pos_y : Q;
  pos_w : Q;
  pos_h : Q;
  pos_card : string
}.

(** The mutable state of the layout phase.  The rectangle stored under a key
    of [card_elements] is the very object held by [elements]: the map records
    its index in [elements]. *)
Record layout := {
  elements : list element;
  positions : gmap string position;
  card_elements : gmap string nat;
  gen : rng
}.

(** The four statements that close the body of every layout loop:
    [rect, txt = create_card(...)], [elements.extend([rect, txt])],
    [card_elements[card_id] = rect] and [positions[key] = (...)]. *)
Definition place_card (key card_id text_id : string) (x y w h : Q)
    (bg_color txt : string) (font_size : Z) (st : layout) : layout :=
  let '(rect, text_elem, g') :=
    create_card card_id text_id x y w h bg_color txt font_size (gen st) in
  {| elements := elements st ++ [rect; text_elem];
     positions := <[key := mk_pos x y w h card_id]> (positions st);
     card_elements := <[card_id := length (elements st)]> (card_elements st);
     gen := g' |}.

(** [for i, goal in enumerate(map.goals)] *)
Fixpoint place_goals `{PyStr} (gs : list Goal_) (i : nat) (y : Q) (st : layout) : layout :=
  match gs with
  | [] => st
  | goal :: rest =>
      let card_id := "goal-" +:+ pretty i in
      let text_id := "goal-text-" +:+ pretty i in
      let st' := place_card (goal_id goal) card_id text_id COL_GOAL y GOAL_W GOAL_H
                            COLORS_goal (str_strip (goal_text goal)) 12 st in
      place_goals rest (S i) (y + (GOAL_H + ROW_SPACING))%Q st'
  end.

(** [for i, subject in enumerate(map.subjects)] *)
Fixpoint place_subjects `{PyStr} (ss : list Subject) (i : nat) (y : Q) (st : layout) : layout :=
  match ss with
  | [] => st
  | subject :: rest =>
      let card_id := "subject-" +:+ pretty i in
      let text_id := "subject-text-" +:+ pretty i in
      let st' := place_card (subject_id subject) card_id text_id COL_SUBJECT y
                            SUBJECT_W SUBJECT_H COLORS_subject
                            (str_strip (subject_text subject)) 11 st in
      place_subjects rest (S i) (y + (SUBJECT_H + ROW_SPACING))%Q st'
  end.

(** [for i, hyp in enumerate(map.hypotheses)] *)
Fixpoint place_hypotheses `{PyStr} (hs : list Hypothesis_) (i : nat) (y : Q) (st : layout) : layout :=
  match hs with
  | [] => st
  | hyp :: rest =>
      let card_id := "hypothesis-" +:+ pretty i in
      let text_id := "hypothesis-text-" +:+ pretty i in
      let st' := place_card (hyp_id hyp) card_id text_id COL_HYPOTHESIS y
                            HYPOTHESIS_W HYPOTHESIS_H COLORS_hypothesis
                            (str_strip (hypothesis_text i hyp)) 11 st in
      place_hypotheses rest (S i) (y + (HYPOTHESIS_H + ROW_SPACING))%Q st'
  end.

(** Grouping of the tasks by [hypothesis_id], in input order. *)
Definition group_task (tb : gmap string (list Task)) (task : Task)
    : gmap string (list Task) :=
  let tb' :=
    match tb !! hypothesis_id task with
    | None => <[hypothesis_id task := []]> tb
    | Some _ => tb
    end in
  alter (λ l, l ++ [task]) (hypothesis_id task) tb'.

Definition tasks_by_hypothesis (ts : list Task) : gmap string (list Task) :=
  foldl group_task ∅ ts.

(** [for j, task in enumerate(hyp_tasks)]; the state carries [task_idx]. *)
Fixpoint place_tasks (hyp_tasks : list Task) (j : nat) (task_start_y : Q)
    (st : layout * nat) : layout * nat :=
  match hyp_tasks with
  | [] => st
  | task :: rest =>
      let '(lay, task_idx) := st in
      let card_id := "task-" +:+ pretty task_idx in
      let text_id := "task-text-" +:+ pretty task_idx in
      let task_y := (task_start_y + inject_Z (Z.of_nat j) * (TASK_H + 15))%Q in
      let wrapped_desc := wrap_text (task_description task) 25 in
      place_tasks rest (S j) task_start_y
        (place_card (task_id task) card_id text_id COL_TASK task_y TASK_W TASK_H
                    COLORS_task wrapped_desc 12 lay,
         S task_idx)
  end.

Definition total_tasks_h (n : nat) : Q :=
  (inject_Z (Z.of_nat n) * TASK_H + (inject_Z (Z.of_nat n) - 1) * 15)%Q.

Definition task_start_y (hyp_pos : position) (n : nat) : Q :=
  (pos_y hyp_pos + (pos_h hyp_pos - total_tasks_h n) / 2)%Q.

(** Body of [for hyp in map.hypotheses] of the task section. *)
Definition place_hyp_tasks (tb : gmap string (list Task))
    (st : layout * nat) (hyp : Hypothesis_) : layout * nat :=
  let hyp_tasks := default [] (tb !! hyp_id hyp) in
  match hyp_tasks with
  | [] => st
  | _ :: _ =>
      match positions (fst st) !! hyp_id hyp with
      | None => st
      | Some hyp_pos =>
          place_tasks hyp_tasks 0 (task_start_y hyp_pos (length hyp_tasks)) st
      end
  end.

(** Title, column headers and the four columns of cards. *)
Definition title_element (title : string) (g : rng) : element * rng :=
  let '(n, g1) := generate_id g in
  let '(seed1, g2) := generate_seed g1 in
  let '(nonce1, g3) := generate_seed g2 in
  (free_text ("title-" +:+ n) COL_GOAL TITLE_Y (COL_TASK + TASK_W - COL_GOAL) 36
             "#1e1e1e" title 28 "left" seed1 nonce1, g3).

Definition headers (title : string) (g : rng) : layout :=
  let '(title_elem, g0) := title_element title g in
  let '(l1, g1) := create_label "ЦЕЛЬ" COL_GOAL HEADER_Y GOAL_W g0 in
  let '(l2, g2) := create_label "СУБЪЕКТЫ" COL_SUBJECT HEADER_Y SUBJECT_W g1 in
  let '(l3, g3) := create_label "ГИПОТЕЗЫ" COL_HYPOTHESIS HEADER_Y HYPOTHESIS_W g2 in
  let '(l4, g4) := create_label "ЗАДАЧИ" COL_TASK HEADER_Y TASK_W g3 in
  {| elements := [title_elem; l1; l2; l3; l4];
     positions := ∅; card_elements := ∅; gen := g4 |}.

(** The state after the title, the headers and the three columns of goals,
    subjects and hypotheses. *)
Definition columns `{PyStr} (m : HypothesisMap) (title : string) (g : rng) : layout :=
  let st0 := headers title g in
  let st1 := place_goals (goals m) 0 ROW_START st0 in
  let st2 := place_subjects (subjects m) 0 ROW_START st1 in
  place_hypotheses (hypotheses m) 0 ROW_START st2.

(** The state of the task section after the first [i] iterations of its
    [for hyp in map.hypotheses]. *)
Definition tasks_state `{PyStr} (m : HypothesisMap) (title : string) (g : rng)
    (i : nat) : layout * nat :=
  foldl (place_hyp_tasks (tasks_by_hypothesis (tasks m)))
        (columns m title g, 0) (take i (hypotheses m)).

Definition lay_out `{PyStr} (m : HypothesisMap) (title : string) (g : rng) : layout :=
  fst (foldl (place_hyp_tasks (tasks_by_hypothesis (tasks m)))
             (columns m title g, 0) (hypotheses m)).

(** ** Arrows *)

(** [element["boundElements"].append(r)] *)
Definition append_bound (r : bound_ref) (e : element) : element :=
  {| el_id := el_id e; el_type := el_type e;
     el_x := el_x e; el_y := el_y e; el_width := el_width e; el_height := el_height e;
     angle := angle e; strokeColor := strokeColor e;
     backgroundColor := backgroundColor e; fillStyle := fillStyle e;
     strokeWidth := strokeWidth e; strokeStyle := strokeStyle e;
     roughness := roughness e; opacity := opacity e; groupIds := groupIds e;
     frameId := frameId e; roundness := roundness e; seed := seed e;
     version := version e; versionNonce := versionNonce e;
     isDeleted := isDeleted e;
     boundElements := boundElements e ++ [r];
     updated := updated e; link := link e; locked := locked e;
     extra := extra e |}.

(** [add_arrow_binding]: the rectangle registered under [card_id] is mutated
    in place, hence the update of [elements] at its index. *)
Definition add_arrow_binding (ce : gmap string nat) (card_id arrow_id : string)
    (els : list element) : list element :=
  match ce !! card_id with
  | Some k => alter (append_bound {| ref_id := arrow_id; ref_type := "arrow" |}) k els
  | None => els
  end.

(** The state of the arrow phase: the elements built so far, the list
    [arrows], the counter [arrow_idx] and the random source. *)
Record binder := {
  els : list element;
  arrows : list element;
  arrow_idx : nat;
  bgen : rng
}.

(** The statements shared by the three arrow loops, for an arrow from the
    card at [a] to the card at [b]: [create_arrow] from the left-mid edge of
    [a] to the right-mid edge of [b], [arrows.append], the two calls of
    [add_arrow_binding] and [arrow_idx += 1]. *)
Definition connect (ce : gmap string nat) (a b : position)
    (color : string) (stroke_width : Z) (st : binder) : binder :=
  let arrow_id := "arrow-" +:+ pretty (arrow_idx st) in
  let '(arrow, g') :=
    create_arrow arrow_id (pos_card a) (pos_card b)
                 (pos_x a) (pos_y a + pos_h a / 2)%Q
                 (pos_x b + pos_w b)%Q (pos_y b + pos_h b / 2)%Q
                 color stroke_width (bgen st) in
  {| els := add_arrow_binding ce (pos_card b) arrow_id
              (add_arrow_binding ce (pos_card a) arrow_id (els st));
     arrows := arrows st ++ [arrow];
     arrow_idx := S (arrow_idx st);
     bgen := g' |}.

(** A loop whose body may raise: [None] stands for the exception. *)
Fixpoint for_each {A S : Type} (body : S → A → option S) (st : S) (l : list A)
    : option S :=
  match l with
  | [] => Some st
  | a :: l' => st' ← body st a; for_each body st' l'
  end.

(** Body of [for subject in map.subjects].  The lookup
    [positions[map.goals[0].id]] is unguarded in the source and raises
    [KeyError] on a missing key. *)
Definition subject_goal_arrow (m : HypothesisMap) (P : gmap string position)
    (ce : gmap string nat) (st : binder) (subject : Subject) : option binder :=
  match goals m with
  | [] => Some st
  | goal0 :: _ =>
      match P !! subject_id subject with
      | None => Some st
      | Some s_pos =>
          g_pos ← P !! goal_id goal0;
          Some (connect ce s_pos g_pos COLORS_subject 3 st)
      end
  end.

(** Body of [for hyp in map.hypotheses] of the arrow section. *)
Definition hypothesis_subject_arrow (P : gmap string position)
    (ce : gmap string nat) (st : binder) (hyp : Hypothesis_) : binder :=
  match hyp_subject_id hyp with
  | None => st
  | Some sid =>
      if decide (sid = "") then st
      else match P !! sid, P !! hyp_id hyp with
           | Some s_pos, Some h_pos =>
               connect ce h_pos s_pos (PRIORITY_COLORS (hyp_priority hyp))
                       (PRIORITY_STROKE (hyp_priority hyp)) st
           | _, _ => st
           end
  end.

(** Body of [for task in map.tasks] of the arrow section. *)
Definition task_hypothesis_arrow (P : gmap string position)
    (ce : gmap string nat) (st : binder) (task : Task) : binder :=
  match P !! hypothesis_id task, P !! task_id task with
  | Some h_pos, Some t_pos => connect ce t_pos h_pos "#70736d" 2 st
  | _, _ => st
  end.

Definition bind_arrows (m : HypothesisMap) (lay : layout) : option binder :=
  let P := positions lay in
  let ce := card_elements lay in
  let st0 := {| els := elements lay; arrows := []; arrow_idx := 0; bgen := gen lay |} in
  st1 ← for_each (subject_goal_arrow m P ce) st0 (subjects m);
  let st2 := foldl (hypothesis_subject_arrow P ce) st1 (hypotheses m) in
  Some (foldl (task_hypothesis_arrow P ce) st2 (tasks m)).

(** ** The document *)

Record app_state := { gridSize : option Z; viewBackgroundColor : string }.

Record document := {
  doc_type : string;
  doc_version : Z;
  doc_source : string;
  doc_elements : list element;
  appState : app_state;
  files : list (string * string)
}.

(** The default value of the parameter [title]. *)
Definition default_title : string := "Карта гипотез".

(** [convert_to_excalidraw], up to the final [json.dumps]: the result is the
    dictionary that is serialised, [None] if the conversion raises. *)
Definition convert_to_excalidraw `{PyStr} (m : HypothesisMap) (title : string)
    (g : rng) : option document :=
  st ← bind_arrows m (lay_out m title g);
  Some {| doc_type := "excalidraw";
          doc_version := 2;
          doc_source := "https://excalidraw.com";
          doc_elements := els st ++ arrows st;
          appState := {| gridSize := None; viewBackgroundColor := "#ffffff" |};
          files := [] |}.

(** ** Notions used to state the properties *)

(** The container a text element is bound to. *)
Definition container_of (e : element) : option string :=
  match extra e with
  | TextFields t => containerId t
  | _ => None
  end.

(** The elements an arrow starts from and ends at. *)
Definition arrow_start (e : element) : option string :=
  match extra e with
  | ArrowFields a => Some (elementId (startBinding a))
  | _ => None
  end.

Definition arrow_end (e : element) : option string :=
  match extra e with
  | ArrowFields a => Some (elementId (endBinding a))
  | _ => None
  end.

(** Number of text elements bound to [cid], of arrows starting from it and
    of arrows ending at it. *)
Definition text_refs (cid : string) (l : list element) : nat :=
  length (filter (λ e, container_of e = Some cid) l).

Definition start_refs (cid : string) (l : list element) : nat :=
  length (filter (λ e, arrow_start e = Some cid) l).

Definition end_refs (cid : string) (l : list element) : nat :=
  length (filter (λ e, arrow_end e = Some cid) l).

(** Number of elements that refer to [cid]: a text bound to it, or an arrow
    that starts from it or ends at it. *)
Definition referrers (cid : string) (l : list element) : nat :=
  length (filter (λ e, container_of e = Some cid
                       ∨ arrow_start e = Some cid ∨ arrow_end e = Some cid) l).

(** Number of arrows that both start from and end at [cid]. *)
Definition self_loops (cid : string) (l : list element) : nat :=
  length (filter (λ e, arrow_start e = Some cid ∧ arrow_end e = Some cid) l).

Definition connector_count (l : list element) : nat :=
  length (filter (λ e, el_type e = "arrow") l).

(** The effect of [add_arrow_binding card_id arrow_id] on one element. *)
Definition bind_map (card_id arrow_id : string) (e : element) : element :=
  if decide (el_type e = "rectangle" ∧ el_id e = card_id)
  then append_bound {| ref_id := arrow_id; ref_type := "arrow" |} e
  else e.

(** One execution of [place_card], by its arguments. *)
Record card_call := {
  call_key : string;
  call_card : string;
  call_text_id : string;
  call_x : Q;
  call_y : Q;
  call_w : Q;
  call_h : Q;
  call_bg : string;
  call_txt : string;
  call_font : Z
}.

Definition place_call (st : layout) (c : card_call) : layout :=
  place_card (call_key c) (call_card c) (call_text_id c) (call_x c) (call_y c)
             (call_w c) (call_h c) (call_bg c) (call_txt c) (call_font c) st.

Fixpoint goal_calls `{PyStr} (gs : list Goal_) (i : nat) (y : Q) : list card_call :=
  match gs with
  | [] => []
  | goal :: rest =>
      {| call_key := goal_id goal; call_card := "goal-" +:+ pretty i;
         call_text_id := "goal-text-" +:+ pretty i;
         call_x := COL_GOAL; call_y := y; call_w := GOAL_W; call_h := GOAL_H;
         call_bg := COLORS_goal; call_txt := str_strip (goal_text goal);
         call_font := 12 |}
      :: goal_calls rest (S i) (y + (GOAL_H + ROW_SPACING))%Q
  end.

Fixpoint subject_calls `{PyStr} (ss : list Subject) (i : nat) (y : Q) : list card_call :=
  match ss with
  | [] => []
  | subject :: rest =>
      {| call_key := subject_id subject; call_card := "subject-" +:+ pretty i;
         call_text_id := "subject-text-" +:+ pretty i;
         call_x := COL_SUBJECT; call_y := y; call_w := SUBJECT_W; call_h := SUBJECT_H;
         call_bg := COLORS_subject; call_txt := str_strip (subject_text subject);
         call_font := 11 |}
      :: subject_calls rest (S i) (y + (SUBJECT_H + ROW_SPACING))%Q
  end.

Fixpoint hypothesis_calls `{PyStr} (hs : list Hypothesis_) (i : nat) (y : Q) : list card_call :=
  match hs with
  | [] => []
  | hyp :: rest =>
      {| call_key := hyp_id hyp; call_card := "hypothesis-" +:+ pretty i;
         call_text_id := "hypothesis-text-" +:+ pretty i;
         call_x := COL_HYPOTHESIS; call_y := y;
         call_w := HYPOTHESIS_W; call_h := HYPOTHESIS_H;
         call_bg := COLORS_hypothesis;
         call_txt := str_strip (hypothesis_text i hyp);
         call_font := 11 |}
      :: hypothesis_calls rest (S i) (y + (HYPOTHESIS_H + ROW_SPACING))%Q
  end.

Fixpoint task_calls (hyp_tasks : list Task) (j : nat) (start_y : Q) (task_idx : nat)
    : list card_call :=
  match hyp_tasks with
  | [] => []
  | task :: rest =>
      {| call_key := task_id task; call_card := "task-" +:+ pretty task_idx;
         call_text_id := "task-text-" +:+ pretty task_idx;
         call_x := COL_TASK;
         call_y := (start_y + inject_Z (Z.of_nat j) * (TASK_H + 15))%Q;
         call_w := TASK_W; call_h := TASK_H;
         call_bg := COLORS_task;
         call_txt := wrap_text (task_description task) 25;
         call_font := 12 |}
      :: task_calls rest (S j) start_y (S task_idx)
  end.

(** The tasks of the map that refer to hypothesis [h], in input order. *)
Definition tasks_of (m : HypothesisMap) (h : Hypothesis_) : list Task :=
  filter (λ t, hypothesis_id t = hyp_id h) (tasks m).

(** The tasks that get a card, in the order in which the cards are made. *)
Definition placed_tasks (m : HypothesisMap) : list Task :=
  concat (tasks_of m <$> hypotheses m).

(** The keys of the position registry. *)
Definition registered (m : HypothesisMap) : list string :=
  (goal_id <$> goals m) ++ (subject_id <$> subjects m)
  ++ (hyp_id <$> hypotheses m) ++ (task_id <$> placed_tasks m).

(** The y coordinate of row [i] of a column that starts at [y0], as the layout
    loops accumulate it: [y += pitch] after every row. *)
Fixpoint row_y (y0 pitch : Q) (i : nat) : Q :=
  match i with
  | O => y0
  | S i' => (row_y y0 pitch i' + pitch)%Q
  end.

(** The registry entry, the rectangle and the text that a call produces. *)
Definition call_pos (c : card_call) : position :=
  mk_pos (call_x c) (call_y c) (call_w c) (call_h c) (call_card c).

Definition rect_of_call (c : card_call) (rect : element) : Prop :=
  el_id rect = call_card c ∧ el_type rect = "rectangle"
  ∧ el_x rect = call_x c ∧ el_y rect = call_y c
  ∧ el_width rect = call_w c ∧ el_height rect = call_h c
  ∧ boundElements rect = [{| ref_id := call_text_id c; ref_type := "text" |}]
  ∧ extra rect = NoExtra.

Definition text_of_call (c : card_call) (txt : element) : Prop :=
  el_id txt = call_text_id c ∧ el_type txt = "text" ∧ boundElements txt = []
  ∧ ∃ tf, extra txt = TextFields tf ∧ containerId tf = Some (call_card c)
          ∧ text tf = call_txt c.

Fixpoint calls_elements (calls : list card_call) (g : rng) : list element :=
  match calls with
  | [] => []
  | c :: rest =>
      let '(rect, txt, g') :=
        create_card (call_card c) (call_text_id c) (call_x c) (call_y c)
                    (call_w c) (call_h c) (call_bg c) (call_txt c) (call_font c) g in
      rect :: txt :: calls_elements rest g'
  end.

(** The identifiers of the cards, in the order in which the cards are made. *)
Definition card_ids (m : HypothesisMap) : list string :=
  ((λ k, "goal-" +:+ pretty k) <$> seq 0 (length (goals m)))
  ++ ((λ k, "subject-" +:+ pretty k) <$> seq 0 (length (subjects m)))
  ++ ((λ k, "hypothesis-" +:+ pretty k) <$> seq 0 (length (hypotheses m)))
  ++ ((λ k, "task-" +:+ pretty k) <$> seq 0 (length (placed_tasks m))).

(** The first character of a string. *)
Definition first_char (s : string) : option ascii :=
  match s with
  | EmptyString => None
  | String c _ => Some c
  end.

(** The calls of [place_card] made for the three columns. *)
Definition column_calls `{PyStr} (m : HypothesisMap) : list card_call :=
  goal_calls (goals m) 0 ROW_START
  ++ subject_calls (subjects m) 0 ROW_START
  ++ hypothesis_calls (hypotheses m) 0 ROW_START.

(** [card_elements] maps the identifier of every rectangle of [elements], and
    nothing else, to the index of that rectangle. *)
Definition cards_ok (ce : gmap string nat) (l : list element) : Prop :=
  (∀ cid k, ce !! cid = Some k →
     ∃ e, l !! k = Some e ∧ el_type e = "rectangle" ∧ el_id e = cid)
  ∧ (∀ k e, l !! k = Some e → el_type e = "rectangle" → ce !! el_id e = Some k).

(** No element of the list is an arrow. *)
Definition no_arrows (l : list element) : Prop :=
  ∀ e, e ∈ l → arrow_start e = None ∧ arrow_end e = None ∧ el_type e ≠ "arrow".

(** Exactly the registered cards have a text bound to them, and only one. *)
Definition one_text (ce : gmap string nat) (l : list element) : Prop :=
  ∀ cid, text_refs cid l = if ce !! cid is Some _ then 1 else 0.

(** The invariant of the layout phase. *)
Definition layout_ok (st : layout) : Prop :=
  cards_ok (card_elements st) (elements st)
  ∧ no_arrows (elements st)
  ∧ one_text (card_elements st) (elements st)
  ∧ (∀ e, e ∈ elements st → el_type e = "rectangle" → length (boundElements e) = 1)
  ∧ (∀ k p, positions st !! k = Some p → is_Some (card_elements st !! pos_card p)).

(** The invariant of the arrow phase. *)
Definition binder_ok (ce : gmap string nat) (st : binder) : Prop :=
  cards_ok ce (els st)
  ∧ no_arrows (els st)
  ∧ one_text ce (els st)
  ∧ (∀ e, e ∈ els st → el_type e = "rectangle" →
       length (boundElements e)
       = 1 + start_refs (el_id e) (arrows st) + end_refs (el_id e) (arrows st))
  ∧ (∀ a, a ∈ arrows st →
       el_type a = "arrow" ∧ container_of a = None
       ∧ is_Some (arrow_start a) ∧ is_Some (arrow_end a)).

(** One execution of [connect], by its arguments. *)
Record arrow_call := {
  from_pos : position;
  to_pos : position;
  arrow_color : string;
  arrow_stroke : Z
}.

Definition connect_call (ce : gmap string nat) (st : binder) (c : arrow_call) : binder :=
  connect ce (from_pos c) (to_pos c) (arrow_color c) (arrow_stroke c) st.

(** The arrow made for a subject, a hypothesis, a task, if any. *)
Definition subject_arrow_call (m : HypothesisMap) (P : gmap string position)
    (subject : Subject) : option arrow_call :=
  match goals m with
  | [] => None
  | goal0 :: _ =>
      s_pos ← P !! subject_id subject;
      g_pos ← P !! goal_id goal0;
      Some {| from_pos := s_pos; to_pos := g_pos;
              arrow_color := COLORS_subject; arrow_stroke := 3 |}
  end.

Definition hyp_arrow_call (P : gmap string position) (hyp : Hypothesis_)
    : option arrow_call :=
  sid ← hyp_subject_id hyp;
  if decide (sid = "") then None
  else
    s_pos ← P !! sid;
    h_pos ← P !! hyp_id hyp;
    Some {| from_pos := h_pos; to_pos := s_pos;
            arrow_color := PRIORITY_COLORS (hyp_priority hyp);
            arrow_stroke := PRIORITY_STROKE (hyp_priority hyp) |}.

Definition task_arrow_call (P : gmap string position) (task : Task)
    : option arrow_call :=
  h_pos ← P !! hypothesis_id task;
  t_pos ← P !! task_id task;
  Some {| from_pos := t_pos; to_pos := h_pos;
          arrow_color := "#70736d"; arrow_stroke := 2 |}.

(** The arrow element that a call of [connect] appends to [arrows]. *)
Definition arrow_of_call (c : arrow_call) (a : element) : Prop :=
  el_type a = "arrow"
  ∧ arrow_start a = Some (pos_card (from_pos c))
  ∧ arrow_end a = Some (pos_card (to_pos c))
  ∧ container_of a = None
  ∧ strokeColor a = arrow_color c
  ∧ strokeWidth a = arrow_stroke c.

(** The executions of [connect] of the three arrow loops, in order. *)
Definition arrow_calls (m : HypothesisMap) (P : gmap string position) : list arrow_call :=
  omap (subject_arrow_call m P) (subjects m)
  ++ omap (hyp_arrow_call P) (hypotheses m)
  ++ omap (task_arrow_call P) (tasks m).

(** The state in which the arrow phase starts, and the one in which it ends. *)
Definition initial_binder (lay : layout) : binder :=
  {| els := elements lay; arrows := []; arrow_idx := 0; bgen := gen lay |}.

Definition final_binder `{PyStr} (m : HypothesisMap) (title : string) (g : rng) : binder :=
  let lay := lay_out m title g in
  foldl (connect_call (card_elements lay)) (initial_binder lay)
        (arrow_calls m (positions lay)).

(** A hypothesis whose [subject_id] is set, not empty and a key of the
    position registry. *)
Definition hyp_resolves (m : HypothesisMap) (h : Hypothesis_) : bool :=
  match hyp_subject_id h with
  | Some sid => bool_decide (sid ≠ "" ∧ sid ∈ registered m)
  | None => false
  end.

(** A task whose [hypothesis_id] and whose own [id] are keys of the position
    registry. *)
Definition task_linked (m : HypothesisMap) (t : Task) : bool :=
  bool_decide (hypothesis_id t ∈ registered m ∧ task_id t ∈ registered m).

(** The connector made for hypothesis [h]. *)
Definition hyp_connector (P : gmap string position) (h : Hypothesis_)
    (a : element) : Prop :=
  ∃ sid s_pos h_pos,
    hyp_subject_id h = Some sid ∧ P !! sid = Some s_pos ∧ P !! hyp_id h = Some h_pos
    ∧ el_type a = "arrow"
    ∧ arrow_start a = Some (pos_card h_pos) ∧ arrow_end a = Some (pos_card s_pos)
    ∧ strokeColor a = PRIORITY_COLORS (hyp_priority h)
    ∧ strokeWidth a = match hyp_priority h with
                      | HIGH => 4 | MEDIUM => 3 | LOW | NONE => 2
                      end%Z.

(** ** The claimed number of connectors

    As the specification words it: the subjects if there is a goal, the
    hypotheses whose subject reference is set and is the identifier of a
    subject of the map, and all the tasks. *)
Definition claimed_connector_count (m : HypothesisMap) : nat :=
  (if goals m is [] then 0 else length (subjects m))
  + length (List.filter
              (λ h, match hyp_subject_id h with
                    | Some sid => bool_decide (sid ∈ subject_id <$> subjects m)
                    | None => false
                    end) (hypotheses m))
  + length (tasks m).

(** ** Sample inputs *)

(** The two built-ins as Python defines them on the ASCII range; other
    characters are left as they are. *)
Definition is_space (c : ascii) : bool :=
  let n := nat_of_ascii c in
  ((9 <=? n) && (n <=? 13)) || ((28 <=? n) && (n <=? 32)).

Definition lower_char (c : ascii) : ascii :=
  let n := nat_of_ascii c in
  if (65 <=? n) && (n <=? 90) then ascii_of_nat (n + 32) else c.

Fixpoint ascii_lower (s : string) : string :=
  match s with
  | EmptyString => EmptyString
  | String c s' => String (lower_char c) (ascii_lower s')
  end.

Fixpoint lstrip (s : string) : string :=
  match s with
  | EmptyString => EmptyString
  | String c s' => if is_space c then lstrip s' else s
  end.

Fixpoint rstrip (s : string) : string :=
  match s with
  | EmptyString => EmptyString
  | String c s' =>
      match rstrip s' with
      | EmptyString => if is_space c then EmptyString else String c EmptyString
      | r => String c r
      end
  end.

Definition ascii_py : PyStr :=
  {| str_lower := ascii_lower; str_strip := λ s, lstrip (rstrip s) |}.

(** A random source whose n-th raw draw is [n]. *)
Definition rng0 : rng := {| oracle := λ n, Z.of_nat n; drawn := 0 |}.

Definition mk_goal (description id : string) : Goal_ :=
  {| goal_description := description; metrics := []; balancing_metrics := [];
     goal_deadline := None; goal_priority := NONE; goal_id := id |}.

Definition mk_subject (description id : string) : Subject :=
  {| subject_description := description; pains_desires := [];
     is_negative := false; subject_priority := NONE; subject_id := id |}.

Definition mk_hypothesis (subject : option string) (priority : Priority)
    (id : string) : Hypothesis_ :=
  {| if_part := "we add a tour"; then_part := "users stay";
     because_part := "they see the value"; then_metric := "retention grows";
     hyp_subject_id := subject; hyp_goal_id := None; hyp_priority := priority;
     is_validated := false; hyp_id := id |}.

Definition mk_task (description hypothesis id : string) : Task :=
  {| task_description := description; hypothesis_id := hypothesis;
     task_deadline := None; task_priority := NONE; task_id := id |}.

Definition mk_map (gs : list Goal_) (ss : list Subject) (hs : list Hypothesis_)
    (ts : list Task) : HypothesisMap :=
  {| goals := gs; subjects := ss; hypotheses := hs; tasks := ts;
     blockers := []; notes := []; topology := CLASSIC |}.

(** One goal, one subject, one hypothesis of that subject, two tasks. *)
Definition sample_map : HypothesisMap :=
  mk_map [mk_goal "Increase retention" "g1"]
         [mk_subject "New users churn early" "s1"]
         [mk_hypothesis (Some "s1") HIGH "h1"]
         [mk_task "draft the tour" "h1" "t1"; mk_task "measure week one" "h1" "t2"].

(** A single task, whose hypothesis is not in the map. *)
Definition orphan_task_map : HypothesisMap :=
  mk_map [] [] [] [mk_task "draft the tour" "h9" "t1"].

(** A hypothesis of medium priority linked to a subject. *)
Definition medium_map : HypothesisMap :=
  mk_map [] [mk_subject "New users churn early" "s1"]
         [mk_hypothesis (Some "s1") MEDIUM "h1"] [].

(** A hypothesis whose subject reference is its own identifier. *)
Definition self_loop_map : HypothesisMap :=
  mk_map [] [] [mk_hypothesis (Some "h1") LOW "h1"] [].

(** Two hypotheses with the same identifier, and a task of theirs. *)
Definition twin_map : HypothesisMap :=
  mk_map [] [] [mk_hypothesis None LOW "h1"; mk_hypothesis None LOW "h1"]
         [mk_task "draft the tour" "h1" "t1"].

(** ** Runs compared up to identifiers and seeds *)

(** The text elements bound to no container: the title and the headers. *)
Definition is_free_text (e : element) : bool :=
  match extra e with
  | TextFields t => if containerId t is None then true else false
  | _ => false
  end.

(** An element without what the random source decides: its [seed], its
    [versionNonce] and, for the title and the headers, its [id]. *)
Definition strip_random (e : element) : element :=
  {| el_id := if is_free_text e then "" else el_id e; el_type := el_type e;
     el_x := el_x e; el_y := el_y e; el_width := el_width e; el_height := el_height e;
     angle := angle e; strokeColor := strokeColor e;
     backgroundColor := backgroundColor e; fillStyle := fillStyle e;
     strokeWidth := strokeWidth e; strokeStyle := strokeStyle e;
     roughness := roughness e; opacity := opacity e; groupIds := groupIds e;
     frameId := frameId e; roundness := roundness e; seed := 0;
     version := version e; versionNonce := 0;
     isDeleted := isDeleted e; boundElements := boundElements e;
     updated := updated e; link := link e; locked := locked e;
     extra := extra e |}.

(** Two layout states, and two states of the arrow phase, that differ in
    identifiers and seeds only. *)
Definition layout_sim (st1 st2 : layout) : Prop :=
  strip_random <$> elements st1 = strip_random <$> elements st2
  ∧ positions st1 = positions st2
  ∧ card_elements st1 = card_elements st2.

Definition binder_sim (st1 st2 : binder) : Prop :=
  strip_random <$> els st1 = strip_random <$> els st2
  ∧ strip_random <$> arrows st1 = strip_random <$> arrows st2
  ∧ arrow_idx st1 = arrow_idx st2.

(** The shape of a connector. *)
Definition arrow_shape (a : element) : Prop :=
  ∃ af dx dy,
    extra a = ArrowFields af
    ∧ points af = [(0, 0)%Q; (dx, dy)]
    ∧ el_width a = Qabs dx ∧ el_height a = Qabs dy
    ∧ focus (startBinding af) = 0%Z ∧ gap (startBinding af) = 5%Z
    ∧ focus (endBinding af) = 0%Z ∧ gap (endBinding af) = 5%Z
    ∧ startArrowhead af = None ∧ endArrowhead af = Some "arrow".

(** ** The map without one of its tasks *)

#[global] Instance Priority_eq_dec : EqDecision Priority.
Proof. solve_decision. Defined.

#[global] Instance Task_eq_dec : EqDecision Task.
Proof. solve_decision. Defined.


(** The y coordinate of the [j]-th task of a block that starts at [start]. *)
Definition task_y (start : Q) (j : nat) : Q :=
  (start + inject_Z (Z.of_nat j) * (TASK_H + 15))%Q.

(** The registry entry of the card of the [i]-th hypothesis. *)
Definition hypothesis_pos (i : nat) : position :=
  mk_pos COL_HYPOTHESIS (row_y ROW_START (HYPOTHESIS_H + ROW_SPACING) i)
         HYPOTHESIS_W HYPOTHESIS_H ("hypothesis-" +:+ pretty i).

(** ** Lookups of the data model ([HypothesisMap], [src/model.py]) *)

(** [next((x for x in l if p(x)), None)]: the first element that satisfies
    [p], if any. *)
Fixpoint next_match {A : Type} (p : A → bool) (l : list A) : option A :=
  match l with
  | [] => None
  | x :: l' => if p x then Some x else next_match p l'
  end.

Definition get_goal_by_id (m : HypothesisMap) (id : string) : option Goal_ :=
  next_match (λ g, bool_decide (goal_id g = id)) (goals m).

Definition get_subject_by_id (m : HypothesisMap) (id : string) : option Subject :=
  next_match (λ s, bool_decide (subject_id s = id)) (subjects m).

Definition get_hypothesis_by_id (m : HypothesisMap) (id : string) : option Hypothesis_ :=
  next_match (λ h, bool_decide (hyp_id h = id)) (hypotheses m).

Definition get_tasks_for_hypothesis (m : HypothesisMap) (id : string) : list Task :=
  filter (λ t, hypothesis_id t = id) (tasks m).

(** ** Further notions used to state properties *)

(** The registry entries of the cards of the [i]-th goal and subject. *)
Definition goal_pos (i : nat) : position :=
  mk_pos COL_GOAL (row_y ROW_START (GOAL_H + ROW_SPACING) i) GOAL_W GOAL_H
         ("goal-" +:+ pretty i).

Definition subject_pos (i : nat) : position :=
  mk_pos COL_SUBJECT (row_y ROW_START (SUBJECT_H + ROW_SPACING) i)
         SUBJECT_W SUBJECT_H ("subject-" +:+ pretty i).

(** The first piece of a line: its first word, unless the line begins with
    a space. *)
Definition first_piece (l : string) : string := hd "" (str_split sp l).

(** [for r in refs: e["boundElements"].append(r)] *)
Definition add_bounds (refs : list bound_ref) (e : element) : element :=
  foldl (λ e' r, append_bound r e') e refs.

(** The entry of a bound list for an arrow. *)
Definition arrow_ref (a : element) : bound_ref :=
  {| ref_id := el_id a; ref_type := "arrow" |}.

(** The geometry of an element. *)
Definition geometry (e : element) : Q * Q * Q * Q :=
  (el_x e, el_y e, el_width e, el_height e).

(** The entries that the arrows of [l], in order, add to the bound list of
    the card [cid]: one for an arrow that starts from it, one for an arrow
    that ends at it. *)
Definition arrow_refs_of (cid : string) (l : list element) : list bound_ref :=
  l ≫= (λ a, (if decide (arrow_start a = Some cid) then [arrow_ref a] else [])
             ++ (if decide (arrow_end a = Some cid) then [arrow_ref a] else [])).

(** An element of the layout after the arrows [l] have been attached. *)
Definition bound_arrows (l : list element) (e : element) : element :=
  if decide (el_type e = "rectangle")
  then add_bounds (arrow_refs_of (el_id e) l) e
  else e.

(** The entry of a bound list for a text. *)
Definition text_ref (t : element) : bound_ref :=
  {| ref_id := el_id t; ref_type := "text" |}.

(** The content of a text element. *)
Definition el_text (e : element) : option string :=
  match extra e with
  | TextFields t => Some (text t)
  | _ => None
  end.

(** The arguments with which [place_card] is run for the goal, the subject
    and the hypothesis of index [i], placed at height [y], and for the task
    that gets the card of index [k]. *)
Definition goal_call `{PyStr} (i : nat) (y : Q) (goal : Goal_) : card_call :=
  {| call_key := goal_id goal; call_card := "goal-" +:+ pretty i;
     call_text_id := "goal-text-" +:+ pretty i;
     call_x := COL_GOAL; call_y := y; call_w := GOAL_W; call_h := GOAL_H;
     call_bg := COLORS_goal; call_txt := str_strip (goal_text goal);
     call_font := 12 |}.

Definition subject_call `{PyStr} (i : nat) (y : Q) (subject : Subject) : card_call :=
  {| call_key := subject_id subject; call_card := "subject-" +:+ pretty i;
     call_text_id := "subject-text-" +:+ pretty i;
     call_x := COL_SUBJECT; call_y := y; call_w := SUBJECT_W; call_h := SUBJECT_H;
     call_bg := COLORS_subject; call_txt := str_strip (subject_text subject);
     call_font := 11 |}.

Definition hypothesis_call `{PyStr} (i : nat) (y : Q) (hyp : Hypothesis_) : card_call :=
  {| call_key := hyp_id hyp; call_card := "hypothesis-" +:+ pretty i;
     call_text_id := "hypothesis-text-" +:+ pretty i;
     call_x := COL_HYPOTHESIS; call_y := y;
     call_w := HYPOTHESIS_W; call_h := HYPOTHESIS_H;
     call_bg := COLORS_hypothesis;
     call_txt := str_strip (hypothesis_text i hyp);
     call_font := 11 |}.

Definition task_call (k : nat) (y : Q) (task : Task) : card_call :=
  {| call_key := task_id task; call_card := "task-" +:+ pretty k;
     call_text_id := "task-text-" +:+ pretty k;
     call_x := COL_TASK; call_y := y; call_w := TASK_W; call_h := TASK_H;
     call_bg := COLORS_task;
     call_txt := wrap_text (task_description task) 25;
     call_font := 12 |}.

(** The [k]-th card of a document is the one made by the call [c]: after
    the title and the four headers, the rectangle at index [5 + 2k] and its
    text right behind it. *)
Definition card_at (l : list element) (k : nat) (c : card_call) : Prop :=
  ∃ rect te,
    l !! (5 + 2 * k) = Some rect ∧ l !! (5 + 2 * k + 1) = Some te
    ∧ el_type rect = "rectangle" ∧ el_id rect = call_card c
    ∧ geometry rect = (call_x c, call_y c, call_w c, call_h c)
    ∧ backgroundColor rect = call_bg c
    ∧ head (boundElements rect) = Some (text_ref te)
    ∧ el_type te = "text" ∧ el_id te = call_text_id c
    ∧ container_of te = Some (call_card c)
    ∧ el_text te = Some (call_txt c)
    ∧ boundElements te = [].

(** The points of an arrow. *)
Definition arrow_points (e : element) : list (Q * Q) :=
  match extra e with
  | ArrowFields a => points a
  | _ => []
  end.

(** The number of cards of a document. *)
Definition card_count (m : HypothesisMap) : nat :=
  length (goals m) + length (subjects m) + length (hypotheses m)
  + length (placed_tasks m).

(** Two axis-parallel boxes that do not overlap: one lies to the left of
    the other, or above it. *)
Definition disjoint_boxes (r1 r2 : element) : Prop :=
  (el_x r1 + el_width r1 <= el_x r2 ∨ el_x r2 + el_width r2 <= el_x r1
   ∨ el_y r1 + el_height r1 <= el_y r2 ∨ el_y r2 + el_height r2 <= el_y r1)%Q.

(** Two calls of [place_card] whose cards do not overlap, the first being
    the one made first: its card lies to the left of the other, or above or
    below it. *)
Definition calls_apart (c1 c2 : card_call) : Prop :=
  (call_x c1 + call_w c1 <= call_x c2 ∨ call_y c1 + call_h c1 <= call_y c2
   ∨ call_y c2 + call_h c2 <= call_y c1)%Q.

(** A relation that holds from every element of a list to every later one. *)
Definition forward {A : Type} (R : A → A → Prop) (l : list A) : Prop :=
  ∀ k1 k2 c1 c2, k1 < k2 → l !! k1 = Some c1 → l !! k2 = Some c2 → R c1 c2.

(** ** Binary64 arithmetic

    A finite [float] of Python is modelled by its value, a rational.  An
    arithmetic operation on floats returns the exact result rounded to the
    nearest double, ties to even: 53 significant bits, exponents down to
    [-1074].  A result of magnitude [2^1024] or more stands for an
    overflow, which Python reports as [inf]. *)

(** [floor (log2 |q|)], for [q] other than zero. *)
Definition ilog2 (q : Q) : Z :=
  let k := (Z.log2 (Z.abs (Qnum q)) - Z.log2 (Zpos (Qden q)))%Z in
  if Qle_bool (2 ^ k) (Qabs q) then k else (k - 1)%Z.

(** The integer nearest to [r], the even one of the two in a tie. *)
Definition round_half_even (r : Q) : Z :=
  let fl := Qfloor r in
  match (r - inject_Z fl ?= 1 # 2)%Q with
  | Lt => fl
  | Gt => (fl + 1)%Z
  | Eq => if Z.even fl then fl else (fl + 1)%Z
  end.

(** The double nearest to [q]. *)
Definition round64 (q : Q) : Q :=
  let r := Qred q in
  if Qeq_bool r 0 then 0%Q
  else let e := Z.max (ilog2 r - 52) (-1074) in
       (inject_Z (round_half_even (r / 2 ^ e)) * 2 ^ e)%Q.

(** The rationals that are finite doubles. *)
Definition is_double (q : Q) : Prop := (round64 q == q ∧ Qabs q < 2 ^ 1024)%Q.

Definition f64_add (a b : Q) : Q := round64 (a + b).
Definition f64_sub (a b : Q) : Q := round64 (a - b).
Definition f64_mul (a b : Q) : Q := round64 (a * b).
Definition f64_div (a b : Q) : Q := round64 (a / b).

(** [float(n)], the conversion made when an [int] meets a [float]. *)
Definition f64_of_Z (n : Z) : Q := round64 (inject_Z n).

(** The value of a finite double of the kernel's binary64 numbers, against
    which [round64] is checked. *)
Definition SF_value (f : SpecFloat.spec_float) : option Q :=
  match f with
  | SpecFloat.S754_zero _ => Some 0%Q
  | SpecFloat.S754_finite s m e =>
      Some ((if s then -1 else 1) * inject_Z (Zpos m) * 2 ^ e)%Q
  | _ => None
  end.

Definition float_value (f : PrimFloat.float) : option Q :=
  SF_value (FloatOps.Prim2SF f).

(** The double written [n / d] in Python, for small non-negative [n], [d]. *)
Definition float_quotient (n d : Z) : PrimFloat.float :=
  PrimFloat.div (PrimFloat.of_uint63 (Uint63.of_Z n))
                (PrimFloat.of_uint63 (Uint63.of_Z d)).

(** [create_card] on doubles.  [lines * font_size] is a product of
    [int]s, converted to [float] when multiplied by [1.25]. *)
Definition create_card_f64 (card_id text_id : string) (x y width height : Q)
    (bg_color : string) (txt : string) (font_size : Z) (g : rng)
    : element * element * rng :=
  let lines := (Z.of_nat (count_char nl txt) + 1)%Z in
  let text_height := f64_mul (f64_of_Z (lines * font_size)) (5 # 4) in
  let '(seed1, g1) := generate_seed g in
  let '(nonce1, g2) := generate_seed g1 in
  let rect :=
    {| el_id := card_id; el_type := "rectangle";
       el_x := x; el_y := y; el_width := width; el_height := height;
       angle := 0; strokeColor := COLORS_stroke; backgroundColor := bg_color;
       fillStyle := "solid"; strokeWidth := 2; strokeStyle := "solid";
       roughness := 0; opacity := 100; groupIds := []; frameId := None;
       roundness := Some 3%Z; seed := seed1; version := 1;
       versionNonce := nonce1; isDeleted := false;
       boundElements := [{| ref_id := text_id; ref_type := "text" |}];
       updated := 1; link := None; locked := false; extra := NoExtra |} in
  let '(seed2, g3) := generate_seed g2 in
  let '(nonce2, g4) := generate_seed g3 in
  let text_elem :=
    {| el_id := text_id; el_type := "text";
       el_x := f64_add x 10;
       el_y := f64_add y (f64_div (f64_sub height text_height) 2);
       el_width := f64_sub width 20; el_height := text_height;
       angle := 0; strokeColor := COLORS_stroke; backgroundColor := "transparent";
       fillStyle := "solid"; strokeWidth := 1; strokeStyle := "solid";
       roughness := 0; opacity := 100; groupIds := []; frameId := None;
       roundness := None; seed := seed2; version := 1;
       versionNonce := nonce2; isDeleted := false;
       boundElements := [];
       updated := 1; link := None; locked := false;
       extra := TextFields
         {| text := txt; fontSize := font_size; fontFamily := 3;
            textAlign := "left"; verticalAlign := "middle";
            containerId := Some card_id; originalText := txt;
            lineHeight := (5 # 4)%Q |} |} in
  (rect, text_elem, g4).

(** [create_arrow] on doubles. *)
Definition create_arrow_f64 (arrow_id start_id end_id : string)
    (start_x start_y end_x end_y : Q) (color : string) (stroke_width : Z)
    (g : rng) : element * rng :=
  let '(seed1, g1) := generate_seed g in
  let '(nonce1, g2) := generate_seed g1 in
  ({| el_id := arrow_id; el_type := "arrow";
      el_x := start_x; el_y := start_y;
      el_width := Qabs (f64_sub end_x start_x);
      el_height := Qabs (f64_sub end_y start_y);
      angle := 0; strokeColor := color; backgroundColor := "transparent";
      fillStyle := "solid"; strokeWidth := stroke_width; strokeStyle := "solid";
      roughness := 0; opacity := 100; groupIds := []; frameId := None;
      roundness := Some 2%Z; seed := seed1; version := 1;
      versionNonce := nonce1; isDeleted := false;
      boundElements := [];
      updated := 1; link := None; locked := false;
      extra := ArrowFields
        {| points := [(0, 0)%Q; (f64_sub end_x start_x, f64_sub end_y start_y)];
           lastCommittedPoint := None;
           startBinding := {| elementId := start_id; focus := 0; gap := 5 |};
           endBinding := {| elementId := end_id; focus := 0; gap := 5 |};
           startArrowhead := None;
           endArrowhead := Some "arrow" |} |},
   g2).

(** The arguments of [create_card] on which every operation of the function
    is exact: the conversion of [lines * font_size], the product with
    [1.25], [x + 10], [width - 20], [height - text_height], its half and the
    sum with [y]. *)
Definition card_exact (x y width height : Q) (txt : string) (font_size : Z)
    : Prop :=
  let n := ((Z.of_nat (count_char nl txt) + 1) * font_size)%Z in
  let th := (inject_Z n * (5 # 4))%Q in
  is_double (inject_Z n) ∧ is_double th
  ∧ is_double (x + 10) ∧ is_double (width - 20)
  ∧ is_double (height - th) ∧ is_double ((height - th) / 2)
  ∧ is_double (y + (height - th) / 2).


(** * Properties *)

(** ** Strings *)

Section Strings.
Implicit Types (s t : string) (c d : ascii) (l : list string).

Lemma app_String a s t : String a s +:+ t = String a (s +:+ t).
Proof. reflexivity. Qed.

Lemma app_empty_l t : "" +:+ t = t.
Proof. reflexivity. Qed.

Lemma len_app s t : len (s +:+ t) = (len s + len t)%Z.
Proof.
  unfold len. induction s as [|a s IH]; [rewrite app_empty_l; simpl; lia|].
  rewrite app_String. simpl String.length. lia.
Qed.

Lemma len_nonneg s : (0 ≤ len s)%Z.
Proof. unfold len. lia. Qed.

Lemma len_zero s : len s = 0%Z → s = "".
Proof. destruct s; [done|]. unfold len. simpl. lia. Qed.

Lemma has_char_app c s t : has_char c (s +:+ t) = has_char c s || has_char c t.
Proof.
  induction s as [|a s IH]; [done|].
  rewrite app_String. simpl. by destruct (decide (a = c)).
Qed.

Lemma str_split_nonnil c s : str_split c s ≠ [].
Proof.
  destruct s as [|a s]; simpl; [done|].
  destruct (decide (a = c)); [done|]. by destruct (str_split c s).
Qed.

Lemma str_split_has_char c d s :
  has_char d s = false → Forall (λ p, has_char d p = false) (str_split c s).
Proof.
  induction s as [|a s IH]; simpl; intros Hd.
  - by constructor.
  - destruct (decide (a = d)) as [|Had]; [done|]. specialize (IH Hd).
    destruct (decide (a = c)); [by constructor|].
    destruct (str_split c s) as [|p r].
    + constructor; [simpl; by destruct (decide (a = d))|constructor].
    + inversion IH; subst.
      constructor; [simpl; by destruct (decide (a = d))|done].
Qed.

Lemma str_split_no_sep c s : Forall (λ p, has_char c p = false) (str_split c s).
Proof.
  induction s as [|a s IH]; simpl.
  - by constructor.
  - destruct (decide (a = c)) as [|Hac]; [by constructor|].
    destruct (str_split c s) as [|p r].
    + constructor; [simpl; by destruct (decide (a = c))|constructor].
    + inversion IH; subst.
      constructor; [simpl; by destruct (decide (a = c))|done].
Qed.

Lemma str_split_id c s : has_char c s = false → str_split c s = [s].
Proof.
  induction s as [|a s IH]; simpl; [done|].
  destruct (decide (a = c)); [done|]. intros H. by rewrite (IH H).
Qed.

Lemma str_split_app_sep c s t :
  str_split c (s +:+ String c t) = str_split c s ++ str_split c t.
Proof.
  induction s as [|a s IH].
  - rewrite app_empty_l. simpl. by destruct (decide (c = c)).
  - rewrite app_String. simpl. rewrite IH.
    destruct (decide (a = c)); [done|].
    pose proof (str_split_nonnil c s). by destruct (str_split c s).
Qed.

Lemma str_split_join c l :
  l ≠ [] → str_split c (str_join (String c "") l) = concat (str_split c <$> l).
Proof.
  induction l as [|x r IH]; [done|]. intros _.
  destruct r as [|y r].
  - simpl. by rewrite app_nil_r.
  - change (str_join (String c "") (x :: y :: r))
      with (x +:+ String c (str_join (String c "") (y :: r))).
    rewrite str_split_app_sep, IH by done. done.
Qed.

Lemma str_split_join_id c l :
  l ≠ [] → Forall (λ p, has_char c p = false) l →
  str_split c (str_join (String c "") l) = l.
Proof.
  intros Hne Hall. rewrite str_split_join by done. clear Hne.
  induction Hall as [|x r Hx _ IH]; [done|].
  by rewrite fmap_cons, concat_cons, IH, (str_split_id _ _ Hx).
Qed.

Lemma str_join_split c s : str_join (String c "") (str_split c s) = s.
Proof.
  induction s as [|a s IH]; [done|]. simpl str_split.
  pose proof (str_split_nonnil c s) as Hne.
  destruct (decide (a = c)) as [->|].
  - destruct (str_split c s) as [|p r] eqn:E; [done|].
    change (str_join (String c "") ("" :: p :: r))
      with (String c (str_join (String c "") (p :: r))).
    by rewrite IH.
  - destruct (str_split c s) as [|p r] eqn:E; [done|].
    destruct r as [|q r]; simpl in *; by rewrite <- IH.
Qed.

Lemma count_char_app c s t :
  count_char c (s +:+ t) = count_char c s + count_char c t.
Proof.
  induction s as [|a s IH]; [done|]. rewrite app_String. simpl. lia.
Qed.

Lemma words_nil : words "" = [].
Proof. done. Qed.

Lemma words_no_space s : has_char sp s = false → words s = filter (λ p, p ≠ "") [s].
Proof. intros H. unfold words. by rewrite str_split_id. Qed.

Lemma words_app_space s t : words (s +:+ String sp t) = words s ++ words t.
Proof. unfold words. by rewrite str_split_app_sep, filter_app. Qed.

Lemma filter_concat_words (ls : list (list string)) :
  filter (λ p : string, p ≠ "") (concat ls)
  = concat (filter (λ p : string, p ≠ "") <$> ls).
Proof.
  induction ls as [|x r IH]; [done|]. simpl. by rewrite filter_app, IH.
Qed.

Lemma words_join l : words (str_join (String sp "") l) = concat (words <$> l).
Proof.
  destruct l as [|x r]; [done|].
  unfold words at 1. rewrite str_split_join by done.
  rewrite filter_concat_words. f_equal. by rewrite <- list_fmap_compose.
Qed.
End Strings.

(** ** The text wrapper *)

Section Wrapper.
Variable w : Z.

Lemma foldl_step {A B} (f : A → B → A) a x l :
  foldl f a (x :: l) = foldl f (f a x) l.
Proof. reflexivity. Qed.

Lemma wrap_word_acc acc cur word :
  wrap_word w (acc, cur) word
  = (acc ++ (wrap_word w ([], cur) word).1, (wrap_word w ([], cur) word).2).
Proof.
  unfold wrap_word. destruct (decide (cur = "")).
  - simpl. by rewrite app_nil_r.
  - destruct (_ <=? _)%Z; simpl; by rewrite ?app_nil_r.
Qed.

Lemma wrap_words_acc ws acc cur :
  foldl (wrap_word w) (acc, cur) ws
  = (acc ++ (foldl (wrap_word w) ([], cur) ws).1,
     (foldl (wrap_word w) ([], cur) ws).2).
Proof.
  revert acc cur. induction ws as [|word ws IH]; intros acc cur.
  - simpl. by rewrite app_nil_r.
  - rewrite !foldl_step, wrap_word_acc.
    destruct (wrap_word w ([], cur) word) as [o c'] eqn:E. simpl.
    rewrite (IH (acc ++ o)), (IH o). simpl. by rewrite app_assoc.
Qed.

Lemma wrap_one_unfold line :
  wrap_one w line
  = if (len line <=? w)%Z then [line]
    else (foldl (wrap_word w) ([], "") (str_split sp line)).1
         ++ flush (foldl (wrap_word w) ([], "") (str_split sp line)).2.
Proof.
  unfold wrap_one, wrap_line, flush. destruct (len line <=? w)%Z; [done|].
  destruct (foldl _ _ _) as [o c]. simpl.
  destruct (decide (c = "")); by rewrite ?app_nil_r.
Qed.

Lemma wrap_line_acc acc line : wrap_line w acc line = acc ++ wrap_one w line.
Proof.
  unfold wrap_one, wrap_line. destruct (len line <=? w)%Z; [done|].
  rewrite wrap_words_acc.
  destruct (foldl (wrap_word w) ([], "") (str_split sp line)) as [o c]. simpl.
  destruct (decide (c = "")); by rewrite ?app_nil_r, ?app_assoc.
Qed.

Lemma wrap_lines_acc lines acc :
  foldl (wrap_line w) acc lines = acc ++ concat (wrap_one w <$> lines).
Proof.
  revert acc. induction lines as [|line lines IH]; intros acc.
  - simpl. by rewrite app_nil_r.
  - rewrite foldl_step, IH, wrap_line_acc, fmap_cons, concat_cons.
    by rewrite app_assoc.
Qed.

Lemma wrapped_lines_of_concat text :
  wrapped_lines_of text w = concat (wrap_one w <$> str_split nl text).
Proof. unfold wrapped_lines_of. by rewrite wrap_lines_acc. Qed.

(** An invariant of the inner loop: a property of the words that survives
    the junction of a line and a word that fit holds of every line
    produced. *)
Lemma wrap_words_inv (P : string → Prop) :
  (∀ cur word, P cur → P word → cur ≠ "" →
     (len cur + 1 + len word ≤ w)%Z → P (cur +:+ " " +:+ word)) →
  ∀ ws out cur,
    Forall P ws → Forall P out → cur = "" ∨ P cur →
    Forall P (foldl (wrap_word w) (out, cur) ws).1
    ∧ ((foldl (wrap_word w) (out, cur) ws).2 = ""
       ∨ P (foldl (wrap_word w) (out, cur) ws).2).
Proof.
  intros Hjoin ws. induction ws as [|word ws IH]; intros out cur Hws Hout Hcur.
  - done.
  - inversion Hws as [|?? Hword Hws']; subst. rewrite foldl_step.
    unfold wrap_word. destruct (decide (cur = "")) as [->|Hne].
    + apply IH; auto.
    + destruct Hcur as [?|Hcur]; [done|].
      destruct (len cur + 1 + len word <=? w)%Z eqn:E.
      * apply IH; auto. right. apply Hjoin; auto. lia.
      * apply IH; auto. apply Forall_app; split; auto.
Qed.

Lemma wrap_one_inv (P : string → Prop) line :
  (∀ cur word, P cur → P word → cur ≠ "" →
     (len cur + 1 + len word ≤ w)%Z → P (cur +:+ " " +:+ word)) →
  ((len line ≤ w)%Z → P line) →
  Forall P (str_split sp line) →
  Forall P (wrap_one w line).
Proof.
  intros Hjoin Hshort Hwords. rewrite wrap_one_unfold.
  destruct (len line <=? w)%Z eqn:E.
  - constructor; [apply Hshort; lia|constructor].
  - destruct (wrap_words_inv P Hjoin (str_split sp line) [] "") as [Ho Hc]; auto.
    apply Forall_app; split; [done|]. unfold flush.
    destruct (decide (_ = "")); [constructor|].
    destruct Hc; [done|]. by constructor.
Qed.

(** No produced line contains a line break. *)
Lemma wrap_one_no_nl line :
  has_char nl line = false → Forall (λ l, has_char nl l = false) (wrap_one w line).
Proof.
  intros H. apply wrap_one_inv; [|done|by apply str_split_has_char].
  intros cur word Hc Hw _ _. by rewrite !has_char_app, Hc, Hw.
Qed.

(** A produced line fits, or is one of the words of the line. *)
Lemma wrap_one_fits line :
  (0 ≤ w)%Z →
  Forall (λ l, (len l ≤ w)%Z ∨ ((w < len l)%Z ∧ l ∈ words line)) (wrap_one w line).
Proof.
  intros Hw. apply wrap_one_inv.
  - intros cur word _ _ _ Hfit. left. rewrite !len_app.
    change (len " ") with 1%Z. lia.
  - auto.
  - apply Forall_forall. intros p Hp.
    destruct (Z_le_gt_dec (len p) w) as [|Hgt]; [by left|right].
    split; [lia|]. unfold words. apply list_elem_of_filter. split; [|done].
    intros ->. unfold len in Hgt. simpl in Hgt. lia.
Qed.

(** A produced line fits, or has no space. *)
Lemma wrap_one_fits_or_word line :
  Forall (λ l, (len l ≤ w)%Z ∨ has_char sp l = false) (wrap_one w line).
Proof.
  apply wrap_one_inv.
  - intros cur word _ _ _ Hfit. left. rewrite !len_app.
    change (len " ") with 1%Z. lia.
  - auto.
  - eapply Forall_impl; [apply str_split_no_sep|]. simpl. auto.
Qed.

(** The words of the lines produced for a line are the words of the line. *)
Lemma filter_single_app (x : string) (l : list string) :
  filter (λ p, p ≠ "") [x] ++ filter (λ p, p ≠ "") l
  = filter (λ p, p ≠ "") (x :: l).
Proof. by rewrite <- filter_app. Qed.

Lemma wrap_words_words ws : ∀ out cur,
  Forall (λ p, has_char sp p = false) ws →
  concat (words <$> (foldl (wrap_word w) (out, cur) ws).1)
    ++ words (foldl (wrap_word w) (out, cur) ws).2
  = concat (words <$> out) ++ words cur ++ filter (λ p, p ≠ "") ws.
Proof.
  induction ws as [|word ws IH]; intros out cur Hws.
  - simpl foldl. simpl fst. simpl snd. by rewrite filter_nil, app_nil_r.
  - inversion Hws as [|?? Hword Hws']; subst. rewrite foldl_step.
    unfold wrap_word. destruct (decide (cur = "")) as [->|Hne].
    + rewrite IH by done. rewrite words_nil, (words_no_space _ Hword).
      by rewrite filter_single_app.
    + destruct (len cur + 1 + len word <=? w)%Z.
      * rewrite IH by done.
        change (cur +:+ " " +:+ word) with (cur +:+ String sp word).
        rewrite words_app_space, (words_no_space _ Hword).
        by rewrite <- (filter_single_app word ws), <- !app_assoc.
      * rewrite IH by done. rewrite fmap_app, concat_app.
        rewrite (words_no_space _ Hword), <- (filter_single_app word ws).
        rewrite fmap_cons, concat_cons, fmap_nil, concat_nil, app_nil_r.
        by rewrite <- !app_assoc.
Qed.

Lemma words_wrap_one line : concat (words <$> wrap_one w line) = words line.
Proof.
  rewrite wrap_one_unfold. destruct (len line <=? w)%Z.
  - simpl. by rewrite app_nil_r.
  - rewrite fmap_app, concat_app.
    pose proof (wrap_words_words (str_split sp line) [] "" (str_split_no_sep sp line)) as H.
    rewrite words_nil, fmap_nil, concat_nil in H. simpl app in H.
    fold (words line) in H. rewrite <- H. f_equal.
    unfold flush. destruct (decide (_ = "")) as [->|]; [done|].
    simpl. by rewrite app_nil_r.
Qed.

(** A line that fits, and a single word, are left as they are. *)
Lemma wrap_one_fixed l :
  (0 ≤ w)%Z → (len l ≤ w)%Z ∨ has_char sp l = false → wrap_one w l = [l].
Proof.
  intros Hw H. rewrite wrap_one_unfold.
  destruct (len l <=? w)%Z eqn:E; [done|].
  destruct H as [?|H]; [lia|]. rewrite (str_split_id _ _ H). simpl.
  unfold flush. destruct (decide (l = "")) as [->|]; [|done].
  apply Z.leb_gt in E. unfold len in E. simpl in E. lia.
Qed.
End Wrapper.

Section WrapText.
Variables (text : string) (w : Z).

Lemma wrapped_lines_no_nl :
  Forall (λ l, has_char nl l = false) (wrapped_lines_of text w).
Proof.
  rewrite wrapped_lines_of_concat. apply Forall_concat, Forall_fmap.
  eapply Forall_impl; [apply (str_split_no_sep nl)|].
  intros line Hline. by apply wrap_one_no_nl.
Qed.

Lemma wrap_text_lines :
  wrapped_lines_of text w ≠ [] →
  str_split nl (wrap_text text w) = wrapped_lines_of text w.
Proof.
  intros Hne. unfold wrap_text.
  apply str_split_join_id; [done|apply wrapped_lines_no_nl].
Qed.

Lemma wrap_text_no_lines : wrapped_lines_of text w = [] → wrap_text text w = "".
Proof. unfold wrap_text. by intros ->. Qed.

Lemma wrapped_line_origin l :
  l ∈ wrapped_lines_of text w →
  ∃ line, line ∈ str_split nl text ∧ l ∈ wrap_one w line.
Proof.
  rewrite wrapped_lines_of_concat. intros Hl.
  apply list_elem_of_In, in_concat in Hl as (ls & Hls & Hl).
  apply list_elem_of_In, list_elem_of_fmap in Hls as (line & -> & Hline).
  exists line. split; [done|]. by apply list_elem_of_In.
Qed.
End WrapText.

Lemma concat_fmap_concat {A B} (f : A → list B) (ls : list (list A)) :
  concat (f <$> concat ls) = concat ((λ x, concat (f <$> x)) <$> ls).
Proof.
  induction ls as [|x ls IH]; [done|].
  by rewrite concat_cons, fmap_app, concat_app, IH.
Qed.

Lemma wrap_one_nil w line :
  wrap_one w line = [] → (w < len line)%Z ∧ words line = [].
Proof.
  intros H. split.
  - rewrite wrap_one_unfold in H. destruct (len line <=? w)%Z eqn:E; [done|].
    by apply Z.leb_gt.
  - by rewrite <- (words_wrap_one w line), H.
Qed.

(** C3.  For every text and width [w >= 1]: a line of the wrapped text has at
    most [w] characters unless it is one of the words of an input line, longer
    than [w]; the wrapped text consists of the lines produced for each input
    line in turn; joining the lines produced for an input line with single
    spaces gives back the words of that line, in order; and so the words of
    the whole wrapped text are the words of the input, in order. *)
Theorem wrap_text_width_words (text : string) (w : Z) :
  (1 ≤ w)%Z →
  (∀ l, l ∈ str_split nl (wrap_text text w) →
        (len l ≤ w)%Z
        ∨ ((w < len l)%Z ∧ ∃ line, line ∈ str_split nl text ∧ l ∈ words line))
  ∧ wrap_text text w = str_join NL (concat (wrap_one w <$> str_split nl text))
  ∧ (∀ line, words (str_join " " (wrap_one w line)) = words line)
  ∧ concat (words <$> str_split nl (wrap_text text w))
    = concat (words <$> str_split nl text).
Proof.
  intros Hw. split; [|split; [|split]].
  - intros l Hl.
    destruct (decide (wrapped_lines_of text w = [])) as [Hnil|Hne].
    + rewrite (wrap_text_no_lines _ _ Hnil) in Hl. simpl in Hl.
      apply list_elem_of_singleton in Hl as ->. left. unfold len. simpl. lia.
    + rewrite (wrap_text_lines _ _ Hne) in Hl.
      apply wrapped_line_origin in Hl as (line & Hline & Hl).
      pose proof (wrap_one_fits w line ltac:(lia)) as Hfits.
      rewrite Forall_forall in Hfits. destruct (Hfits l Hl) as [|[??]]; eauto.
  - unfold wrap_text. by rewrite wrapped_lines_of_concat.
  - intros line. change " " with (String sp ""). by rewrite words_join, words_wrap_one.
  - assert (concat (words <$> wrapped_lines_of text w)
            = concat (words <$> str_split nl text)) as Hwords.
    { rewrite wrapped_lines_of_concat, concat_fmap_concat. f_equal.
      rewrite <- list_fmap_compose. apply list_fmap_ext.
      intros _ line _. simpl. apply words_wrap_one. }
    destruct (decide (wrapped_lines_of text w = [])) as [Hnil|Hne].
    + rewrite <- Hwords, Hnil, (wrap_text_no_lines _ _ Hnil). done.
    + by rewrite (wrap_text_lines _ _ Hne).
Qed.

Lemma wrap_text_width_words_witness :
  (∀ l, l ∈ str_split nl (wrap_text "the quick brown fox" 9) →
        (len l ≤ 9)%Z
        ∨ ((9 < len l)%Z
           ∧ ∃ line, line ∈ str_split nl "the quick brown fox" ∧ l ∈ words line))
  ∧ wrap_text "the quick brown fox" 9
    = str_join NL (concat (wrap_one 9 <$> str_split nl "the quick brown fox"))
  ∧ (∀ line, words (str_join " " (wrap_one 9 line)) = words line)
  ∧ concat (words <$> str_split nl (wrap_text "the quick brown fox" 9))
    = concat (words <$> str_split nl "the quick brown fox").
Proof. apply (wrap_text_width_words "the quick brown fox" 9). lia. Defined.

(** C9.  Wrapping is idempotent: wrapping a wrapped text again at the same
    width [w >= 1] returns it unchanged. *)
Theorem wrap_text_idempotent (text : string) (w : Z) :
  (1 ≤ w)%Z → wrap_text (wrap_text text w) w = wrap_text text w.
Proof.
  intros Hw.
  destruct (decide (wrapped_lines_of text w = [])) as [Hnil|Hne].
  - rewrite (wrap_text_no_lines _ _ Hnil). unfold wrap_text, wrapped_lines_of.
    simpl. rewrite wrap_line_acc, (wrap_one_fixed w "") by (try left; unfold len; simpl; lia).
    done.
  - unfold wrap_text at 1. unfold wrapped_lines_of at 1.
    rewrite (wrap_text_lines _ _ Hne), wrap_lines_acc. simpl.
    unfold wrap_text. f_equal.
    assert (Forall (λ l, wrap_one w l = [l]) (wrapped_lines_of text w)) as Hfix.
    { rewrite wrapped_lines_of_concat. apply Forall_concat, Forall_fmap.
      apply Forall_forall. intros line _. simpl.
      eapply Forall_impl; [apply wrap_one_fits_or_word|].
      intros l Hl. simpl in Hl. apply wrap_one_fixed; [lia|done]. }
    clear Hne. induction Hfix as [|l ls Hl _ IH]; [done|].
    by rewrite fmap_cons, concat_cons, Hl, IH.
Qed.

Lemma wrap_text_idempotent_witness :
  wrap_text (wrap_text "the quick brown fox jumps" 9) 9
  = wrap_text "the quick brown fox jumps" 9.
Proof. apply (wrap_text_idempotent "the quick brown fox jumps" 9). lia. Defined.

(** C4.  A hard line break of the input is lost when the line next to it is
    longer than the width and consists of spaces only: here the input has two
    line breaks and the wrapped text has one. *)
Theorem wrap_text_loses_line_break :
  wrap_text ("a" +:+ NL +:+ "                          " +:+ NL +:+ "b") 25
  = "a" +:+ NL +:+ "b"
  ∧ count_char nl ("a" +:+ NL +:+ "                          " +:+ NL +:+ "b") = 2
  ∧ count_char nl
      (wrap_text ("a" +:+ NL +:+ "                          " +:+ NL +:+ "b") 25) = 1.
Proof. vm_compute. done. Qed.

(** ** The layout as a sequence of calls of [place_card] *)

Section Calls.
Context `{PyStr}.

Lemma place_goals_calls gs : ∀ i y st,
  place_goals gs i y st = foldl place_call st (goal_calls gs i y).
Proof. induction gs as [|goal gs IH]; intros i y st; [done|]. simpl. by rewrite IH. Qed.

Lemma place_subjects_calls ss : ∀ i y st,
  place_subjects ss i y st = foldl place_call st (subject_calls ss i y).
Proof. induction ss as [|s ss IH]; intros i y st; [done|]. simpl. by rewrite IH. Qed.

Lemma place_hypotheses_calls hs : ∀ i y st,
  place_hypotheses hs i y st = foldl place_call st (hypothesis_calls hs i y).
Proof. induction hs as [|h hs IH]; intros i y st; [done|]. simpl. by rewrite IH. Qed.

Lemma place_tasks_calls ts : ∀ j start lay idx,
  place_tasks ts j start (lay, idx)
  = (foldl place_call lay (task_calls ts j start idx), idx + length ts).
Proof.
  induction ts as [|t ts IH]; intros j start lay idx.
  - simpl. f_equal. lia.
  - simpl. rewrite IH. f_equal. lia.
Qed.

Lemma goal_calls_keys gs : ∀ i y, call_key <$> goal_calls gs i y = goal_id <$> gs.
Proof. induction gs as [|g gs IH]; intros i y; [done|]. simpl. by rewrite IH. Qed.

Lemma subject_calls_keys ss : ∀ i y, call_key <$> subject_calls ss i y = subject_id <$> ss.
Proof. induction ss as [|g gs IH]; intros i y; [done|]. simpl. by rewrite IH. Qed.

Lemma hypothesis_calls_keys hs : ∀ i y, call_key <$> hypothesis_calls hs i y = hyp_id <$> hs.
Proof. induction hs as [|g gs IH]; intros i y; [done|]. simpl. by rewrite IH. Qed.

Lemma task_calls_keys ts : ∀ j start idx,
  call_key <$> task_calls ts j start idx = task_id <$> ts.
Proof. induction ts as [|g gs IH]; intros j s i; [done|]. simpl. by rewrite IH. Qed.

Lemma goal_calls_cards gs : ∀ i y,
  call_card <$> goal_calls gs i y = (λ k, "goal-" +:+ pretty k) <$> seq i (length gs).
Proof. induction gs as [|g gs IH]; intros i y; [done|]. simpl. by rewrite IH. Qed.

Lemma subject_calls_cards ss : ∀ i y,
  call_card <$> subject_calls ss i y
  = (λ k, "subject-" +:+ pretty k) <$> seq i (length ss).
Proof. induction ss as [|g gs IH]; intros i y; [done|]. simpl. by rewrite IH. Qed.

Lemma hypothesis_calls_cards hs : ∀ i y,
  call_card <$> hypothesis_calls hs i y
  = (λ k, "hypothesis-" +:+ pretty k) <$> seq i (length hs).
Proof. induction hs as [|g gs IH]; intros i y; [done|]. simpl. by rewrite IH. Qed.

Lemma task_calls_cards ts : ∀ j start idx,
  call_card <$> task_calls ts j start idx
  = (λ k, "task-" +:+ pretty k) <$> seq idx (length ts).
Proof. induction ts as [|g gs IH]; intros j s i; [done|]. simpl. by rewrite IH. Qed.

Lemma task_calls_length ts : ∀ j start idx, length (task_calls ts j start idx) = length ts.
Proof. induction ts as [|g gs IH]; intros j s i; [done|]. simpl. by rewrite IH. Qed.
End Calls.

(** ** What a sequence of calls does to the state *)

Section PlaceCalls.
Implicit Types (st : layout) (c : card_call) (calls : list card_call).

Lemma create_card_spec cid tid x y w h bg txt fs g :
  ∃ rect te g',
    create_card cid tid x y w h bg txt fs g = (rect, te, g')
    ∧ rect_of_call (Build_card_call "" cid tid x y w h bg txt fs) rect
    ∧ text_of_call (Build_card_call "" cid tid x y w h bg txt fs) te.
Proof.
  do 3 eexists. split; [reflexivity|]. split.
  - by repeat split.
  - repeat split. eexists. by repeat split.
Qed.

Lemma place_call_positions st c :
  positions (place_call st c) = <[call_key c := call_pos c]> (positions st).
Proof. reflexivity. Qed.

Lemma place_call_card_elements st c :
  card_elements (place_call st c)
  = <[call_card c := length (elements st)]> (card_elements st).
Proof. reflexivity. Qed.

Lemma place_call_elements st c :
  ∃ rect te,
    elements (place_call st c) = elements st ++ [rect; te]
    ∧ rect_of_call c rect ∧ text_of_call c te.
Proof.
  do 2 eexists. split; [reflexivity|]. split.
  - by repeat split.
  - repeat split. eexists. by repeat split.
Qed.

Lemma elements_calls calls : ∀ st,
  elements (foldl place_call st calls) = elements st ++ calls_elements calls (gen st).
Proof.
  induction calls as [|c calls IH]; intros st.
  - simpl. by rewrite app_nil_r.
  - rewrite foldl_step, IH. simpl. by rewrite <- app_assoc.
Qed.

Lemma calls_elements_length calls : ∀ g,
  length (calls_elements calls g) = 2 * length calls.
Proof.
  induction calls as [|c calls IH]; intros g; [done|].
  simpl. rewrite IH. lia.
Qed.

Lemma calls_elements_lookup calls : ∀ g j c,
  calls !! j = Some c →
  ∃ rect te,
    calls_elements calls g !! (2 * j) = Some rect
    ∧ calls_elements calls g !! (2 * j + 1) = Some te
    ∧ rect_of_call c rect ∧ text_of_call c te.
Proof.
  induction calls as [|c0 calls IH]; intros g j c Hj; [done|].
  destruct j as [|j].
  - simpl in Hj. injection Hj as ->. do 2 eexists.
    split; [reflexivity|]. split; [reflexivity|]. split.
    + by repeat split.
    + repeat split. eexists. by repeat split.
  - simpl in Hj. simpl calls_elements.
    replace (2 * S j) with (S (S (2 * j))) by lia.
    replace (S (S (2 * j)) + 1) with (S (S (2 * j + 1))) by lia.
    simpl. by apply IH.
Qed.

Lemma positions_calls calls : ∀ st,
  positions (foldl place_call st calls)
  = foldl (λ P c, <[call_key c := call_pos c]> P) (positions st) calls.
Proof.
  induction calls as [|c calls IH]; intros st; [done|].
  by rewrite !foldl_step, IH.
Qed.

Lemma positions_calls_is_Some calls : ∀ st k,
  is_Some (positions (foldl place_call st calls) !! k)
  ↔ is_Some (positions st !! k) ∨ k ∈ call_key <$> calls.
Proof.
  induction calls as [|c calls IH]; intros st k.
  - simpl. rewrite elem_of_nil. tauto.
  - rewrite foldl_step, IH, place_call_positions, fmap_cons, elem_of_cons.
    rewrite lookup_insert_is_Some.
    destruct (decide (call_key c = k)); intuition (subst; auto).
Qed.

Lemma positions_calls_notin calls : ∀ st k,
  k ∉ call_key <$> calls →
  positions (foldl place_call st calls) !! k = positions st !! k.
Proof.
  induction calls as [|c calls IH]; intros st k Hk; [done|].
  rewrite fmap_cons, not_elem_of_cons in Hk. destruct Hk as [Hne Hk].
  rewrite foldl_step, IH, place_call_positions by done.
  by rewrite lookup_insert_ne.
Qed.

Lemma positions_calls_last calls1 c calls2 st :
  call_key c ∉ call_key <$> calls2 →
  positions (foldl place_call st (calls1 ++ c :: calls2)) !! call_key c
  = Some (call_pos c).
Proof.
  intros Hk. rewrite foldl_app, foldl_step, positions_calls_notin by done.
  rewrite place_call_positions. apply lookup_insert_eq.
Qed.

Lemma positions_calls_value calls : ∀ st k p,
  positions (foldl place_call st calls) !! k = Some p →
  positions st !! k = Some p ∨ ∃ c, c ∈ calls ∧ call_key c = k ∧ p = call_pos c.
Proof.
  induction calls as [|c calls IH]; intros st k p Hp; [by left|].
  rewrite foldl_step in Hp. apply IH in Hp as [Hp|(c' & ? & ? & ?)].
  - rewrite place_call_positions in Hp.
    destruct (decide (call_key c = k)) as [<-|Hne].
    + rewrite lookup_insert_eq in Hp. injection Hp as <-.
      right. exists c. split; [constructor|done].
    + rewrite lookup_insert_ne in Hp by done. by left.
  - right. exists c'. split; [by constructor|done].
Qed.
End PlaceCalls.

(** ** The grouping of the tasks *)

Lemma group_task_lookup tb t k :
  default [] (group_task tb t !! k)
  = default [] (tb !! k) ++ (if decide (hypothesis_id t = k) then [t] else []).
Proof.
  unfold group_task. destruct (decide (hypothesis_id t = k)) as [<-|Hne].
  - rewrite lookup_alter_eq. destruct (tb !! hypothesis_id t) as [l|] eqn:E.
    + by rewrite E.
    + by rewrite lookup_insert_eq.
  - rewrite lookup_alter_ne by done. destruct (tb !! hypothesis_id t).
    + by rewrite app_nil_r.
    + rewrite lookup_insert_ne by done. by rewrite app_nil_r.
Qed.

Lemma foldl_group_task_lookup ts : ∀ tb k,
  default [] (foldl group_task tb ts !! k)
  = default [] (tb !! k) ++ filter (λ t, hypothesis_id t = k) ts.
Proof.
  induction ts as [|t ts IH]; intros tb k.
  - simpl. by rewrite app_nil_r.
  - rewrite foldl_step, IH, group_task_lookup, filter_cons, <- app_assoc.
    by destruct (decide (hypothesis_id t = k)).
Qed.

Lemma tasks_by_hypothesis_lookup ts k :
  default [] (tasks_by_hypothesis ts !! k) = filter (λ t, hypothesis_id t = k) ts.
Proof. unfold tasks_by_hypothesis. by rewrite foldl_group_task_lookup, lookup_empty. Qed.

(** ** The whole layout as a sequence of calls *)

Lemma place_hyp_tasks_calls tb lay idx h hyp_pos :
  positions lay !! hyp_id h = Some hyp_pos →
  place_hyp_tasks tb (lay, idx) h
  = (foldl place_call lay
       (task_calls (default [] (tb !! hyp_id h)) 0
          (task_start_y hyp_pos (length (default [] (tb !! hyp_id h)))) idx),
     idx + length (default [] (tb !! hyp_id h))).
Proof.
  intros Hpos. unfold place_hyp_tasks. simpl fst. rewrite Hpos.
  destruct (default [] (tb !! hyp_id h)) as [|t ts] eqn:E.
  - simpl. f_equal. lia.
  - by rewrite place_tasks_calls.
Qed.

Lemma task_phase_calls tb hs : ∀ lay idx,
  (∀ h, h ∈ hs → is_Some (positions lay !! hyp_id h)) →
  ∃ calls,
    foldl (place_hyp_tasks tb) (lay, idx) hs
    = (foldl place_call lay calls, idx + length calls)
    ∧ call_key <$> calls
      = task_id <$> concat ((λ h, default [] (tb !! hyp_id h)) <$> hs)
    ∧ call_card <$> calls = (λ k, "task-" +:+ pretty k) <$> seq idx (length calls).
Proof.
  induction hs as [|h hs IH]; intros lay idx Hreg.
  - exists []. simpl. split; [f_equal; lia|done].
  - destruct (Hreg h) as [hyp_pos Hpos]; [constructor|].
    rewrite foldl_step, (place_hyp_tasks_calls _ _ _ _ _ Hpos).
    set (ts := default [] (tb !! hyp_id h)).
    set (c1 := task_calls ts 0 (task_start_y hyp_pos (length ts)) idx).
    assert (length c1 = length ts) as Hlen by apply task_calls_length.
    assert (call_key <$> c1 = task_id <$> ts) as Hk1 by apply task_calls_keys.
    assert (call_card <$> c1 = (λ k, "task-" +:+ pretty k) <$> seq idx (length ts))
      as Hc1 by apply task_calls_cards.
    destruct (IH (foldl place_call lay c1) (idx + length ts)) as (c2 & Hrun & Hkeys & Hcards).
    { intros h' Hh'. apply positions_calls_is_Some. left. apply Hreg. by constructor. }
    exists (c1 ++ c2). split; [|split].
    + rewrite Hrun, foldl_app, length_app, Hlen. f_equal. lia.
    + by rewrite fmap_app, Hkeys, Hk1, fmap_cons, concat_cons, fmap_app.
    + by rewrite fmap_app, Hcards, length_app, Hc1, Hlen, seq_app, fmap_app.
Qed.

Section FullLayout.
Context `{PyStr}.
Variables (m : HypothesisMap) (title : string) (g : rng).

Lemma columns_calls : columns m title g = foldl place_call (headers title g) (column_calls m).
Proof.
  unfold columns, column_calls.
  by rewrite place_goals_calls, place_subjects_calls, place_hypotheses_calls, !foldl_app.
Qed.

Lemma headers_positions : positions (headers title g) = ∅.
Proof. reflexivity. Qed.

Lemma headers_card_elements : card_elements (headers title g) = ∅.
Proof. reflexivity. Qed.

Lemma columns_registered h :
  h ∈ hypotheses m → is_Some (positions (columns m title g) !! hyp_id h).
Proof.
  intros Hh. rewrite columns_calls. apply positions_calls_is_Some. right.
  unfold column_calls. rewrite !fmap_app, !elem_of_app. right. right.
  rewrite hypothesis_calls_keys. by apply list_elem_of_fmap_2.
Qed.

Lemma placed_tasks_groups :
  concat ((λ h, default [] (tasks_by_hypothesis (tasks m) !! hyp_id h)) <$> hypotheses m)
  = placed_tasks m.
Proof.
  unfold placed_tasks, tasks_of. f_equal. apply list_fmap_ext.
  intros _ h _. apply tasks_by_hypothesis_lookup.
Qed.

Lemma lay_out_calls :
  ∃ calls,
    lay_out m title g = foldl place_call (headers title g) calls
    ∧ call_key <$> calls = registered m
    ∧ call_card <$> calls = card_ids m.
Proof.
  destruct (task_phase_calls (tasks_by_hypothesis (tasks m)) (hypotheses m)
              (columns m title g) 0) as (tc & Hrun & Hkeys & Hcards).
  { intros h Hh. by apply columns_registered. }
  exists (column_calls m ++ tc). unfold lay_out. rewrite Hrun. simpl fst.
  rewrite columns_calls, foldl_app. split; [done|].
  rewrite placed_tasks_groups in Hkeys.
  assert (length tc = length (placed_tasks m)) as Hlen.
  { by rewrite <- (length_fmap call_key), Hkeys, length_fmap. }
  unfold column_calls, registered, card_ids. rewrite !fmap_app.
  rewrite goal_calls_keys, subject_calls_keys, hypothesis_calls_keys, Hkeys.
  rewrite goal_calls_cards, subject_calls_cards, hypothesis_calls_cards, Hcards, Hlen.
  by rewrite <- !app_assoc.
Qed.

(** The keys of the position registry are the identifiers of the goals,
    subjects and hypotheses and of the tasks that refer to a hypothesis. *)
Lemma positions_registered k :
  is_Some (positions (lay_out m title g) !! k) ↔ k ∈ registered m.
Proof.
  destruct lay_out_calls as (calls & -> & Hkeys & _).
  rewrite positions_calls_is_Some, headers_positions, lookup_empty, Hkeys.
  split; [intros [[? [=]]|?]; done|auto].
Qed.
End FullLayout.

(** ** The card identifiers are pairwise distinct *)

Lemma prefix_pretty_NoDup (p : string) (l : list nat) :
  NoDup l → NoDup ((λ k, p +:+ pretty k) <$> l).
Proof.
  apply NoDup_fmap_2. intros x y Heq.
  apply (inj (String.app p)) in Heq. by apply (inj pretty) in Heq.
Qed.

Lemma prefix_first_char c p (l : list nat) x :
  x ∈ (λ k, String c p +:+ pretty k) <$> l → first_char x = Some c.
Proof. intros (k & -> & _)%list_elem_of_fmap. reflexivity. Qed.

Lemma card_ids_NoDup m : NoDup (card_ids m).
Proof.
  unfold card_ids.
  repeat (apply NoDup_app; split; [apply prefix_pretty_NoDup, NoDup_seq|split]);
    try (apply prefix_pretty_NoDup, NoDup_seq).
  all: intros x Hx; rewrite ?not_elem_of_app; repeat split; intros Hy.
  all: apply prefix_first_char in Hx; apply prefix_first_char in Hy; congruence.
Qed.

(** ** The invariant of the layout phase *)

Lemma text_refs_app cid l1 l2 : text_refs cid (l1 ++ l2) = text_refs cid l1 + text_refs cid l2.
Proof. unfold text_refs. by rewrite filter_app, length_app. Qed.

Lemma start_refs_app cid l1 l2 :
  start_refs cid (l1 ++ l2) = start_refs cid l1 + start_refs cid l2.
Proof. unfold start_refs. by rewrite filter_app, length_app. Qed.

Lemma end_refs_app cid l1 l2 : end_refs cid (l1 ++ l2) = end_refs cid l1 + end_refs cid l2.
Proof. unfold end_refs. by rewrite filter_app, length_app. Qed.

Lemma connector_count_app l1 l2 :
  connector_count (l1 ++ l2) = connector_count l1 + connector_count l2.
Proof. unfold connector_count. by rewrite filter_app, length_app. Qed.

Lemma headers_elements title g e :
  e ∈ elements (headers title g) →
  el_type e = "text" ∧ container_of e = None
  ∧ arrow_start e = None ∧ arrow_end e = None.
Proof.
  intros [k Hk]%list_elem_of_lookup.
  destruct k as [|[|[|[|[|k]]]]]; simpl in Hk; try injection Hk as <-; done.
Qed.

Lemma layout_ok_headers title g : layout_ok (headers title g).
Proof.
  split; [split|split; [|split; [|split]]].
  - intros cid k. by rewrite headers_card_elements, lookup_empty.
  - intros k e Hk Ht. apply list_elem_of_lookup_2, headers_elements in Hk.
    destruct Hk as [Hty _]. by rewrite Hty in Ht.
  - intros e He. apply headers_elements in He as (Hty & _ & ? & ?).
    repeat split; [done..|]. by rewrite Hty.
  - intros cid. rewrite headers_card_elements, lookup_empty. reflexivity.
  - intros e He Ht. apply headers_elements in He as (Hty & _). by rewrite Hty in Ht.
  - intros k p. by rewrite headers_positions, lookup_empty.
Qed.

Lemma layout_ok_place_call st c :
  layout_ok st → card_elements st !! call_card c = None → layout_ok (place_call st c).
Proof.
  intros ([Hce1 Hce2] & Hna & Hone & Hb & Hpos) Hfresh.
  destruct (place_call_elements st c)
    as (rect & te & Hels & (Hid & Hty & _ & _ & _ & _ & Hbe & Hex)
                          & (_ & Htty & _ & tf & Htex & Hcont & _)).
  unfold layout_ok. rewrite Hels, place_call_card_elements, place_call_positions.
  split; [split|split; [|split; [|split]]].
  - intros cid k Hk. destruct (decide (call_card c = cid)) as [<-|Hne].
    + rewrite lookup_insert_eq in Hk. injection Hk as <-. exists rect.
      split; [|done]. by rewrite lookup_app_r, Nat.sub_diag by lia.
    + rewrite lookup_insert_ne in Hk by done.
      destruct (Hce1 cid k Hk) as (e & He & ?). exists e. split; [|done].
      by apply lookup_app_l_Some.
  - intros k e Hk Hrect. apply lookup_app_Some in Hk as [Hk|[Hge Hk]].
    + pose proof (Hce2 k e Hk Hrect) as Hreg.
      rewrite lookup_insert_ne; [done|]. intros Heq. by rewrite Heq, Hreg in Hfresh.
    + destruct (k - length (elements st)) as [|[|k']] eqn:Ek; simpl in Hk.
      * injection Hk as <-. rewrite Hid, lookup_insert_eq. f_equal. lia.
      * injection Hk as <-. by rewrite Htty in Hrect.
      * done.
  - intros e He. apply elem_of_app in He as [He|He]; [by apply Hna|].
    apply elem_of_cons in He as [->|He].
    { unfold arrow_start, arrow_end. rewrite Hex, Hty. done. }
    apply list_elem_of_singleton in He as ->.
    unfold arrow_start, arrow_end. rewrite Htex, Htty. done.
  - intros cid.
    assert (container_of rect = None) as Hcr by (unfold container_of; by rewrite Hex).
    assert (container_of te = Some (call_card c)) as Hct
      by (unfold container_of; by rewrite Htex).
    rewrite text_refs_app, Hone. unfold text_refs. rewrite !filter_cons, filter_nil.
    destruct (decide (container_of rect = Some cid)) as [Heq|_]; [congruence|].
    destruct (decide (container_of te = Some cid)) as [Heq|Hne].
    + rewrite Hct in Heq. injection Heq as <-. by rewrite lookup_insert_eq, Hfresh.
    + rewrite lookup_insert_ne; [simpl; lia|]. intros <-. by apply Hne.
  - intros e He Hrect. apply elem_of_app in He as [He|He]; [by apply Hb|].
    apply elem_of_cons in He as [->|He]; [by rewrite Hbe|].
    apply list_elem_of_singleton in He as ->. by rewrite Htty in Hrect.
  - intros k p Hp. apply lookup_insert_is_Some'.
    destruct (decide (call_key c = k)) as [<-|Hne].
    + rewrite lookup_insert_eq in Hp. injection Hp as <-. by left.
    + rewrite lookup_insert_ne in Hp by done. right. by eapply Hpos.
Qed.

Lemma card_elements_calls_None calls : ∀ st cid,
  card_elements st !! cid = None → cid ∉ call_card <$> calls →
  card_elements (foldl place_call st calls) !! cid = None.
Proof.
  induction calls as [|c calls IH]; intros st cid Hnone Hnotin; [done|].
  rewrite fmap_cons, not_elem_of_cons in Hnotin. destruct Hnotin as [Hne Hnotin].
  rewrite foldl_step. apply IH; [|done].
  rewrite place_call_card_elements. by rewrite lookup_insert_ne.
Qed.

Lemma layout_ok_calls calls : ∀ st,
  layout_ok st → NoDup (call_card <$> calls) →
  (∀ cid, cid ∈ call_card <$> calls → card_elements st !! cid = None) →
  layout_ok (foldl place_call st calls).
Proof.
  induction calls as [|c calls IH]; intros st Hok Hnd Hfresh; [done|].
  rewrite fmap_cons in Hnd, Hfresh. apply NoDup_cons in Hnd as [Hc Hnd].
  rewrite foldl_step. apply IH; [|done|].
  - apply layout_ok_place_call; [done|]. apply Hfresh. constructor.
  - intros cid Hcid. rewrite place_call_card_elements, lookup_insert_ne.
    + apply Hfresh. by constructor.
    + by intros <-.
Qed.

Lemma layout_ok_lay_out `{PyStr} m title g : layout_ok (lay_out m title g).
Proof.
  destruct (lay_out_calls m title g) as (calls & -> & _ & Hcards).
  apply layout_ok_calls.
  - apply layout_ok_headers.
  - rewrite Hcards. apply card_ids_NoDup.
  - intros cid _. by rewrite headers_card_elements, lookup_empty.
Qed.

(** ** The arrow phase *)

Lemma bind_map_type cid aid e : el_type (bind_map cid aid e) = el_type e.
Proof. unfold bind_map. by destruct (decide _). Qed.

Lemma bind_map_id cid aid e : el_id (bind_map cid aid e) = el_id e.
Proof. unfold bind_map. by destruct (decide _). Qed.

Lemma bind_map_extra cid aid e : extra (bind_map cid aid e) = extra e.
Proof. unfold bind_map. by destruct (decide _). Qed.

Lemma bind_map_bound cid aid e :
  el_type e = "rectangle" →
  length (boundElements (bind_map cid aid e))
  = length (boundElements e) + (if decide (el_id e = cid) then 1 else 0).
Proof.
  intros Hrect. unfold bind_map.
  destruct (decide (el_type e = "rectangle" ∧ el_id e = cid)) as [[_ Heq]|Hne].
  - destruct (decide (el_id e = cid)); [|done]. simpl. rewrite length_app. simpl. lia.
  - destruct (decide (el_id e = cid)); [|lia]. by destruct Hne.
Qed.

Lemma cards_ok_fmap ce l (f : element → element) :
  (∀ e, el_type (f e) = el_type e) → (∀ e, el_id (f e) = el_id e) →
  cards_ok ce l → cards_ok ce (f <$> l).
Proof.
  intros Hty Hid [H1 H2]. split.
  - intros cid k Hk. destruct (H1 cid k Hk) as (e & He & ? & ?).
    exists (f e). rewrite list_lookup_fmap, He, Hty, Hid. done.
  - intros k e' Hk Hrect. rewrite list_lookup_fmap in Hk.
    destruct (l !! k) as [e|] eqn:He; [|done]. injection Hk as <-.
    rewrite Hid. rewrite Hty in Hrect. by apply H2.
Qed.

(** Under the invariant, the mutation in place of the rectangle registered
    under [card_id] is a map over the elements. *)
Lemma add_arrow_binding_map ce l cid aid :
  cards_ok ce l → add_arrow_binding ce cid aid l = bind_map cid aid <$> l.
Proof.
  intros [H1 H2]. unfold add_arrow_binding. apply list_eq. intros i.
  rewrite list_lookup_fmap. destruct (ce !! cid) as [k|] eqn:Hk.
  - destruct (H1 cid k Hk) as (e & He & Hty & Hid).
    destruct (decide (k = i)) as [<-|Hne].
    + rewrite list_lookup_alter_eq, He. simpl. f_equal. unfold bind_map.
      by destruct (decide _) as [|[]].
    + rewrite list_lookup_alter_ne by done.
      destruct (l !! i) as [e'|] eqn:He'; [|done]. simpl. f_equal.
      unfold bind_map. destruct (decide _) as [[Hty' Hid']|]; [|done].
      pose proof (H2 i e' He' Hty') as Hreg. rewrite Hid', Hk in Hreg.
      by injection Hreg.
  - destruct (l !! i) as [e'|] eqn:He'; [|done]. simpl. f_equal.
    unfold bind_map. destruct (decide _) as [[Hty' Hid']|]; [|done].
    pose proof (H2 i e' He' Hty') as Hreg. by rewrite Hid', Hk in Hreg.
Qed.

Lemma connect_call_arrow ce st c :
  ∃ arrow,
    arrows (connect_call ce st c) = arrows st ++ [arrow]
    ∧ arrow_of_call c arrow
    ∧ el_id arrow = "arrow-" +:+ pretty (arrow_idx st).
Proof. eexists. split; [reflexivity|]. by repeat split. Qed.

Lemma connect_call_idx ce st c : arrow_idx (connect_call ce st c) = S (arrow_idx st).
Proof. reflexivity. Qed.

Lemma connect_call_els ce st c :
  cards_ok ce (els st) →
  els (connect_call ce st c)
  = bind_map (pos_card (to_pos c)) ("arrow-" +:+ pretty (arrow_idx st))
    <$> (bind_map (pos_card (from_pos c)) ("arrow-" +:+ pretty (arrow_idx st))
         <$> els st).
Proof.
  intros Hok. change (els (connect_call ce st c))
    with (add_arrow_binding ce (pos_card (to_pos c)) ("arrow-" +:+ pretty (arrow_idx st))
            (add_arrow_binding ce (pos_card (from_pos c))
               ("arrow-" +:+ pretty (arrow_idx st)) (els st))).
  rewrite (add_arrow_binding_map ce (els st)) by done.
  rewrite add_arrow_binding_map; [done|].
  apply cards_ok_fmap; [apply bind_map_type|apply bind_map_id|done].
Qed.

Lemma text_refs_fmap cid l (f : element → element) :
  (∀ e, extra (f e) = extra e) → text_refs cid (f <$> l) = text_refs cid l.
Proof.
  intros Hex.
  assert (∀ e, container_of (f e) = container_of e) as Hc
    by (intros e; unfold container_of; by rewrite Hex).
  unfold text_refs. induction l as [|e l IH]; [done|].
  rewrite fmap_cons, !filter_cons.
  destruct (decide (container_of (f e) = Some cid)) as [H1|H1],
           (decide (container_of e = Some cid)) as [H2|H2];
    simpl; rewrite ?IH; try done; rewrite Hc in H1; done.
Qed.

Lemma start_refs_single cid a :
  start_refs cid [a] = if decide (arrow_start a = Some cid) then 1 else 0.
Proof. unfold start_refs. rewrite filter_cons, filter_nil. by destruct (decide _). Qed.

Lemma end_refs_single cid a :
  end_refs cid [a] = if decide (arrow_end a = Some cid) then 1 else 0.
Proof. unfold end_refs. rewrite filter_cons, filter_nil. by destruct (decide _). Qed.

Lemma binder_ok_connect ce st c : binder_ok ce st → binder_ok ce (connect_call ce st c).
Proof.
  intros (Hce & Hna & Hone & Hlen & Harr).
  destruct (connect_call_arrow ce st c) as (arrow & Harrows & Hcall & _).
  destruct Hcall as (Hty & Hstart & Hend & Hcont & _).
  unfold binder_ok. rewrite Harrows, connect_call_els by done.
  split; [|split; [|split; [|split]]].
  - do 2 (apply cards_ok_fmap; [apply bind_map_type|apply bind_map_id|]). done.
  - intros e' (e1 & -> & (e & -> & He)%list_elem_of_fmap)%list_elem_of_fmap.
    unfold arrow_start, arrow_end. rewrite !bind_map_extra, !bind_map_type.
    by apply Hna.
  - intros cid. rewrite !text_refs_fmap by apply bind_map_extra. apply Hone.
  - intros e' (e1 & -> & (e & -> & He)%list_elem_of_fmap)%list_elem_of_fmap.
    rewrite !bind_map_type, !bind_map_id. intros Hrect.
    rewrite !bind_map_bound by (by rewrite ?bind_map_type).
    rewrite bind_map_id, start_refs_app, end_refs_app, start_refs_single, end_refs_single.
    rewrite Hstart, Hend, (Hlen e He Hrect).
    repeat case_decide; try lia; congruence.
  - intros a [Ha| ->%list_elem_of_singleton]%elem_of_app; [by apply Harr|].
    by rewrite Hty, Hcont, Hstart, Hend.
Qed.

Lemma binder_ok_calls ce calls : ∀ st,
  binder_ok ce st → binder_ok ce (foldl (connect_call ce) st calls).
Proof.
  induction calls as [|c calls IH]; intros st Hok; [done|].
  rewrite foldl_step. by apply IH, binder_ok_connect.
Qed.

Lemma connect_calls_arrows ce calls : ∀ st,
  ∃ new,
    arrows (foldl (connect_call ce) st calls) = arrows st ++ new
    ∧ Forall2 arrow_of_call calls new.
Proof.
  induction calls as [|c calls IH]; intros st.
  - exists []. simpl. by rewrite app_nil_r.
  - rewrite foldl_step. destruct (IH (connect_call ce st c)) as (new & Hnew & Hall).
    destruct (connect_call_arrow ce st c) as (arrow & Harrows & Hcall & _).
    exists (arrow :: new). rewrite Hnew, Harrows, <- app_assoc. split; [done|].
    by constructor.
Qed.

Lemma foldl_from_option {A S C} (call : A → option C) (step : S → C → S) l : ∀ st,
  foldl (λ st a, from_option (step st) st (call a)) st l = foldl step st (omap call l).
Proof.
  induction l as [|a l IH]; intros st; [done|].
  rewrite foldl_step, IH. simpl. by destruct (call a).
Qed.

Lemma foldl_ext_eq {A S} (f f' : S → A → S) l :
  (∀ st a, f st a = f' st a) → ∀ st, foldl f st l = foldl f' st l.
Proof.
  intros Hext. induction l as [|a l IH]; intros st; [done|].
  by rewrite !foldl_step, Hext, IH.
Qed.

Lemma hypothesis_subject_arrow_call P ce st hyp :
  hypothesis_subject_arrow P ce st hyp
  = from_option (connect_call ce st) st (hyp_arrow_call P hyp).
Proof.
  unfold hypothesis_subject_arrow, hyp_arrow_call.
  destruct (hyp_subject_id hyp) as [sid|]; [|done]. simpl.
  destruct (decide (sid = "")); [done|].
  destruct (P !! sid) as [s_pos|]; [|done]. simpl.
  by destruct (P !! hyp_id hyp).
Qed.

Lemma task_hypothesis_arrow_call P ce st task :
  task_hypothesis_arrow P ce st task
  = from_option (connect_call ce st) st (task_arrow_call P task).
Proof.
  unfold task_hypothesis_arrow, task_arrow_call.
  destruct (P !! hypothesis_id task) as [h_pos|]; [|done]. simpl.
  by destruct (P !! task_id task).
Qed.

Lemma subject_goal_arrow_call m P ce st subject :
  (∀ goal0, head (goals m) = Some goal0 → is_Some (P !! goal_id goal0)) →
  subject_goal_arrow m P ce st subject
  = Some (from_option (connect_call ce st) st (subject_arrow_call m P subject)).
Proof.
  intros Hgoal. unfold subject_goal_arrow, subject_arrow_call.
  destruct (goals m) as [|goal0 gs]; [done|].
  destruct (Hgoal goal0) as [g_pos Hg]; [done|]. rewrite Hg.
  by destruct (P !! subject_id subject).
Qed.

Lemma for_each_subjects m P ce ss : ∀ st,
  (∀ goal0, head (goals m) = Some goal0 → is_Some (P !! goal_id goal0)) →
  for_each (subject_goal_arrow m P ce) st ss
  = Some (foldl (connect_call ce) st (omap (subject_arrow_call m P) ss)).
Proof.
  intros st Hgoal. rewrite <- foldl_from_option. revert st.
  induction ss as [|s ss IH]; intros st; [done|].
  simpl. rewrite subject_goal_arrow_call by done. simpl. apply IH.
Qed.

Section Conversion.
Context `{PyStr}.
Variables (m : HypothesisMap) (title : string) (g : rng).

Lemma goal0_registered goal0 :
  head (goals m) = Some goal0 →
  is_Some (positions (lay_out m title g) !! goal_id goal0).
Proof.
  intros Hhead. apply positions_registered. unfold registered.
  apply elem_of_app. left. destruct (goals m) as [|g0 gs]; [done|].
  injection Hhead as ->. rewrite fmap_cons. constructor.
Qed.

Lemma bind_arrows_final : bind_arrows m (lay_out m title g) = Some (final_binder m title g).
Proof.
  unfold bind_arrows, final_binder, arrow_calls.
  rewrite for_each_subjects by apply goal0_registered. simpl. f_equal.
  rewrite !foldl_app.
  rewrite (foldl_ext_eq _ _ _ (hypothesis_subject_arrow_call _ _)), foldl_from_option.
  by rewrite (foldl_ext_eq _ _ _ (task_hypothesis_arrow_call _ _)), foldl_from_option.
Qed.

(** The conversion never raises. *)
Lemma convert_elements :
  ∃ doc, convert_to_excalidraw m title g = Some doc
         ∧ doc_elements doc = els (final_binder m title g) ++ arrows (final_binder m title g).
Proof.
  unfold convert_to_excalidraw. rewrite bind_arrows_final. simpl. eauto.
Qed.

Lemma binder_ok_initial :
  binder_ok (card_elements (lay_out m title g)) (initial_binder (lay_out m title g)).
Proof.
  destruct (layout_ok_lay_out m title g) as (Hce & Hna & Hone & Hb & _).
  split; [done|split; [done|split; [done|split]]].
  - intros e He Hrect. simpl. by rewrite (Hb e He Hrect).
  - intros a Ha. by apply elem_of_nil in Ha.
Qed.

Lemma binder_ok_final :
  binder_ok (card_elements (lay_out m title g)) (final_binder m title g).
Proof. apply binder_ok_calls, binder_ok_initial. Qed.

Lemma final_arrows :
  Forall2 arrow_of_call (arrow_calls m (positions (lay_out m title g)))
          (arrows (final_binder m title g)).
Proof.
  destruct (connect_calls_arrows (card_elements (lay_out m title g))
              (arrow_calls m (positions (lay_out m title g)))
              (initial_binder (lay_out m title g))) as (new & Hnew & Hall).
  unfold final_binder. by rewrite Hnew.
Qed.
End Conversion.

(** ** Counting *)

Lemma omap_length_filter {A C} (f : A → option C) (b : A → bool) (l : list A) :
  (∀ x, x ∈ l → is_Some (f x) ↔ b x = true) →
  length (omap f l) = length (List.filter b l).
Proof.
  induction l as [|x l IH]; intros Hb; [done|]. simpl.
  assert (is_Some (f x) ↔ b x = true) as Hx by (apply Hb; constructor).
  assert (length (omap f l) = length (List.filter b l)) as IH'
    by (apply IH; intros y Hy; apply Hb; by constructor).
  destruct (f x) as [c|], (b x); simpl;
    change (list_omap A C f l) with (omap f l); rewrite ?IH'; try done.
  - destruct Hx as [Hx _]. by specialize (Hx ltac:(eauto)).
  - destruct Hx as [_ Hx]. by destruct (Hx eq_refl).
Qed.

Lemma omap_Forall2_filter {A C} (f : A → option C) (b : A → bool) (l : list A) :
  (∀ x, x ∈ l → is_Some (f x) ↔ b x = true) →
  Forall2 (λ x c, f x = Some c) (List.filter b l) (omap f l).
Proof.
  induction l as [|x l IH]; intros Hb; [constructor|]. simpl.
  assert (is_Some (f x) ↔ b x = true) as Hx by (apply Hb; constructor).
  assert (Forall2 (λ x c, f x = Some c) (List.filter b l) (omap f l)) as IH'
    by (apply IH; intros y Hy; apply Hb; by constructor).
  destruct (f x) as [c|] eqn:E, (b x); simpl;
    change (list_omap A C f l) with (omap f l); try done.
  - by constructor.
  - destruct Hx as [Hx _]. by specialize (Hx ltac:(eauto)).
  - destruct Hx as [_ Hx]. by destruct (Hx eq_refl).
Qed.

Lemma Forall2_compose {A B C} (P : A → B → Prop) (Q : B → C → Prop) l1 l2 l3 :
  Forall2 P l1 l2 → Forall2 Q l2 l3 → Forall2 (λ x z, ∃ y, P x y ∧ Q y z) l1 l3.
Proof.
  intros H12. revert l3. induction H12 as [|x y l1 l2 Hxy _ IH]; intros l3 H23.
  - inversion H23. constructor.
  - inversion H23 as [|? z ? l3' Hyz H23']; subst. constructor; eauto.
Qed.

Lemma refs_sum cid l :
  referrers cid l + self_loops cid l
  = text_refs cid l + start_refs cid l + end_refs cid l.
Proof.
  unfold referrers, self_loops, text_refs, start_refs, end_refs.
  induction l as [|e l IH]; [done|]. rewrite !filter_cons.
  assert (container_of e = Some cid → arrow_start e = None ∧ arrow_end e = None) as Hex.
  { unfold container_of, arrow_start, arrow_end. by destruct (extra e). }
  repeat case_decide; simpl; try lia; exfalso; intuition congruence.
Qed.

Lemma connector_count_no_arrows l : no_arrows l → connector_count l = 0.
Proof.
  intros Hna. unfold connector_count. induction l as [|e l IH]; [done|].
  rewrite filter_cons. destruct (decide (el_type e = "arrow")) as [Hty|_].
  - destruct (Hna e) as (_ & _ & Hne); [constructor|done].
  - apply IH. intros e' He'. apply Hna. by constructor.
Qed.

Lemma start_end_refs_no_arrows cid l :
  no_arrows l → start_refs cid l = 0 ∧ end_refs cid l = 0.
Proof.
  intros Hna. unfold start_refs, end_refs. induction l as [|e l IH]; [done|].
  rewrite !filter_cons. destruct (Hna e) as (Hs & He & _); [constructor|].
  rewrite Hs, He. repeat case_decide; try done.
  apply IH. intros e' He'. apply Hna. by constructor.
Qed.

Lemma connector_count_arrows l :
  (∀ a, a ∈ l → el_type a = "arrow") → connector_count l = length l.
Proof.
  intros Hall. unfold connector_count. induction l as [|e l IH]; [done|].
  rewrite filter_cons. destruct (decide (el_type e = "arrow")) as [_|Hne].
  - simpl. f_equal. apply IH. intros a Ha. apply Hall. by constructor.
  - destruct Hne. apply Hall. constructor.
Qed.

Lemma text_refs_arrows cid l :
  (∀ a, a ∈ l → container_of a = None) → text_refs cid l = 0.
Proof.
  intros Hall. unfold text_refs. induction l as [|e l IH]; [done|].
  rewrite filter_cons. rewrite (Hall e) by constructor. case_decide; [done|].
  apply IH. intros a Ha. apply Hall. by constructor.
Qed.

(** ** Which entities get an arrow *)

Section Families.
Context `{PyStr}.
Variables (m : HypothesisMap) (title : string) (g : rng).

Lemma registered_goal goal : goal ∈ goals m → goal_id goal ∈ registered m.
Proof. intros Hg. unfold registered. rewrite !elem_of_app. left. by apply list_elem_of_fmap_2. Qed.

Lemma registered_subject s : s ∈ subjects m → subject_id s ∈ registered m.
Proof.
  intros Hs. unfold registered. rewrite !elem_of_app. right. left.
  by apply list_elem_of_fmap_2.
Qed.

Lemma registered_hypothesis h : h ∈ hypotheses m → hyp_id h ∈ registered m.
Proof.
  intros Hh. unfold registered. rewrite !elem_of_app. right. right. left.
  by apply list_elem_of_fmap_2.
Qed.

Lemma subject_arrow_call_Some s :
  s ∈ subjects m →
  is_Some (subject_arrow_call m (positions (lay_out m title g)) s) ↔ (if goals m is [] then false else true) = true.
Proof.
  intros Hs. unfold subject_arrow_call.
  destruct (goals m) as [|goal0 gs] eqn:Hg.
  - split; [by intros [? ?]|done].
  - destruct (proj2 (positions_registered m title g (subject_id s))) as [s_pos ->].
    { by apply registered_subject. }
    destruct (proj2 (positions_registered m title g (goal_id goal0))) as [g_pos ->].
    { apply registered_goal. rewrite Hg. constructor. }
    simpl. split; [done|eauto].
Qed.

Lemma hyp_arrow_call_Some h :
  h ∈ hypotheses m → is_Some (hyp_arrow_call (positions (lay_out m title g)) h) ↔ hyp_resolves m h = true.
Proof.
  intros Hh. unfold hyp_arrow_call, hyp_resolves.
  destruct (hyp_subject_id h) as [sid|]; simpl; [|split; [by intros [? ?]|done]].
  rewrite bool_decide_eq_true.
  destruct (proj2 (positions_registered m title g (hyp_id h))) as [h_pos Hh_pos].
  { by apply registered_hypothesis. }
  rewrite Hh_pos. destruct (decide (sid = "")) as [->|Hne].
  { split; [by intros [? ?]|by intros [? _]]. }
  rewrite <- (positions_registered m title g sid).
  destruct ((positions (lay_out m title g)) !! sid) as [s_pos|]; simpl.
  - split; [eauto|eauto].
  - split; [by intros [? ?]|by intros [_ [? ?]]].
Qed.

Lemma task_arrow_call_Some t :
  is_Some (task_arrow_call (positions (lay_out m title g)) t) ↔ task_linked m t = true.
Proof.
  unfold task_arrow_call, task_linked. rewrite bool_decide_eq_true.
  rewrite <- !(positions_registered m title g).
  destruct ((positions (lay_out m title g)) !! hypothesis_id t) as [h_pos|]; simpl.
  - destruct ((positions (lay_out m title g)) !! task_id t) as [t_pos|]; simpl.
    + split; eauto.
    + split; [by intros [? ?]|by intros [_ [? ?]]].
  - split; [by intros [? ?]|by intros [[? ?] _]].
Qed.

Lemma subject_arrows_length :
  length (omap (subject_arrow_call m (positions (lay_out m title g))) (subjects m))
  = if goals m is [] then 0 else length (subjects m).
Proof.
  rewrite (omap_length_filter _ (λ _, if goals m is [] then false else true))
    by apply subject_arrow_call_Some.
  destruct (goals m); induction (subjects m) as [|s ss IH]; simpl; auto.
Qed.

Lemma hyp_arrows_length :
  length (omap (hyp_arrow_call (positions (lay_out m title g))) (hypotheses m))
  = length (List.filter (hyp_resolves m) (hypotheses m)).
Proof. apply omap_length_filter, hyp_arrow_call_Some. Qed.

Lemma task_arrows_length :
  length (omap (task_arrow_call (positions (lay_out m title g))) (tasks m))
  = length (List.filter (task_linked m) (tasks m)).
Proof. apply omap_length_filter. intros t _. apply task_arrow_call_Some. Qed.
End Families.

(** ** The connectors of a document *)

Section Connectors.
Context `{PyStr}.
Variables (m : HypothesisMap) (title : string) (g : rng).

Lemma final_no_arrows : no_arrows (els (final_binder m title g)).
Proof. by destruct (binder_ok_final m title g) as (_ & ? & _). Qed.

Lemma final_arrow_types a :
  a ∈ arrows (final_binder m title g) → el_type a = "arrow" ∧ container_of a = None.
Proof.
  destruct (binder_ok_final m title g) as (_ & _ & _ & _ & Harr).
  intros Ha. destruct (Harr a Ha) as (? & ? & _). done.
Qed.

Lemma final_connector_count :
  connector_count (els (final_binder m title g) ++ arrows (final_binder m title g))
  = length (arrow_calls m (positions (lay_out m title g))).
Proof.
  rewrite connector_count_app, (connector_count_no_arrows _ final_no_arrows).
  rewrite connector_count_arrows by (intros a Ha; by apply final_arrow_types).
  symmetry. apply (Forall2_length _ _ _ (final_arrows m title g)).
Qed.
End Connectors.

(** A task that refers to a hypothesis of the map gets its connector. *)
Lemma task_linked_placed (m : HypothesisMap) (t : Task) :
  t ∈ tasks m → hypothesis_id t ∈ hyp_id <$> hypotheses m → task_linked m t = true.
Proof.
  intros Ht (h & Hid & Hh)%list_elem_of_fmap. unfold task_linked.
  apply bool_decide_eq_true. unfold registered. rewrite !elem_of_app. split.
  - right. right. left. rewrite Hid. by apply list_elem_of_fmap_2.
  - right. right. right. apply list_elem_of_fmap_2.
    unfold placed_tasks. apply list_elem_of_In, in_concat.
    exists (tasks_of m h). split.
    + apply list_elem_of_In. by apply list_elem_of_fmap_2.
    + apply list_elem_of_In. unfold tasks_of. by apply list_elem_of_filter.
Qed.

(** C1, amended.  The conversion returns a document, whose number of
    connectors is: the number of subjects if the map has a goal, else 0; plus
    the number of hypotheses whose [subject_id] is set, not empty and a key of
    the position registry; plus the number of tasks whose [hypothesis_id] and
    whose own [id] are both keys of the position registry.  The keys of the
    registry are the identifiers of the goals, the subjects, the hypotheses
    and the tasks that refer to a hypothesis of the map.  So every task that
    refers to a hypothesis of the map is counted, and a task whose
    [hypothesis_id] is no key of the registry is not. *)
Theorem connector_count_registered `{PyStr} (m : HypothesisMap) (title : string) (g : rng) :
  ∃ doc,
    convert_to_excalidraw m title g = Some doc
    ∧ connector_count (doc_elements doc)
      = (if goals m is [] then 0 else length (subjects m))
        + length (List.filter (hyp_resolves m) (hypotheses m))
        + length (List.filter (task_linked m) (tasks m))
    ∧ (∀ k, is_Some (positions (lay_out m title g) !! k) ↔ k ∈ registered m)
    ∧ (∀ k, k ∈ registered m ↔
            k ∈ goal_id <$> goals m ∨ k ∈ subject_id <$> subjects m
            ∨ k ∈ hyp_id <$> hypotheses m
            ∨ ∃ t, t ∈ tasks m ∧ task_id t = k
                   ∧ hypothesis_id t ∈ hyp_id <$> hypotheses m)
    ∧ (∀ t, t ∈ tasks m → hypothesis_id t ∈ hyp_id <$> hypotheses m →
            task_linked m t = true)
    ∧ (∀ t, hypothesis_id t ∉ registered m → task_linked m t = false).
Proof.
  destruct (convert_elements m title g) as (doc & Hdoc & Hels).
  exists doc. split; [done|]. split; [|split; [apply positions_registered|split; [|split]]].
  - rewrite Hels, final_connector_count. unfold arrow_calls.
    rewrite !length_app, subject_arrows_length, hyp_arrows_length, task_arrows_length.
    lia.
  - intros k. unfold registered. rewrite !elem_of_app.
    assert (k ∈ task_id <$> placed_tasks m
            ↔ ∃ t, t ∈ tasks m ∧ task_id t = k
                   ∧ hypothesis_id t ∈ hyp_id <$> hypotheses m) as ->; [|tauto].
    rewrite list_elem_of_fmap. unfold placed_tasks. split.
    + intros (t & -> & Ht). exists t.
      apply list_elem_of_In, in_concat in Ht as (ts & Hts & Ht).
      apply list_elem_of_In, list_elem_of_fmap in Hts as (h & -> & Hh).
      apply list_elem_of_In, list_elem_of_filter in Ht as [Heq Ht].
      split; [done|]. split; [done|]. rewrite Heq. by apply list_elem_of_fmap_2.
    + intros (t & Ht & <- & (h & Heq & Hh)%list_elem_of_fmap).
      exists t. split; [done|]. apply list_elem_of_In, in_concat.
      exists (tasks_of m h). split.
      * apply list_elem_of_In. by apply list_elem_of_fmap_2.
      * apply list_elem_of_In. unfold tasks_of. by apply list_elem_of_filter.
  - intros t Ht Hh. by apply task_linked_placed.
  - intros t Hnot. unfold task_linked. apply bool_decide_eq_false. tauto.
Qed.

(** C1, as claimed, fails: a map whose only entity is a task that refers to a
    hypothesis absent from the map converts to a document with no connector,
    where the claimed count is 1. *)
Lemma connector_count_orphan_task :
  connector_count ∘ doc_elements
    <$> @convert_to_excalidraw ascii_py orphan_task_map "" rng0 = Some 0
  ∧ claimed_connector_count orphan_task_map = 1.
Proof. vm_compute. done. Qed.

(** C2, amended.  The connectors of the hypotheses form a segment of the
    document: one connector for each hypothesis with a resolvable subject
    reference, in order, from the card registered for the hypothesis to the
    card registered for its subject, with the colour of the priority and with
    stroke width 4 for HIGH, 3 for MEDIUM and 2 for LOW and NONE. *)
Theorem hypothesis_connector_stroke `{PyStr} (m : HypothesisMap) (title : string) (g : rng) :
  ∃ doc before hyp_arrows after,
    convert_to_excalidraw m title g = Some doc
    ∧ doc_elements doc = before ++ hyp_arrows ++ after
    ∧ connector_count before = (if goals m is [] then 0 else length (subjects m))
    ∧ connector_count after = length (List.filter (task_linked m) (tasks m))
    ∧ Forall2 (hyp_connector (positions (lay_out m title g)))
              (List.filter (hyp_resolves m) (hypotheses m)) hyp_arrows.
Proof.
  destruct (convert_elements m title g) as (doc & Hdoc & Hels).
  pose proof (final_arrows m title g) as Harr. unfold arrow_calls in Harr.
  apply Forall2_app_inv_l in Harr as (a1 & a23 & H1 & H23 & Heq).
  apply Forall2_app_inv_l in H23 as (a2 & a3 & H2 & H3 & ->).
  assert (∀ a, a ∈ a1 ++ a2 ++ a3 → el_type a = "arrow") as Hty.
  { intros a Ha. rewrite <- Heq in Ha. by apply (final_arrow_types m title g). }
  exists doc, (els (final_binder m title g) ++ a1), a2, a3.
  split; [done|]. split; [by rewrite Hels, Heq, <- app_assoc|]. split; [|split].
  - rewrite connector_count_app, (connector_count_no_arrows _ (final_no_arrows m title g)).
    rewrite connector_count_arrows by (intros a Ha; apply Hty; rewrite elem_of_app; auto).
    rewrite <- (Forall2_length _ _ _ H1). apply subject_arrows_length.
  - rewrite connector_count_arrows
      by (intros a Ha; apply Hty; rewrite !elem_of_app; auto).
    rewrite <- (Forall2_length _ _ _ H3). apply task_arrows_length.
  - pose proof (omap_Forall2_filter _ _ _ (hyp_arrow_call_Some m title g)) as Hf.
    eapply Forall2_impl; [apply (Forall2_compose _ _ _ _ _ Hf H2)|].
    intros h a (c & Hc & Hty' & Hstart & Hend & _ & Hcol & Hw). simpl in Hc.
    unfold hyp_arrow_call in Hc.
    destruct (hyp_subject_id h) as [sid|] eqn:Hsid; [|done]. simpl in Hc.
    destruct (decide (sid = "")); [done|].
    destruct (positions (lay_out m title g) !! sid) as [s_pos|] eqn:Hs; [|done].
    simpl in Hc.
    destruct (positions (lay_out m title g) !! hyp_id h) as [h_pos|] eqn:Hh; [|done].
    simpl in Hc. injection Hc as <-. simpl in *.
    exists sid, s_pos, h_pos. rewrite Hcol, Hw. by repeat split.
Qed.

(** C2, as claimed, fails: the connector of a hypothesis of MEDIUM priority
    has stroke width 3, not 2. *)
Lemma medium_connector_stroke :
  (λ doc, (λ e, (el_type e, arrow_start e, arrow_end e, strokeWidth e))
            <$> doc_elements doc !! 9)
    <$> @convert_to_excalidraw ascii_py medium_map "" rng0
  = Some (Some ("arrow", Some "hypothesis-0", Some "subject-0", 3%Z)).
Proof. vm_compute. done. Qed.

(** C5, amended.  In the document, the bound list of every rectangle has one
    entry for its one bound text, one for each arrow that starts from the
    rectangle and one for each arrow that ends at it.  An arrow that starts
    from and ends at the same rectangle has two entries, so the length is
    the number of elements that refer to the rectangle plus the number of
    such arrows. *)
Theorem bound_elements_length `{PyStr} (m : HypothesisMap) (title : string) (g : rng) :
  ∃ doc,
    convert_to_excalidraw m title g = Some doc
    ∧ ∀ e, e ∈ doc_elements doc → el_type e = "rectangle" →
        text_refs (el_id e) (doc_elements doc) = 1
        ∧ length (boundElements e)
          = text_refs (el_id e) (doc_elements doc)
            + start_refs (el_id e) (doc_elements doc)
            + end_refs (el_id e) (doc_elements doc)
        ∧ length (boundElements e)
          = referrers (el_id e) (doc_elements doc)
            + self_loops (el_id e) (doc_elements doc).
Proof.
  destruct (convert_elements m title g) as (doc & Hdoc & Hels).
  exists doc. split; [done|]. intros e He Hrect. rewrite Hels in *.
  destruct (binder_ok_final m title g) as ([_ Hce] & Hna & Hone & Hlen & Harr).
  apply elem_of_app in He as [He|He].
  2:{ destruct (Harr e He) as (Hty & _). by rewrite Hty in Hrect. }
  assert (text_refs (el_id e)
            (els (final_binder m title g) ++ arrows (final_binder m title g)) = 1)
    as Htext.
  { rewrite text_refs_app, Hone.
    rewrite (text_refs_arrows _ (arrows (final_binder m title g)))
      by (intros a Ha; by apply Harr).
    apply list_elem_of_lookup in He as [k Hk]. by rewrite (Hce k e Hk Hrect). }
  assert (length (boundElements e)
          = text_refs (el_id e)
              (els (final_binder m title g) ++ arrows (final_binder m title g))
            + start_refs (el_id e)
                (els (final_binder m title g) ++ arrows (final_binder m title g))
            + end_refs (el_id e)
                (els (final_binder m title g) ++ arrows (final_binder m title g)))
    as Hsum.
  { rewrite Htext, start_refs_app, end_refs_app.
    destruct (start_end_refs_no_arrows (el_id e) _ Hna) as [-> ->].
    by rewrite (Hlen e He Hrect). }
  split; [done|]. split; [done|]. by rewrite refs_sum.
Qed.

(** C5, as claimed, fails: for a hypothesis whose subject reference is its own
    identifier, the rectangle of the hypothesis has three bound entries, and
    two elements refer to it, its text and one arrow. *)
Lemma bound_elements_self_loop :
  (λ doc, (λ e, (el_id e, el_type e, length (boundElements e),
                 referrers (el_id e) (doc_elements doc)))
            <$> doc_elements doc !! 5)
    <$> @convert_to_excalidraw ascii_py self_loop_map "" rng0
  = Some (Some ("hypothesis-0", "rectangle", 3, 2)).
Proof. vm_compute. done. Qed.

(** ** Binary64 arithmetic *)

Lemma round64_comp (p q : Q) : (p == q)%Q → round64 p = round64 q.
Proof. intros Heq. unfold round64. by rewrite (Qred_complete _ _ Heq). Qed.

Lemma round_half_even_Z (r : Q) (n : Z) :
  (r == inject_Z n)%Q → round_half_even r = n.
Proof.
  intros Hr. unfold round_half_even.
  assert (Qfloor r = n) as -> by (rewrite Hr; apply Qfloor_Z).
  assert ((r - inject_Z n ?= 1 # 2)%Q = Lt) as ->; [|reflexivity].
  apply (proj1 (Qlt_alt _ _)). rewrite Hr.
  assert (inject_Z n - inject_Z n == 0)%Q as -> by ring. reflexivity.
Qed.

Lemma two_pow_pos (k : Z) : (0 < 2 ^ k)%Q.
Proof. apply Qpower_0_lt. reflexivity. Qed.

Lemma Qabs_make (q : Q) :
  (Qabs q == inject_Z (Z.abs (Qnum q)) / inject_Z (Zpos (Qden q)))%Q.
Proof. destruct q as [a b]. unfold Qabs. simpl. apply Qmake_Qdiv. Qed.

(** [ilog2] does not exceed the logarithm. *)
Lemma ilog2_lower (r : Q) : ¬ (r == 0)%Q → (2 ^ ilog2 r <= Qabs r)%Q.
Proof.
  intros Hr. unfold ilog2.
  destruct (Qle_bool _ _) eqn:E; [by apply Qle_bool_iff|].
  set (a := Z.abs (Qnum r)). set (b := Zpos (Qden r)).
  assert (0 < a)%Z as Ha.
  { unfold a. destruct r as [n d]. unfold Qeq in Hr. simpl in *. lia. }
  assert (0 < b)%Z as Hb by (unfold b; lia).
  pose proof (Z.log2_spec a Ha) as [Ha1 _].
  pose proof (Z.log2_spec b Hb) as [_ Hb2].
  pose proof (Z.log2_nonneg a) as Hla. pose proof (Z.log2_nonneg b) as Hlb.
  replace (Z.log2 a - Z.log2 b - 1)%Z with (Z.log2 a - Z.succ (Z.log2 b))%Z by lia.
  rewrite Qpower_minus by discriminate.
  rewrite <- !(Zpower_Qpower 2) by lia.
  rewrite Qabs_make. fold a b.
  assert (0 < inject_Z b)%Q as HbQ by (rewrite Zlt_Qlt in Hb; exact Hb).
  assert (0 < inject_Z (2 ^ Z.succ (Z.log2 b)))%Q as HpQ.
  { assert (0 < 2 ^ Z.succ (Z.log2 b))%Z as Hp by (apply Z.pow_pos_nonneg; lia).
    rewrite Zlt_Qlt in Hp. exact Hp. }
  apply Qle_shift_div_l; [exact HbQ|].
  assert (inject_Z (2 ^ Z.log2 a) / inject_Z (2 ^ Z.succ (Z.log2 b)) * inject_Z b
          == inject_Z (2 ^ Z.log2 a) * inject_Z b / inject_Z (2 ^ Z.succ (Z.log2 b)))%Q
    as ->.
  { field. intros H0. rewrite H0 in HpQ. discriminate. }
  apply Qle_shift_div_r; [exact HpQ|].
  rewrite <- !inject_Z_mult, <- Zle_Qle. nia.
Qed.

(** A number with at most 53 significant bits and an exponent of at least
    [-1074] is its own rounding. *)
Lemma round64_dyadic (q : Q) (m k : Z) :
  (q == inject_Z m * 2 ^ k)%Q → (Z.abs m < 2 ^ 53)%Z → (-1074 ≤ k)%Z →
  (round64 q == q)%Q.
Proof.
  intros Hq Hm Hk. unfold round64.
  pose proof (Qred_correct q) as Hred. set (r := Qred q) in *.
  destruct (Qeq_bool r 0) eqn:E0.
  { apply Qeq_bool_iff in E0. rewrite <- Hred, E0. reflexivity. }
  assert (¬ (r == 0)%Q) as Hr0.
  { intros H0. apply Qeq_bool_iff in H0. congruence. }
  set (e := Z.max (ilog2 r - 52) (-1074)).
  assert (e ≤ k)%Z as He.
  { assert (ilog2 r < 53 + k)%Z; [|unfold e; lia].
    apply (Qpower_lt_compat_l_inv 2); [|reflexivity].
    apply Qle_lt_trans with (Qabs r); [by apply ilog2_lower|].
    rewrite Hred, Hq, Qabs_Qmult.
    rewrite (Qabs_pos (2 ^ k)) by (apply Qlt_le_weak, two_pow_pos).
    rewrite Qpower_plus by discriminate.
    apply Qmult_lt_compat_r; [apply two_pow_pos|].
    rewrite <- (Zpower_Qpower 2) by lia.
    assert (Qabs (inject_Z m) == inject_Z (Z.abs m))%Q as -> by reflexivity.
    rewrite <- Zlt_Qlt. exact Hm. }
  assert (¬ (2 ^ e == 0)%Q) as Hpe.
  { intros H0. pose proof (two_pow_pos e) as Hp. rewrite H0 in Hp. discriminate. }
  assert (r / 2 ^ e == inject_Z (m * 2 ^ (k - e)))%Q as Hint.
  { rewrite Hred, Hq, inject_Z_mult, (Zpower_Qpower 2) by lia.
    rewrite Qpower_minus by discriminate.
    change (inject_Z 2) with 2%Q. revert Hpe. generalize (2 ^ e)%Q, (2 ^ k)%Q.
    intros pe pk Hpe. field. exact Hpe. }
  rewrite (round_half_even_Z _ _ Hint).
  rewrite inject_Z_mult, (Zpower_Qpower 2) by lia.
  rewrite Qpower_minus by discriminate. rewrite Hq.
  change (inject_Z 2) with 2%Q. clear Hint. revert Hpe.
  generalize (2 ^ e)%Q, (2 ^ k)%Q.
  intros pe pk Hpe. field. exact Hpe.
Qed.

(** The integers and the half-integers below [2^52] in magnitude, such as
    the coordinates that the converter computes, are doubles; so the sums
    and differences of two of them below [2^51] are exact. *)
Lemma half_integer_double (z : Z) : (Z.abs z < 2 ^ 53)%Z → is_double (z # 2).
Proof.
  intros Hz. split.
  - apply (round64_dyadic _ z (-1)); [|done|lia].
    unfold Qeq. simpl. lia.
  - apply Qlt_trans with (2 ^ 52)%Q; [|reflexivity].
    change (Qabs (z # 2)) with (Z.abs z # 2).
    unfold Qlt. simpl. lia.
Qed.

Lemma is_double_comp (p q : Q) : (p == q)%Q → is_double p → is_double q.
Proof.
  intros Heq [Hr Hb]. split.
  - by rewrite <- (round64_comp _ _ Heq), Hr.
  - by rewrite <- Heq.
Qed.

Lemma half_integer_sub (z1 z2 : Z) :
  (Z.abs z1 < 2 ^ 52)%Z → (Z.abs z2 < 2 ^ 52)%Z →
  is_double ((z1 # 2) - (z2 # 2)).
Proof.
  intros H1 H2. apply (is_double_comp ((z1 - z2) # 2)).
  - unfold Qeq. simpl. lia.
  - apply half_integer_double. lia.
Qed.

(** [round64] agrees with the binary64 numbers of the kernel on the
    doubles nearest to 0.3 and 0.9, on their difference and on the sum of
    0.3 and that difference. *)
Example round64_kernel :
  Qred <$> float_value (float_quotient 3 10) = Some (Qred (round64 (3 # 10)))
  ∧ Qred <$> float_value (float_quotient 9 10) = Some (Qred (round64 (9 # 10)))
  ∧ Qred <$> float_value (PrimFloat.sub (float_quotient 9 10) (float_quotient 3 10))
    = Some (Qred (f64_sub (round64 (9 # 10)) (round64 (3 # 10))))
  ∧ Qred <$> float_value
               (PrimFloat.add (float_quotient 3 10)
                  (PrimFloat.sub (float_quotient 9 10) (float_quotient 3 10)))
    = Some (Qred (f64_add (round64 (3 # 10))
                    (f64_sub (round64 (9 # 10)) (round64 (3 # 10))))).
Proof. vm_compute. done. Qed.

(** ** The connector constructor *)

(** C8, amended.  The element built by [create_arrow] is positioned at the
    start point; its points are the local origin and the delta, the
    difference of the end point and the start point as binary64 arithmetic
    computes it; its width and height are the absolute values of that delta;
    both bindings name the given elements with focus 0 and gap 5; there is
    no start arrowhead, and the end arrowhead is an arrow.  On every axis on
    which the difference of the coordinates is exact, that is, is itself a
    double, the delta is the difference of the coordinates, the size is its
    absolute value, and the end point is the position plus the delta. *)
Theorem create_arrow_shape (arrow_id start_id end_id : string)
    (start_x start_y end_x end_y : Q) (color : string) (stroke_width : Z) (g : rng) :
  ∃ a af dx dy g',
    create_arrow_f64 arrow_id start_id end_id start_x start_y end_x end_y
                     color stroke_width g = (a, g')
    ∧ el_id a = arrow_id ∧ el_type a = "arrow"
    ∧ el_x a = start_x ∧ el_y a = start_y
    ∧ strokeColor a = color ∧ strokeWidth a = stroke_width
    ∧ extra a = ArrowFields af
    ∧ points af = [(0, 0)%Q; (dx, dy)]
    ∧ dx = f64_sub end_x start_x ∧ dy = f64_sub end_y start_y
    ∧ el_width a = Qabs dx ∧ el_height a = Qabs dy
    ∧ startBinding af = {| elementId := start_id; focus := 0; gap := 5 |}
    ∧ endBinding af = {| elementId := end_id; focus := 0; gap := 5 |}
    ∧ startArrowhead af = None
    ∧ endArrowhead af = Some "arrow"
    ∧ (is_double end_x → is_double (end_x - start_x) →
       (dx == end_x - start_x)%Q
       ∧ (el_width a == Qabs (end_x - start_x))%Q
       ∧ (f64_add (el_x a) dx == end_x)%Q)
    ∧ (is_double end_y → is_double (end_y - start_y) →
       (dy == end_y - start_y)%Q
       ∧ (el_height a == Qabs (end_y - start_y))%Q
       ∧ (f64_add (el_y a) dy == end_y)%Q).
Proof.
  assert (∀ s e, is_double e → is_double (e - s) →
            (f64_sub e s == e - s)%Q
            ∧ (Qabs (f64_sub e s) == Qabs (e - s))%Q
            ∧ (f64_add s (f64_sub e s) == e)%Q) as Hexact.
  { intros s e [He _] [Hd _]. unfold f64_sub, f64_add. split; [done|].
    split; [by rewrite Hd|].
    rewrite <- He at 2. rewrite (round64_comp (s + round64 (e - s)) e); [done|].
    rewrite Hd. ring. }
  do 5 eexists. split; [reflexivity|]. cbn [el_x el_y el_width el_height].
  repeat split; try reflexivity; by apply Hexact.
Qed.

Lemma create_arrow_shape_witness :
  ∃ a af dx dy g',
    create_arrow_f64 "arrow-0" "hypothesis-0" "subject-0" 950 285 780 210
                     "#e03131" 4 rng0 = (a, g')
    ∧ el_x a = 950%Q ∧ el_y a = 285%Q
    ∧ extra a = ArrowFields af
    ∧ points af = [(0, 0)%Q; (dx, dy)]
    ∧ el_width a = Qabs dx ∧ el_height a = Qabs dy
    ∧ (dx == 780 - 950)%Q ∧ (f64_add (el_x a) dx == 780)%Q
    ∧ (dy == 210 - 285)%Q ∧ (f64_add (el_y a) dy == 210)%Q.
Proof.
  destruct (create_arrow_shape "arrow-0" "hypothesis-0" "subject-0" 950 285 780 210
              "#e03131" 4 rng0)
    as (a & af & dx & dy & g' & Hrun & _ & _ & Hx & Hy & _ & _ & Hex & Hpts & _ & _
        & Hw & Hh & _ & _ & _ & _ & Hxs & Hys).
  exists a, af, dx, dy, g'. do 6 (split; [done|]).
  destruct Hxs as (Hdx & _ & Hrx); [split; by vm_compute..|].
  destruct Hys as (Hdy & _ & Hry); [split; by vm_compute..|].
  done.
Defined.

(** C8, as claimed, fails: between the doubles nearest to 0.3 and 0.9 the
    delta that [create_arrow] computes is rounded, so that the width is not
    the absolute difference of the coordinates and the position plus the
    delta misses the end point (Python prints 0.9000000000000001); and from
    1.0 to 1e16 the width is 1e16, not 9999999999999999. *)
Lemma create_arrow_rounded_delta :
  let start_x := round64 (3 # 10) in
  let end_x := round64 (9 # 10) in
  let a := (create_arrow_f64 "arrow-0" "a" "b" start_x 0 end_x 0 "#70736d" 2 rng0).1 in
  let b := (create_arrow_f64 "arrow-0" "a" "b" 1 0 10000000000000000 0
                             "#70736d" 2 rng0).1 in
  (round64 start_x == start_x)%Q ∧ (round64 end_x == end_x)%Q
  ∧ ¬ (el_width a == Qabs (end_x - start_x))%Q
  ∧ (∃ dx dy, arrow_points a = [(0, 0)%Q; (dx, dy)]
              ∧ ¬ (f64_add (el_x a) dx == end_x)%Q)
  ∧ (round64 10000000000000000 == 10000000000000000)%Q
  ∧ (el_width b == 10000000000000000)%Q
  ∧ (Qabs (10000000000000000 - 1) == 9999999999999999)%Q.
Proof.
  cbv zeta. split; [by vm_compute|]. split; [by vm_compute|].
  split; [by vm_compute|]. split.
  - eexists _, _. split; [reflexivity|]. by vm_compute.
  - split; [by vm_compute|]. split; by vm_compute.
Qed.

(** On coordinates whose differences are exact, [create_arrow_f64] is
    [create_arrow]: such are the integers and half-integers that the
    converter passes. *)
Lemma create_arrow_f64_exact (arrow_id start_id end_id : string)
    (start_x start_y end_x end_y : Q) (color : string) (stroke_width : Z) (g : rng) :
  is_double (end_x - start_x) → is_double (end_y - start_y) →
  let a := (create_arrow_f64 arrow_id start_id end_id start_x start_y end_x end_y
                             color stroke_width g).1 in
  let b := (create_arrow arrow_id start_id end_id start_x start_y end_x end_y
                         color stroke_width g).1 in
  el_id a = el_id b ∧ el_type a = el_type b
  ∧ el_x a = el_x b ∧ el_y a = el_y b
  ∧ (el_width a == el_width b)%Q ∧ (el_height a == el_height b)%Q
  ∧ strokeColor a = strokeColor b ∧ strokeWidth a = strokeWidth b
  ∧ arrow_start a = arrow_start b ∧ arrow_end a = arrow_end b
  ∧ Forall2 (λ p q, (p.1 == q.1)%Q ∧ (p.2 == q.2)%Q)
            (arrow_points a) (arrow_points b).
Proof.
  intros [Hx _] [Hy _]. cbv zeta.
  unfold create_arrow_f64, create_arrow, arrow_points, f64_sub.
  cbn -[Qabs round64 Qminus].
  repeat split; try reflexivity.
  - by rewrite Hx.
  - by rewrite Hy.
  - repeat constructor; simpl; done.
Qed.

Lemma connect_call_shape ce st c :
  ∃ arrow, arrows (connect_call ce st c) = arrows st ++ [arrow] ∧ arrow_shape arrow.
Proof.
  eexists. split; [reflexivity|]. do 3 eexists. by repeat split.
Qed.

Lemma connect_calls_shape ce calls : ∀ st,
  Forall arrow_shape (arrows st) →
  Forall arrow_shape (arrows (foldl (connect_call ce) st calls)).
Proof.
  induction calls as [|c calls IH]; intros st Hall; [done|].
  rewrite foldl_step. apply IH.
  destruct (connect_call_shape ce st c) as (arrow & -> & Hshape).
  apply Forall_app. split; [done|]. by constructor.
Qed.

(** Every connector of a document has the shape that [create_arrow] gives. *)
Lemma document_connector_shape `{PyStr} (m : HypothesisMap) (title : string) (g : rng) :
  ∃ doc, convert_to_excalidraw m title g = Some doc
         ∧ ∀ e, e ∈ doc_elements doc → el_type e = "arrow" → arrow_shape e.
Proof.
  destruct (convert_elements m title g) as (doc & Hdoc & Hels).
  exists doc. split; [done|]. intros e He Hty. rewrite Hels in He.
  apply elem_of_app in He as [He|He].
  - destruct (final_no_arrows m title g e He) as (_ & _ & Hne). done.
  - assert (Forall arrow_shape (arrows (final_binder m title g))) as Hall
      by (apply connect_calls_shape; constructor).
    rewrite Forall_forall in Hall. by apply Hall.
Qed.

(** ** Determinism up to identifiers and seeds *)

Lemma layout_sim_place_call st1 st2 c :
  layout_sim st1 st2 → layout_sim (place_call st1 c) (place_call st2 c).
Proof.
  intros (Hels & Hpos & Hce). split; [|split].
  - change (elements (place_call st1 c))
      with (elements st1 ++ calls_elements [c] (gen st1)).
    change (elements (place_call st2 c))
      with (elements st2 ++ calls_elements [c] (gen st2)).
    by rewrite !fmap_app, Hels.
  - by rewrite !place_call_positions, Hpos.
  - rewrite !place_call_card_elements, Hce.
    by rewrite <- (length_fmap strip_random (elements st1)), Hels, length_fmap.
Qed.

Lemma layout_sim_calls calls : ∀ st1 st2,
  layout_sim st1 st2 → layout_sim (foldl place_call st1 calls) (foldl place_call st2 calls).
Proof.
  induction calls as [|c calls IH]; intros st1 st2 Hsim; [done|].
  rewrite !foldl_step. by apply IH, layout_sim_place_call.
Qed.

Lemma layout_sim_headers title g1 g2 : layout_sim (headers title g1) (headers title g2).
Proof. by repeat split. Qed.

Lemma layout_sim_hyp_tasks tb l1 l2 idx h :
  layout_sim l1 l2 →
  layout_sim (place_hyp_tasks tb (l1, idx) h).1 (place_hyp_tasks tb (l2, idx) h).1
  ∧ (place_hyp_tasks tb (l1, idx) h).2 = (place_hyp_tasks tb (l2, idx) h).2.
Proof.
  intros Hsim. pose proof Hsim as (_ & Hpos & _).
  unfold place_hyp_tasks. simpl fst. rewrite Hpos.
  destruct (default [] (tb !! hyp_id h)) as [|t ts]; [done|].
  destruct (positions l2 !! hyp_id h) as [hyp_pos|]; [|done].
  rewrite !place_tasks_calls. cbn [fst snd]. split; [|done]. by apply layout_sim_calls.
Qed.

Lemma layout_sim_task_phase tb hs : ∀ l1 l2 idx,
  layout_sim l1 l2 →
  layout_sim (foldl (place_hyp_tasks tb) (l1, idx) hs).1
             (foldl (place_hyp_tasks tb) (l2, idx) hs).1.
Proof.
  induction hs as [|h hs IH]; intros l1 l2 idx Hsim; [done|].
  rewrite !foldl_step.
  destruct (layout_sim_hyp_tasks tb l1 l2 idx h Hsim) as [Hsim' Hidx].
  destruct (place_hyp_tasks tb (l1, idx) h) as [l1' idx1],
           (place_hyp_tasks tb (l2, idx) h) as [l2' idx2].
  simpl in *. subst idx2. by apply IH.
Qed.

Lemma layout_sim_lay_out `{PyStr} m title g1 g2 :
  layout_sim (lay_out m title g1) (lay_out m title g2).
Proof.
  unfold lay_out. apply layout_sim_task_phase. rewrite !columns_calls.
  apply layout_sim_calls, layout_sim_headers.
Qed.

Lemma strip_random_append_bound r e :
  strip_random (append_bound r e) = append_bound r (strip_random e).
Proof. reflexivity. Qed.

Lemma add_arrow_binding_strip ce cid aid l :
  strip_random <$> add_arrow_binding ce cid aid l
  = add_arrow_binding ce cid aid (strip_random <$> l).
Proof.
  unfold add_arrow_binding. destruct (ce !! cid) as [k|]; [|done].
  apply list_fmap_alter, Forall_forall. intros e _. apply strip_random_append_bound.
Qed.

Lemma create_arrow_strip aid sid eid sx sy ex ey col sw g1 g2 :
  strip_random (create_arrow aid sid eid sx sy ex ey col sw g1).1
  = strip_random (create_arrow aid sid eid sx sy ex ey col sw g2).1.
Proof. reflexivity. Qed.

Lemma connect_call_arrows ce st c :
  arrows (connect_call ce st c)
  = arrows st
    ++ [(create_arrow ("arrow-" +:+ pretty (arrow_idx st))
           (pos_card (from_pos c)) (pos_card (to_pos c))
           (pos_x (from_pos c)) (pos_y (from_pos c) + pos_h (from_pos c) / 2)%Q
           (pos_x (to_pos c) + pos_w (to_pos c))%Q
           (pos_y (to_pos c) + pos_h (to_pos c) / 2)%Q
           (arrow_color c) (arrow_stroke c) (bgen st)).1].
Proof. reflexivity. Qed.

Lemma binder_sim_connect ce st1 st2 c :
  binder_sim st1 st2 → binder_sim (connect_call ce st1 c) (connect_call ce st2 c).
Proof.
  intros (Hels & Harr & Hidx). split; [|split].
  - change (els (connect_call ce st1 c))
      with (add_arrow_binding ce (pos_card (to_pos c)) ("arrow-" +:+ pretty (arrow_idx st1))
              (add_arrow_binding ce (pos_card (from_pos c))
                 ("arrow-" +:+ pretty (arrow_idx st1)) (els st1))).
    change (els (connect_call ce st2 c))
      with (add_arrow_binding ce (pos_card (to_pos c)) ("arrow-" +:+ pretty (arrow_idx st2))
              (add_arrow_binding ce (pos_card (from_pos c))
                 ("arrow-" +:+ pretty (arrow_idx st2)) (els st2))).
    by rewrite !add_arrow_binding_strip, Hels, Hidx.
  - rewrite !connect_call_arrows, !fmap_app, Harr, Hidx. f_equal.
  - by rewrite !connect_call_idx, Hidx.
Qed.

Lemma binder_sim_calls ce calls : ∀ st1 st2,
  binder_sim st1 st2 →
  binder_sim (foldl (connect_call ce) st1 calls) (foldl (connect_call ce) st2 calls).
Proof.
  induction calls as [|c calls IH]; intros st1 st2 Hsim; [done|].
  rewrite !foldl_step. by apply IH, binder_sim_connect.
Qed.

Lemma binder_sim_final `{PyStr} m title g1 g2 :
  binder_sim (final_binder m title g1) (final_binder m title g2).
Proof.
  destruct (layout_sim_lay_out m title g1 g2) as (Hels & Hpos & Hce).
  unfold final_binder. rewrite Hpos, Hce. apply binder_sim_calls.
  by repeat split.
Qed.

(** C7.  Two conversions of the same map, whatever the random draws, return
    documents with the same envelope and the same number of elements, whose
    elements agree one by one in everything (type, position, size, style, text
    content, bound elements, bindings, and the identifiers of the cards, their
    texts and the arrows) but the seed, the version nonce and the identifiers
    of the title and of the column headers. *)
Theorem conversion_deterministic `{PyStr} (m : HypothesisMap) (title : string)
    (g1 g2 : rng) :
  ∃ doc1 doc2,
    convert_to_excalidraw m title g1 = Some doc1
    ∧ convert_to_excalidraw m title g2 = Some doc2
    ∧ length (doc_elements doc1) = length (doc_elements doc2)
    ∧ strip_random <$> doc_elements doc1 = strip_random <$> doc_elements doc2
    ∧ (∀ k e1 e2, doc_elements doc1 !! k = Some e1 → doc_elements doc2 !! k = Some e2 →
         el_type e1 = el_type e2
         ∧ (el_x e1, el_y e1, el_width e1, el_height e1)
           = (el_x e2, el_y e2, el_width e2, el_height e2)
         ∧ extra e1 = extra e2
         ∧ boundElements e1 = boundElements e2
         ∧ (is_free_text e1 = false → el_id e1 = el_id e2))
    ∧ (doc_type doc1, doc_version doc1, doc_source doc1, appState doc1, files doc1)
      = (doc_type doc2, doc_version doc2, doc_source doc2, appState doc2, files doc2).
Proof.
  destruct (binder_sim_final m title g1 g2) as (Hels & Harr & _).
  unfold convert_to_excalidraw. rewrite !bind_arrows_final. simpl.
  do 2 eexists. split; [reflexivity|]. split; [reflexivity|]. simpl.
  assert (strip_random <$> els (final_binder m title g1) ++ arrows (final_binder m title g1)
          = strip_random <$> els (final_binder m title g2) ++ arrows (final_binder m title g2))
    as Heq by (by rewrite !fmap_app, Hels, Harr).
  split; [|split; [done|split; [|done]]].
  - by rewrite <- (length_fmap strip_random), Heq, length_fmap.
  - intros k e1 e2 H1 H2.
    apply (f_equal (λ l, l !! k)) in Heq. rewrite !list_lookup_fmap, H1, H2 in Heq.
    simpl in Heq. apply (inj Some) in Heq. rename Heq into Hs.
    pose proof (f_equal el_type Hs) as Hty. pose proof (f_equal el_x Hs) as Hx.
    pose proof (f_equal el_y Hs) as Hy. pose proof (f_equal el_width Hs) as Hw.
    pose proof (f_equal el_height Hs) as Hh. pose proof (f_equal extra Hs) as Hex.
    pose proof (f_equal boundElements Hs) as Hb. pose proof (f_equal el_id Hs) as Hid.
    simpl in *. repeat split; try congruence.
    intros Hfree. assert (is_free_text e2 = false) as Hfree2
      by (unfold is_free_text in *; by rewrite <- Hex).
    by rewrite Hfree, Hfree2 in Hid.
Qed.

(** ** Tasks without a hypothesis *)








(** ** The placement of the tasks *)

Lemma row_y_shift y0 pitch i : row_y (y0 + pitch) pitch i = (row_y y0 pitch i + pitch)%Q.
Proof. induction i as [|i IH]; [done|]. simpl. by rewrite IH. Qed.

Lemma row_y_value y0 pitch i : (row_y y0 pitch i == y0 + inject_Z (Z.of_nat i) * pitch)%Q.
Proof.
  induction i as [|i IH].
  - simpl. ring.
  - simpl row_y. rewrite IH, Nat2Z.inj_succ. unfold Z.succ. rewrite inject_Z_plus. ring.
Qed.

Lemma hypothesis_calls_lookup `{PyStr} hs : ∀ i0 y0 i h,
  hs !! i = Some h →
  ∃ c, hypothesis_calls hs i0 y0 !! i = Some c
       ∧ call_key c = hyp_id h
       ∧ call_pos c = mk_pos COL_HYPOTHESIS (row_y y0 (HYPOTHESIS_H + ROW_SPACING) i)
                             HYPOTHESIS_W HYPOTHESIS_H
                             ("hypothesis-" +:+ pretty (i0 + i)).
Proof.
  induction hs as [|h0 hs IH]; intros i0 y0 i h Hi; [done|].
  destruct i as [|i].
  - injection Hi as ->. eexists. split; [reflexivity|]. split; [done|].
    unfold call_pos. simpl. by rewrite Nat.add_0_r.
  - simpl in Hi. destruct (IH (S i0) (y0 + (HYPOTHESIS_H + ROW_SPACING))%Q i h Hi)
      as (c & Hc & Hkey & Hpos).
    exists c. split; [done|]. split; [done|].
    rewrite Hpos, row_y_shift. simpl row_y. by replace (S i0 + i) with (i0 + S i) by lia.
Qed.

Lemma task_calls_lookup ts : ∀ j0 start idx j t,
  ts !! j = Some t →
  ∃ c, task_calls ts j0 start idx !! j = Some c
       ∧ call_key c = task_id t
       ∧ call_card c = "task-" +:+ pretty (idx + j)
       ∧ call_x c = COL_TASK ∧ call_y c = task_y start (j0 + j)
       ∧ call_w c = TASK_W ∧ call_h c = TASK_H
       ∧ call_txt c = wrap_text (task_description t) 25.
Proof.
  induction ts as [|t0 ts IH]; intros j0 start idx j t Hj; [done|].
  destruct j as [|j].
  - injection Hj as ->. eexists. split; [reflexivity|]. simpl.
    by rewrite !Nat.add_0_r.
  - simpl in Hj. destruct (IH (S j0) start (S idx) j t Hj)
      as (c & Hc & Hkey & Hcard & Hx & Hy & Hw & Hh & Htxt).
    exists c. split; [done|]. rewrite Hkey, Hcard, Hx, Hy, Hw, Hh, Htxt.
    replace (S idx + j) with (idx + S j) by lia.
    by replace (S j0 + j) with (j0 + S j) by lia.
Qed.

Lemma positions_calls_lookup_last calls i c st :
  calls !! i = Some c →
  call_key c ∉ call_key <$> drop (S i) calls →
  positions (foldl place_call st calls) !! call_key c = Some (call_pos c).
Proof.
  intros Hi Hlast. rewrite <- (take_drop_middle calls i c Hi).
  by apply positions_calls_last.
Qed.

Section TaskPhase.
Context `{PyStr}.
Variables (m : HypothesisMap) (title : string) (g : rng).

Lemma tasks_state_S i h :
  hypotheses m !! i = Some h →
  tasks_state m title g (S i)
  = place_hyp_tasks (tasks_by_hypothesis (tasks m)) (tasks_state m title g i) h.
Proof.
  intros Hi. unfold tasks_state. by rewrite (take_S_r _ _ _ Hi), foldl_snoc.
Qed.

Lemma tasks_state_calls i :
  ∃ calls,
    tasks_state m title g i
    = (foldl place_call (columns m title g) calls, length calls)
    ∧ call_key <$> calls = task_id <$> concat (tasks_of m <$> take i (hypotheses m)).
Proof.
  destruct (task_phase_calls (tasks_by_hypothesis (tasks m)) (take i (hypotheses m))
              (columns m title g) 0) as (calls & Hrun & Hkeys & _).
  { intros h Hh. apply columns_registered. by apply (subseteq_take i). }
  exists calls. split; [done|]. rewrite Hkeys. do 2 f_equal.
  apply list_fmap_ext. intros _ h _. apply tasks_by_hypothesis_lookup.
Qed.

Lemma tasks_state_registered i h :
  h ∈ hypotheses m → is_Some (positions (tasks_state m title g i).1 !! hyp_id h).
Proof.
  intros Hh. destruct (tasks_state_calls i) as (calls & -> & _). simpl.
  apply positions_calls_is_Some. left. by apply columns_registered.
Qed.

Lemma lay_out_from_state i :
  ∃ calls, lay_out m title g = foldl place_call (tasks_state m title g i).1 calls.
Proof.
  assert (lay_out m title g
          = (foldl (place_hyp_tasks (tasks_by_hypothesis (tasks m)))
                   (tasks_state m title g i) (drop i (hypotheses m))).1) as ->.
  { unfold lay_out, tasks_state. by rewrite <- foldl_app, take_drop. }
  destruct (tasks_state m title g i) as [lay idx] eqn:Hst.
  destruct (task_phase_calls (tasks_by_hypothesis (tasks m)) (drop i (hypotheses m))
              lay idx) as (calls & -> & _).
  { intros h Hh. replace lay with (tasks_state m title g i).1 by (by rewrite Hst).
    apply tasks_state_registered. by apply (subseteq_drop i). }
  by exists calls.
Qed.

(** With pairwise distinct identifiers, the registry entry of a hypothesis
    is, throughout the task section, the entry of its own card. *)
Lemma tasks_state_own_card i j h :
  hypotheses m !! i = Some h →
  NoDup ((hyp_id <$> hypotheses m) ++ (task_id <$> tasks m)) →
  positions (tasks_state m title g j).1 !! hyp_id h = Some (hypothesis_pos i).
Proof.
  intros Hi [Hnd [Hdisj _]]%NoDup_app.
  destruct (tasks_state_calls j) as (calls & -> & Hkeys). simpl.
  rewrite positions_calls_notin.
  - rewrite columns_calls. unfold column_calls. rewrite !foldl_app.
    destruct (hypothesis_calls_lookup (hypotheses m) 0 ROW_START i h Hi)
      as (c & Hc & Hkey & Hpos).
    rewrite <- Hkey, (positions_calls_lookup_last _ i c _ Hc); [by rewrite Hpos|].
    rewrite fmap_drop, hypothesis_calls_keys, Hkey.
    intros (k & Hk)%list_elem_of_lookup. rewrite lookup_drop in Hk.
    assert ((hyp_id <$> hypotheses m) !! i = Some (hyp_id h)) as Hi'
      by (by rewrite list_lookup_fmap, Hi).
    pose proof (NoDup_lookup _ _ _ _ Hnd Hi' Hk). lia.
  - rewrite Hkeys. intros (t & Heq & Ht)%list_elem_of_fmap.
    apply (Hdisj (hyp_id h)).
    + apply list_elem_of_fmap_2. by eapply list_elem_of_lookup_2.
    + rewrite Heq. apply list_elem_of_fmap_2.
      apply list_elem_of_In, in_concat in Ht as (ts & Hts & Ht).
      apply list_elem_of_In, list_elem_of_fmap in Hts as (h' & -> & _).
      apply list_elem_of_In, list_elem_of_filter in Ht as [_ Ht]. done.
Qed.
End TaskPhase.

(** From four tasks on, the block is taller than the card of a hypothesis and
    starts above it. *)
Lemma task_block_taller_than_card (hyp_pos : position) :
  pos_h hyp_pos = HYPOTHESIS_H → (task_start_y hyp_pos 4 < pos_y hyp_pos)%Q.
Proof.
  intros Hh. unfold task_start_y, total_tasks_h. rewrite Hh.
  unfold HYPOTHESIS_H, TASK_H. simpl inject_Z.
  assert ((350 - (4 * 100 + (4 - 1) * 15)) / 2 == - (95 # 2))%Q as -> by reflexivity.
  lra.
Qed.

(** C6, amended.  For the [i]-th hypothesis [h] of the map, with [n >= 1]
    tasks that refer to it: when its tasks are placed, the position registry
    has an entry [hyp_pos] under the identifier of [h]; the tasks get [n]
    cards, in input order, of height [TASK_H], the [j]-th at
    [y = start + j * (TASK_H + 15)] where
    [start = hyp_y + (hyp_h - block_height) / 2] and
    [block_height = n * TASK_H + (n - 1) * 15], with [hyp_y] and [hyp_h] taken
    from [hyp_pos]; consecutive cards are 15 units apart, the last card ends
    at [start + block_height], and the margins above and below the block
    within the span of [hyp_pos] are equal.  When the identifiers of the
    hypotheses and of the tasks are pairwise distinct, [hyp_pos] is the entry
    of the card of [h] itself. *)
Theorem task_block_centered `{PyStr} (m : HypothesisMap) (title : string) (g : rng)
    (i : nat) (h : Hypothesis_) :
  hypotheses m !! i = Some h →
  1 ≤ length (tasks_of m h) →
  ∃ hyp_pos,
    let n := length (tasks_of m h) in
    let start := task_start_y hyp_pos n in
    let first := length (elements (tasks_state m title g i).1) in
    positions (tasks_state m title g i).1 !! hyp_id h = Some hyp_pos
    ∧ start = (pos_y hyp_pos + (pos_h hyp_pos - total_tasks_h n) / 2)%Q
    ∧ total_tasks_h n
      = (inject_Z (Z.of_nat n) * TASK_H + (inject_Z (Z.of_nat n) - 1) * 15)%Q
    ∧ (∀ j t, tasks_of m h !! j = Some t →
         ∃ rect txt,
           elements (lay_out m title g) !! (first + 2 * j) = Some rect
           ∧ elements (lay_out m title g) !! (first + 2 * j + 1) = Some txt
           ∧ el_type rect = "rectangle"
           ∧ el_id rect = "task-" +:+ pretty ((tasks_state m title g i).2 + j)
           ∧ el_x rect = COL_TASK ∧ el_y rect = task_y start j
           ∧ el_width rect = TASK_W ∧ el_height rect = TASK_H
           ∧ container_of txt = Some (el_id rect)
           ∧ ∃ tf, extra txt = TextFields tf
                   ∧ text tf = wrap_text (task_description t) 25)
    ∧ (∀ j, task_y start (S j) - (task_y start j + TASK_H) == 15)%Q
    ∧ (∀ j, S j = n → task_y start j + TASK_H == start + total_tasks_h n)%Q
    ∧ (start - pos_y hyp_pos
       == pos_y hyp_pos + pos_h hyp_pos - (start + total_tasks_h n))%Q
    ∧ (NoDup ((hyp_id <$> hypotheses m) ++ (task_id <$> tasks m)) →
       hyp_pos = hypothesis_pos i).
Proof.
  intros Hi Hn.
  destruct (tasks_state_registered m title g i h) as [hyp_pos Hpos].
  { by eapply list_elem_of_lookup_2. }
  exists hyp_pos. cbv zeta. split; [done|]. split; [done|]. split; [done|].
  split; [|split; [|split; [|split]]].
  - intros j t Hj.
    destruct (lay_out_from_state m title g (S i)) as (rest & Hlay).
    rewrite (tasks_state_S m title g i h Hi) in Hlay.
    destruct (tasks_state m title g i) as [lay idx] eqn:Hst. simpl in Hpos.
    rewrite (place_hyp_tasks_calls _ _ _ _ _ Hpos) in Hlay.
    rewrite tasks_by_hypothesis_lookup in Hlay. fold (tasks_of m h) in Hlay.
    cbn [fst snd] in *. rewrite <- foldl_app in Hlay.
    destruct (task_calls_lookup (tasks_of m h) 0
                (task_start_y hyp_pos (length (tasks_of m h))) idx j t Hj)
      as (c & Hc & _ & Hcard & Hx & Hy & Hw & Hh & Htxt).
    destruct (calls_elements_lookup
                (task_calls (tasks_of m h) 0
                   (task_start_y hyp_pos (length (tasks_of m h))) idx ++ rest)
                (gen lay) j c) as (rect & txt & Hrect & Htext & Hr & Ht).
    { by apply lookup_app_l_Some. }
    destruct Hr as (Hid & Hty & Hrx & Hry & Hrw & Hrh & _).
    destruct Ht as (_ & _ & _ & tf & Hex & Hcont & Htf).
    exists rect, txt. rewrite Hlay, elements_calls.
    rewrite !lookup_app_r by lia.
    replace (length (elements lay) + 2 * j - length (elements lay)) with (2 * j) by lia.
    replace (length (elements lay) + 2 * j + 1 - length (elements lay))
      with (2 * j + 1) by lia.
    split; [exact Hrect|]. split; [exact Htext|]. split; [exact Hty|].
    rewrite Hid, Hrx, Hry, Hrw, Hrh, Hcard, Hx, Hy, Hw, Hh.
    repeat split; try done.
    + unfold container_of. by rewrite Hex, Hcont, Hcard.
    + exists tf. by rewrite Htf, Htxt.
  - intros j. unfold task_y, TASK_H.
    rewrite Nat2Z.inj_succ. unfold Z.succ. rewrite inject_Z_plus. ring.
  - intros j Hj. rewrite <- Hj. unfold task_y, total_tasks_h, TASK_H.
    rewrite Nat2Z.inj_succ. unfold Z.succ. rewrite inject_Z_plus. ring.
  - unfold task_start_y. field.
  - intros Hnd. rewrite (tasks_state_own_card m title g i i h Hi Hnd) in Hpos.
    by injection Hpos.
Qed.

Lemma task_block_centered_witness :
  ∃ hyp_pos,
    let n := length (tasks_of sample_map (mk_hypothesis (Some "s1") HIGH "h1")) in
    let start := task_start_y hyp_pos n in
    let first := length (elements (@tasks_state ascii_py sample_map "" rng0 0).1) in
    positions (@tasks_state ascii_py sample_map "" rng0 0).1
      !! hyp_id (mk_hypothesis (Some "s1") HIGH "h1") = Some hyp_pos
    ∧ start = (pos_y hyp_pos + (pos_h hyp_pos - total_tasks_h n) / 2)%Q
    ∧ total_tasks_h n
      = (inject_Z (Z.of_nat n) * TASK_H + (inject_Z (Z.of_nat n) - 1) * 15)%Q
    ∧ (∀ j t, tasks_of sample_map (mk_hypothesis (Some "s1") HIGH "h1") !! j = Some t →
         ∃ rect txt,
           elements (@lay_out ascii_py sample_map "" rng0) !! (first + 2 * j) = Some rect
           ∧ elements (@lay_out ascii_py sample_map "" rng0) !! (first + 2 * j + 1)
             = Some txt
           ∧ el_type rect = "rectangle"
           ∧ el_id rect
             = "task-" +:+ pretty ((@tasks_state ascii_py sample_map "" rng0 0).2 + j)
           ∧ el_x rect = COL_TASK ∧ el_y rect = task_y start j
           ∧ el_width rect = TASK_W ∧ el_height rect = TASK_H
           ∧ container_of txt = Some (el_id rect)
           ∧ ∃ tf, extra txt = TextFields tf
                   ∧ text tf = wrap_text (task_description t) 25)
    ∧ (∀ j, task_y start (S j) - (task_y start j + TASK_H) == 15)%Q
    ∧ (∀ j, S j = n → task_y start j + TASK_H == start + total_tasks_h n)%Q
    ∧ (start - pos_y hyp_pos
       == pos_y hyp_pos + pos_h hyp_pos - (start + total_tasks_h n))%Q
    ∧ (NoDup ((hyp_id <$> hypotheses sample_map) ++ (task_id <$> tasks sample_map)) →
       hyp_pos = hypothesis_pos 0).
Proof.
  apply (@task_block_centered ascii_py sample_map "" rng0 0
           (mk_hypothesis (Some "s1") HIGH "h1")).
  - reflexivity.
  - vm_compute. lia.
Defined.

(** C6, as claimed, fails: of two hypotheses with the same identifier, the
    first has its card at y = 110 with height 350, and its one task is placed
    at y = 765, where the claimed start is 110 + (350 - 100) / 2 = 235. *)
Lemma task_block_twin_hypotheses :
  (λ doc, (λ e, (el_id e, Qred (el_y e), Qred (el_height e))) <$> doc_elements doc !! 5)
    <$> @convert_to_excalidraw ascii_py twin_map "" rng0
  = Some (Some ("hypothesis-0", 110%Q, 350%Q))
  ∧ (λ doc, (λ e, (el_id e, Qred (el_y e), Qred (el_height e))) <$> doc_elements doc !! 9)
      <$> @convert_to_excalidraw ascii_py twin_map "" rng0
    = Some (Some ("task-0", 765%Q, 100%Q))
  ∧ Qred (110 + (350 - total_tasks_h 1) / 2) = 235%Q.
Proof. vm_compute. done. Qed.

(** * Further properties *)

(** ** More on the text wrapper *)

(** X1.  A text all of whose lines fit the width is returned as it is. *)
Theorem wrap_text_fits_unchanged (text : string) (w : Z) :
  (∀ line, line ∈ str_split nl text → (len line ≤ w)%Z) →
  wrap_text text w = text.
Proof.
  intros Hfit. unfold wrap_text. rewrite wrapped_lines_of_concat.
  assert (concat (wrap_one w <$> str_split nl text) = str_split nl text) as ->.
  { induction (str_split nl text) as [|line lines IH]; [done|].
    rewrite fmap_cons, concat_cons, IH by (intros l Hl; apply Hfit; by constructor).
    rewrite wrap_one_unfold.
    assert (len line ≤ w)%Z as Hline by (apply Hfit; constructor).
    apply Z.leb_le in Hline. by rewrite Hline. }
  apply str_join_split.
Qed.

Lemma wrap_text_fits_unchanged_witness :
  wrap_text ("the quick" +:+ NL +:+ "brown fox") 9 = "the quick" +:+ NL +:+ "brown fox".
Proof.
  apply (wrap_text_fits_unchanged ("the quick" +:+ NL +:+ "brown fox") 9).
  intros line Hline. vm_compute in Hline.
  repeat (apply elem_of_cons in Hline as [->|Hline]; [vm_compute; discriminate|]).
  by apply elem_of_nil in Hline.
Defined.

(** The inner loop with three properties: of the words, of the current line
    and of the lines produced. *)
Lemma wrap_words_inv3 (w : Z) (Pw Pc Po : string → Prop) :
  Pc "" →
  (∀ word, Pw word → Pc word) →
  (∀ cur word, Pc cur → Pw word → cur ≠ "" →
     (len cur + 1 + len word ≤ w)%Z → Pc (cur +:+ " " +:+ word)) →
  (∀ cur, Pc cur → cur ≠ "" → Po cur) →
  ∀ ws out cur,
    Forall Pw ws → Forall Po out → Pc cur →
    Forall Po (foldl (wrap_word w) (out, cur) ws).1
    ∧ Pc (foldl (wrap_word w) (out, cur) ws).2.
Proof.
  intros Hempty Hword Hjoin Hflush ws.
  induction ws as [|word ws IH]; intros out cur Hws Hout Hcur; [done|].
  inversion Hws as [|?? Hw Hws']; subst. rewrite foldl_step.
  unfold wrap_word. destruct (decide (cur = "")) as [->|Hne].
  - apply IH; auto.
  - destruct (len cur + 1 + len word <=? w)%Z eqn:E.
    + apply IH; auto. apply Hjoin; auto. lia.
    + apply IH; auto. apply Forall_app. split; [done|]. constructor; auto.
Qed.

Lemma first_char_app s t : s ≠ "" → first_char (s +:+ t) = first_char s.
Proof. by destruct s. Qed.

Lemma first_char_no_space s : has_char sp s = false → first_char s ≠ Some sp.
Proof.
  destruct s as [|a s]; [done|]. simpl. destruct (decide (a = sp)); [done|].
  intros _ [=]. done.
Qed.

(** X2.  The lines produced for a line longer than the width are not empty
    and do not begin with a space: the leading spaces of such a line, and
    the spaces at which it is broken, are dropped. *)
Theorem wrap_long_line_no_leading_space (w : Z) (line : string) :
  (w < len line)%Z →
  Forall (λ l, l ≠ "" ∧ first_char l ≠ Some sp) (wrap_one w line).
Proof.
  intros Hlong. rewrite wrap_one_unfold.
  apply Z.leb_gt in Hlong. rewrite Hlong.
  destruct (wrap_words_inv3 w
              (λ p, has_char sp p = false)
              (λ c, c = "" ∨ first_char c ≠ Some sp)
              (λ l, l ≠ "" ∧ first_char l ≠ Some sp)) with
    (ws := str_split sp line) (out := @nil string) (cur := "") as [Hout Hcur].
  - by left.
  - intros word Hword. right. by apply first_char_no_space.
  - intros cur word [->|Hc] _ Hne _; [done|]. right. by rewrite first_char_app.
  - intros cur [->|Hc] Hne; done.
  - apply str_split_no_sep.
  - constructor.
  - by left.
  - apply Forall_app. split; [done|]. unfold flush.
    destruct (decide (_ = "")) as [|Hne]; [constructor|].
    constructor; [|constructor]. destruct Hcur as [?|?]; done.
Qed.

Lemma wrap_long_line_no_leading_space_witness :
  Forall (λ l, l ≠ "" ∧ first_char l ≠ Some sp) (wrap_one 9 "  the quick  brown fox").
Proof.
  apply (wrap_long_line_no_leading_space 9 "  the quick  brown fox").
  vm_compute. reflexivity.
Defined.

(** The wrapping is greedy. *)
Lemma first_piece_app_space s t : first_piece (s +:+ String sp t) = first_piece s.
Proof.
  unfold first_piece. rewrite str_split_app_sep.
  pose proof (str_split_nonnil sp s). by destruct (str_split sp s).
Qed.

Lemma first_piece_word s : has_char sp s = false → first_piece s = s.
Proof. intros H. unfold first_piece. by rewrite str_split_id. Qed.

Lemma wrap_words_greedy (w : Z) ws : ∀ out cur,
  Forall (λ p, has_char sp p = false) ws →
  (∀ i l1 l2, out !! i = Some l1 → out !! S i = Some l2 →
     (w < len l1 + 1 + len (first_piece l2))%Z) →
  (∀ l1, last out = Some l1 → (w < len l1 + 1 + len (first_piece cur))%Z) →
  (∀ i l1 l2, (foldl (wrap_word w) (out, cur) ws).1 !! i = Some l1 →
     (foldl (wrap_word w) (out, cur) ws).1 !! S i = Some l2 →
     (w < len l1 + 1 + len (first_piece l2))%Z)
  ∧ (∀ l1, last (foldl (wrap_word w) (out, cur) ws).1 = Some l1 →
       (w < len l1 + 1 + len (first_piece (foldl (wrap_word w) (out, cur) ws).2))%Z).
Proof.
  induction ws as [|word ws IH]; intros out cur Hws Hadj Hlast; [done|].
  inversion Hws as [|?? Hword Hws']; subst. rewrite foldl_step.
  unfold wrap_word. destruct (decide (cur = "")) as [->|Hne].
  - apply IH; [done|done|]. intros l1 Hl1. specialize (Hlast l1 Hl1).
    change (first_piece "") with "" in Hlast. change (len "") with 0%Z in Hlast.
    pose proof (len_nonneg (first_piece word)). lia.
  - destruct (len cur + 1 + len word <=? w)%Z eqn:E.
    + apply IH; [done|done|]. intros l1 Hl1.
      change (cur +:+ " " +:+ word) with (cur +:+ String sp word).
      rewrite first_piece_app_space. by apply Hlast.
    + apply Z.leb_gt in E. apply IH; [done| |].
      * intros i l1 l2 H1 H2.
        destruct (decide (S i < length out)) as [Hlt|Hge].
        { rewrite lookup_app_l in H1, H2 by lia. by eapply Hadj. }
        rewrite lookup_app_r in H2 by lia.
        destruct (S i - length out) as [|k] eqn:Ek; [|by destruct k].
        injection H2 as <-. rewrite lookup_app_l in H1 by lia.
        apply Hlast. rewrite last_lookup.
        replace (Nat.pred (length out)) with i by lia. done.
      * intros l1 Hl1. rewrite last_snoc in Hl1. injection Hl1 as <-.
        by rewrite (first_piece_word _ Hword).
Qed.

(** X3.  Wrapping is greedy: of two lines produced one after the other for
    the same input line, the first could not have taken the first word of the
    second. *)
Theorem wrap_one_greedy (w : Z) (line : string) (i : nat) (l1 l2 : string) :
  wrap_one w line !! i = Some l1 →
  wrap_one w line !! S i = Some l2 →
  (w < len l1 + 1 + len (first_piece l2))%Z.
Proof.
  rewrite wrap_one_unfold. destruct (len line <=? w)%Z; [by destruct i|].
  destruct (wrap_words_greedy w (str_split sp line) [] "") as [Hadj Hlast].
  - apply str_split_no_sep.
  - intros ? ? ? [=].
  - intros ? [=].
  - set (r := foldl (wrap_word w) ([], "") (str_split sp line)) in *.
    intros H1 H2. destruct (decide (S i < length r.1)) as [Hlt|Hge].
    { rewrite lookup_app_l in H1, H2 by lia. by eapply Hadj. }
    rewrite lookup_app_r in H2 by lia. unfold flush in H2.
    destruct (decide (r.2 = "")) as [|Hne]; [by destruct (S i - length r.1)|].
    destruct (S i - length r.1) as [|k] eqn:Ek; [|by destruct k].
    injection H2 as <-. rewrite lookup_app_l in H1 by lia.
    apply Hlast. rewrite last_lookup.
    replace (Nat.pred (length r.1)) with i by lia. done.
Qed.

Lemma wrap_one_greedy_witness :
  (9 < len "the quick" + 1 + len (first_piece "brown fox"))%Z.
Proof.
  apply (wrap_one_greedy 9 "the quick brown fox" 0 "the quick" "brown fox");
    reflexivity.
Defined.

(** ** The lookups of the data model *)

Lemma next_match_None {A} (p : A → bool) (l : list A) :
  next_match p l = None ↔ ∀ x, x ∈ l → p x = false.
Proof.
  induction l as [|x l IH]; simpl.
  - split; [intros _ x Hx; by apply elem_of_nil in Hx|done].
  - destruct (p x) eqn:E.
    + split; [done|]. intros Hall. rewrite Hall in E by constructor. done.
    + rewrite IH. split.
      * intros Hall y [->|Hy]%elem_of_cons; auto.
      * intros Hall y Hy. apply Hall. by constructor.
Qed.

Lemma next_match_Some {A} (p : A → bool) (l : list A) (x : A) :
  next_match p l = Some x ↔
  ∃ i, l !! i = Some x ∧ p x = true
       ∧ ∀ j y, j < i → l !! j = Some y → p y = false.
Proof.
  induction l as [|x0 l IH]; simpl.
  - split; [done|]. by intros (i & Hi & _).
  - destruct (p x0) eqn:E.
    + split.
      * intros [= <-]. exists 0. split; [done|]. split; [done|]. intros; lia.
      * intros ([|i] & Hi & Hp & Hfirst).
        { by injection Hi as <-. }
        specialize (Hfirst 0 x0 ltac:(lia) eq_refl). congruence.
    + rewrite IH. split.
      * intros (i & Hi & Hp & Hfirst). exists (S i). split; [done|]. split; [done|].
        intros [|j] y Hj Hy; [by injection Hy as <-|].
        apply (Hfirst j); [lia|done].
      * intros ([|i] & Hi & Hp & Hfirst).
        { injection Hi as <-. congruence. }
        exists i. split; [done|]. split; [done|].
        intros j y Hj Hy. apply (Hfirst (S j)); [lia|done].
Qed.

Lemma next_match_key {A} (key : A → string) (l : list A) (id : string) :
  (next_match (λ x, bool_decide (key x = id)) l = None ↔ id ∉ key <$> l)
  ∧ (∀ x, next_match (λ x, bool_decide (key x = id)) l = Some x ↔
       ∃ i, l !! i = Some x ∧ key x = id
            ∧ ∀ j y, j < i → l !! j = Some y → key y ≠ id).
Proof.
  split.
  - rewrite next_match_None. split.
    + intros Hall (x & -> & Hx)%list_elem_of_fmap.
      specialize (Hall x Hx). by apply bool_decide_eq_false in Hall.
    + intros Hnot x Hx. apply bool_decide_eq_false. intros Heq.
      apply Hnot. rewrite <- Heq. by apply list_elem_of_fmap_2.
  - intros x. rewrite next_match_Some. split.
    + intros (i & Hi & Hp & Hfirst). exists i. split; [done|].
      apply bool_decide_eq_true in Hp. split; [done|].
      intros j y Hj Hy. eapply bool_decide_eq_false, Hfirst; eauto.
    + intros (i & Hi & Hp & Hfirst). exists i. split; [done|].
      split; [by apply bool_decide_eq_true|].
      intros j y Hj Hy. apply bool_decide_eq_false. eapply Hfirst; eauto.
Qed.

(** X4.  [get_goal_by_id], [get_subject_by_id] and [get_hypothesis_by_id]
    return [None] exactly when no entity of the list has the identifier, and
    otherwise the first entity of the list that has it. *)
Theorem get_by_id_first_match (m : HypothesisMap) (id : string) :
  (get_goal_by_id m id = None ↔ id ∉ goal_id <$> goals m)
  ∧ (∀ g, get_goal_by_id m id = Some g ↔
       ∃ i, goals m !! i = Some g ∧ goal_id g = id
            ∧ ∀ j g', j < i → goals m !! j = Some g' → goal_id g' ≠ id)
  ∧ (get_subject_by_id m id = None ↔ id ∉ subject_id <$> subjects m)
  ∧ (∀ s, get_subject_by_id m id = Some s ↔
       ∃ i, subjects m !! i = Some s ∧ subject_id s = id
            ∧ ∀ j s', j < i → subjects m !! j = Some s' → subject_id s' ≠ id)
  ∧ (get_hypothesis_by_id m id = None ↔ id ∉ hyp_id <$> hypotheses m)
  ∧ (∀ h, get_hypothesis_by_id m id = Some h ↔
       ∃ i, hypotheses m !! i = Some h ∧ hyp_id h = id
            ∧ ∀ j h', j < i → hypotheses m !! j = Some h' → hyp_id h' ≠ id).
Proof.
  destruct (next_match_key goal_id (goals m) id) as [? ?].
  destruct (next_match_key subject_id (subjects m) id) as [? ?].
  destruct (next_match_key hyp_id (hypotheses m) id) as [? ?].
  done.
Qed.

(** X5.  In a map whose hypotheses have pairwise distinct identifiers,
    every hypothesis is found by its identifier. *)
Theorem get_hypothesis_by_id_found (m : HypothesisMap) (h : Hypothesis_) :
  NoDup (hyp_id <$> hypotheses m) →
  h ∈ hypotheses m →
  get_hypothesis_by_id m (hyp_id h) = Some h.
Proof.
  intros Hnd [i Hi]%list_elem_of_lookup. unfold get_hypothesis_by_id.
  apply next_match_Some. exists i. split; [done|].
  split; [by apply bool_decide_eq_true|].
  intros j h' Hj Hh'. apply bool_decide_eq_false. intros Heq.
  assert ((hyp_id <$> hypotheses m) !! i = Some (hyp_id h)) as H1
    by (by rewrite list_lookup_fmap, Hi).
  assert ((hyp_id <$> hypotheses m) !! j = Some (hyp_id h)) as H2
    by (rewrite list_lookup_fmap, Hh'; simpl; by rewrite Heq).
  pose proof (NoDup_lookup _ _ _ _ Hnd H1 H2). lia.
Qed.

Lemma get_hypothesis_by_id_found_witness :
  get_hypothesis_by_id sample_map (hyp_id (mk_hypothesis (Some "s1") HIGH "h1"))
  = Some (mk_hypothesis (Some "s1") HIGH "h1").
Proof.
  apply (get_hypothesis_by_id_found sample_map (mk_hypothesis (Some "s1") HIGH "h1")).
  - apply (bool_decide_unpack _). vm_compute. exact I.
  - simpl. constructor.
Defined.

(** ** The grouping of the tasks by the converter *)

Lemma group_task_keys tb t k :
  is_Some (group_task tb t !! k) ↔ is_Some (tb !! k) ∨ hypothesis_id t = k.
Proof.
  unfold group_task. rewrite lookup_alter_is_Some.
  destruct (tb !! hypothesis_id t) as [l|] eqn:E.
  - split; [auto|]. intros [?|<-]; [done|]. by rewrite E.
  - rewrite lookup_insert_is_Some.
    destruct (decide (hypothesis_id t = k)); intuition.
Qed.

Lemma foldl_group_task_keys ts : ∀ tb k,
  is_Some (foldl group_task tb ts !! k)
  ↔ is_Some (tb !! k) ∨ k ∈ hypothesis_id <$> ts.
Proof.
  induction ts as [|t ts IH]; intros tb k.
  - simpl. rewrite elem_of_nil. tauto.
  - rewrite foldl_step, IH, group_task_keys, fmap_cons, elem_of_cons.
    intuition (subst; auto).
Qed.

(** X6.  The dictionary in which the converter groups the tasks has exactly
    the [hypothesis_id]s of the tasks as keys, no group is empty, and under
    every identifier (present or not, with [.get(id, [])]) it gives the list
    that [get_tasks_for_hypothesis] returns: the tasks with that
    [hypothesis_id], in input order. *)
Theorem tasks_grouping_agrees (m : HypothesisMap) (id : string) :
  default [] (tasks_by_hypothesis (tasks m) !! id) = get_tasks_for_hypothesis m id
  ∧ (is_Some (tasks_by_hypothesis (tasks m) !! id) ↔ id ∈ hypothesis_id <$> tasks m)
  ∧ tasks_by_hypothesis (tasks m) !! id ≠ Some [].
Proof.
  split; [apply tasks_by_hypothesis_lookup|]. split.
  - unfold tasks_by_hypothesis. rewrite foldl_group_task_keys, lookup_empty.
    split; [intros [[? [=]]|?]; done|auto].
  - intros Hnil.
    assert (id ∈ hypothesis_id <$> tasks m) as (t & -> & Ht)%list_elem_of_fmap.
    { unfold tasks_by_hypothesis in *.
      pose proof (proj1 (foldl_group_task_keys (tasks m) ∅ id)) as Hk.
      rewrite lookup_empty in Hk. destruct Hk as [[? [=]]|?]; [by eexists|done]. }
    pose proof (tasks_by_hypothesis_lookup (tasks m) (hypothesis_id t)) as Hl.
    rewrite Hnil in Hl. simpl in Hl.
    assert (t ∈ filter (λ t0, hypothesis_id t0 = hypothesis_id t) (tasks m)) as Hin
      by (by apply list_elem_of_filter).
    rewrite <- Hl in Hin. by apply elem_of_nil in Hin.
Qed.

Lemma length_tasks_of_hypotheses (ts : list Task) (hs : list Hypothesis_) :
  NoDup (hyp_id <$> hs) →
  length (concat ((λ h, filter (λ t, hypothesis_id t = hyp_id h) ts) <$> hs))
  = length (filter (λ t, hypothesis_id t ∈ hyp_id <$> hs) ts).
Proof.
  induction hs as [|h hs IH]; intros Hnd.
  - simpl. induction ts as [|t ts IHts]; [done|]. rewrite filter_cons.
    destruct (decide _) as [Hin|]; [by apply elem_of_nil in Hin|done].
  - rewrite fmap_cons in Hnd. apply NoDup_cons in Hnd as [Hh Hnd].
    rewrite !fmap_cons, concat_cons, length_app, (IH Hnd).
    clear IH. induction ts as [|t ts IHts]; [done|].
    rewrite !filter_cons.
    destruct (decide (hypothesis_id t = hyp_id h)) as [Heq|Hne].
    + destruct (decide (hypothesis_id t ∈ hyp_id <$> hs)) as [Hin|_].
      { rewrite Heq in Hin. done. }
      destruct (decide (hypothesis_id t ∈ hyp_id h :: (hyp_id <$> hs))) as [_|Hnot].
      { simpl. lia. }
      destruct Hnot. rewrite Heq. constructor.
    + destruct (decide (hypothesis_id t ∈ hyp_id <$> hs)) as [Hin|Hnin].
      { destruct (decide (hypothesis_id t ∈ hyp_id h :: (hyp_id <$> hs))) as [_|Hnot].
        - simpl. lia.
        - destruct Hnot. by constructor. }
      destruct (decide (hypothesis_id t ∈ hyp_id h :: (hyp_id <$> hs))) as [Hin|_].
      { apply elem_of_cons in Hin as [?|?]; done. }
      done.
Qed.

(** The tasks that get a card are the tasks of the map whose hypothesis can
    be looked up in the map; when the hypotheses have pairwise distinct
    identifiers, each of them gets one card. *)
Lemma placed_tasks_lookup (m : HypothesisMap) :
  (∀ t, t ∈ placed_tasks m ↔
        t ∈ tasks m ∧ is_Some (get_hypothesis_by_id m (hypothesis_id t)))
  ∧ placed_tasks m
    = concat ((λ h, get_tasks_for_hypothesis m (hyp_id h)) <$> hypotheses m)
  ∧ (NoDup (hyp_id <$> hypotheses m) →
     length (placed_tasks m)
     = length (filter (λ t, is_Some (get_hypothesis_by_id m (hypothesis_id t)))
                      (tasks m))).
Proof.
  assert (∀ k, is_Some (get_hypothesis_by_id m k) ↔ k ∈ hyp_id <$> hypotheses m) as Hsome.
  { intros k. destruct (next_match_key hyp_id (hypotheses m) k) as [Hn _].
    unfold get_hypothesis_by_id. rewrite <- not_eq_None_Some, Hn.
    split; [apply dec_stable|auto]. }
  split; [|split; [done|]].
  - intros t. rewrite Hsome. unfold placed_tasks. split.
    + intros Hin. apply list_elem_of_In, in_concat in Hin as (ts & Hts & Hin).
      apply list_elem_of_In, list_elem_of_fmap in Hts as (h & -> & Hh).
      apply list_elem_of_In, list_elem_of_filter in Hin as [Heq Ht].
      split; [done|]. rewrite Heq. by apply list_elem_of_fmap_2.
    + intros [Ht (h & Heq & Hh)%list_elem_of_fmap].
      apply list_elem_of_In, in_concat. exists (tasks_of m h). split.
      * apply list_elem_of_In. by apply list_elem_of_fmap_2.
      * apply list_elem_of_In. unfold tasks_of. by apply list_elem_of_filter.
  - intros Hnd.
    rewrite (list_filter_iff _ (λ t, hypothesis_id t ∈ hyp_id <$> hypotheses m))
      by (intros t; apply Hsome).
    apply length_tasks_of_hypotheses, Hnd.
Qed.

(** ** The geometry of a card *)

Lemma count_char_split (c : ascii) (s : string) :
  length (str_split c s) = S (count_char c s).
Proof.
  induction s as [|a s IH]; [done|]. cbn [str_split count_char].
  destruct (decide (a = c)) as [->|Hne].
  - simpl. by rewrite IH.
  - destruct (str_split c s) as [|p rest] eqn:E; [done|].
    simpl in *. lia.
Qed.

Lemma round64_exact (p q : Q) : (p == q)%Q → is_double q → (round64 p == q)%Q.
Proof. intros Heq [Hq _]. by rewrite (round64_comp _ _ Heq). Qed.

(** On arguments on which its operations are exact, [create_card_f64] is
    [create_card]: such are the arguments that the converter passes. *)
Lemma create_card_f64_exact (card_id text_id : string) (x y width height : Q)
    (bg_color txt : string) (font_size : Z) (g : rng) :
  card_exact x y width height txt font_size →
  let c64 := create_card_f64 card_id text_id x y width height bg_color txt font_size g in
  let c := create_card card_id text_id x y width height bg_color txt font_size g in
  c64.1.1 = c.1.1 ∧ c64.2 = c.2
  ∧ el_id c64.1.2 = el_id c.1.2 ∧ extra c64.1.2 = extra c.1.2
  ∧ boundElements c64.1.2 = boundElements c.1.2
  ∧ (el_x c64.1.2 == el_x c.1.2)%Q ∧ (el_y c64.1.2 == el_y c.1.2)%Q
  ∧ (el_width c64.1.2 == el_width c.1.2)%Q
  ∧ (el_height c64.1.2 == el_height c.1.2)%Q.
Proof.
  intros (Hn & Hth & Hx & Hw & Hd & Hh & Hy). cbv zeta.
  unfold create_card_f64, create_card.
  cbn -[Qmult Qplus Qminus Qdiv inject_Z Z.of_nat round64 f64_add f64_sub
        f64_mul f64_div f64_of_Z Z.mul].
  set (lines := (Z.of_nat (count_char nl txt) + 1)%Z) in *.
  assert (f64_mul (f64_of_Z (lines * font_size)) (5 # 4)
          == inject_Z lines * inject_Z font_size * (5 # 4))%Q as Hth'.
  { unfold f64_mul, f64_of_Z. rewrite <- inject_Z_mult.
    apply round64_exact; [|exact Hth].
    destruct Hn as [-> _]. reflexivity. }
  assert (inject_Z (lines * font_size) * (5 # 4)
          == inject_Z lines * inject_Z font_size * (5 # 4))%Q as Hmul
    by (by rewrite inject_Z_mult).
  do 5 (split; [reflexivity|]). split; [|split; [|split]].
  - unfold f64_add. by destruct Hx as [-> _].
  - unfold f64_add, f64_div, f64_sub.
    rewrite <- Hmul.
    apply round64_exact; [|exact Hy].
    apply Qplus_comp; [reflexivity|].
    apply round64_exact; [|exact Hh].
    apply Qdiv_comp; [|reflexivity].
    apply round64_exact; [|exact Hd].
    apply Qplus_comp; [reflexivity|]. apply Qopp_comp.
    rewrite Hmul. exact Hth'.
  - unfold f64_sub. by destruct Hw as [-> _].
  - exact Hth'.
Qed.

(** X7.  On arguments on which the operations of [create_card] are exact in
    binary64, the text box is concentric with the rectangle: it is inset by
    10 units on the left and on the right and has equal margins above and
    below.  Its height is 1.25 times the font size for every line of the
    text, and it sticks out of the rectangle exactly when that exceeds the
    height of the card.  Rectangle and text refer to each other. *)
Theorem create_card_text_centered (card_id text_id : string) (x y width height : Q)
    (bg_color txt : string) (font_size : Z) (g : rng) :
  card_exact x y width height txt font_size →
  let rect :=
    (create_card_f64 card_id text_id x y width height bg_color txt font_size g).1.1 in
  let te :=
    (create_card_f64 card_id text_id x y width height bg_color txt font_size g).1.2 in
  let margin := (el_y te - el_y rect)%Q in
  (el_x te - el_x rect == 10)%Q
  ∧ (el_x rect + el_width rect - (el_x te + el_width te) == 10)%Q
  ∧ (el_height te
     == (5 # 4) * inject_Z font_size
        * inject_Z (Z.of_nat (length (str_split nl txt))))%Q
  ∧ (el_y rect + el_height rect - (el_y te + el_height te) == margin)%Q
  ∧ (0 <= margin ↔ el_height te <= height)%Q
  ∧ boundElements rect = [{| ref_id := el_id te; ref_type := "text" |}]
  ∧ container_of te = Some (el_id rect).
Proof.
  intros Hexact.
  destruct (create_card_f64_exact card_id text_id x y width height bg_color txt
              font_size g Hexact)
    as (Hrect & _ & Hid & Hextra & _ & Hx & Hy & Hw & Hh).
  cbv zeta. unfold container_of. rewrite Hrect, Hid, Hextra, Hx, Hy, Hw, Hh.
  unfold create_card. cbn -[Qmult Qplus Qminus Qdiv inject_Z Z.of_nat str_split Qle].
  rewrite count_char_split.
  replace (Z.of_nat (count_char nl txt) + 1)%Z with (Z.of_nat (S (count_char nl txt)))
    by lia.
  set (n := inject_Z (Z.of_nat (S (count_char nl txt)))).
  set (f := inject_Z font_size).
  repeat split.
  - ring.
  - ring.
  - ring.
  - field.
  - generalize (n * f * (5 # 4))%Q. intros t Hm.
    assert ((height - t) / 2 == (1 # 2) * (height - t))%Q as E by field.
    rewrite E in Hm. lra.
  - generalize (n * f * (5 # 4))%Q. intros t Hm.
    assert ((height - t) / 2 == (1 # 2) * (height - t))%Q as E by field.
    rewrite E. lra.
Qed.

Lemma create_card_text_centered_witness :
  let rect := (create_card_f64 "goal-0" "goal-text-0" 100 110 320 200 "#cadf58"
                               ("Goal" +:+ NL +:+ "Increase retention") 12 rng0).1.1 in
  let te := (create_card_f64 "goal-0" "goal-text-0" 100 110 320 200 "#cadf58"
                             ("Goal" +:+ NL +:+ "Increase retention") 12 rng0).1.2 in
  let margin := (el_y te - el_y rect)%Q in
  (el_x te - el_x rect == 10)%Q
  ∧ (el_x rect + el_width rect - (el_x te + el_width te) == 10)%Q
  ∧ (el_height te
     == (5 # 4) * inject_Z 12
        * inject_Z (Z.of_nat (length (str_split nl ("Goal" +:+ NL +:+ "Increase retention")))))%Q
  ∧ (el_y rect + el_height rect - (el_y te + el_height te) == margin)%Q
  ∧ (0 <= margin ↔ el_height te <= 200)%Q
  ∧ boundElements rect = [{| ref_id := el_id te; ref_type := "text" |}]
  ∧ container_of te = Some (el_id rect).
Proof.
  apply (create_card_text_centered "goal-0" "goal-text-0" 100 110 320 200 "#cadf58"
           ("Goal" +:+ NL +:+ "Increase retention") 12 rng0).
  repeat split; by vm_compute.
Defined.

(** Without exactness the insets are rounded: for the double nearest to 1.1
    and a width of 15.5, the right inset is not 10. *)
Lemma create_card_rounded_inset :
  let x := round64 (11 # 10) in
  let rect := (create_card_f64 "c" "t" x 0 (31 # 2) 100 "#cadf58" "text" 12 rng0).1.1 in
  let te := (create_card_f64 "c" "t" x 0 (31 # 2) 100 "#cadf58" "text" 12 rng0).1.2 in
  (round64 x == x)%Q
  ∧ ¬ (el_x rect + el_width rect - (el_x te + el_width te) == 10)%Q.
Proof. cbv zeta. split; by vm_compute. Qed.

(** ** The arrow phase in closed form *)

Lemma add_bounds_app refs1 refs2 e :
  add_bounds (refs1 ++ refs2) e = add_bounds refs2 (add_bounds refs1 e).
Proof. apply foldl_app. Qed.

Lemma add_bounds_type refs : ∀ e, el_type (add_bounds refs e) = el_type e.
Proof.
  induction refs as [|r refs IH]; intros e; [done|].
  unfold add_bounds. rewrite foldl_step. fold (add_bounds refs (append_bound r e)).
  by rewrite IH.
Qed.

Lemma add_bounds_id refs : ∀ e, el_id (add_bounds refs e) = el_id e.
Proof.
  induction refs as [|r refs IH]; intros e; [done|].
  unfold add_bounds. rewrite foldl_step. fold (add_bounds refs (append_bound r e)).
  by rewrite IH.
Qed.

Lemma add_bounds_extra refs : ∀ e, extra (add_bounds refs e) = extra e.
Proof.
  induction refs as [|r refs IH]; intros e; [done|].
  unfold add_bounds. rewrite foldl_step. fold (add_bounds refs (append_bound r e)).
  by rewrite IH.
Qed.

Lemma add_bounds_geometry refs : ∀ e, geometry (add_bounds refs e) = geometry e.
Proof.
  induction refs as [|r refs IH]; intros e; [done|].
  unfold add_bounds. rewrite foldl_step. fold (add_bounds refs (append_bound r e)).
  by rewrite IH.
Qed.

Lemma add_bounds_bound refs : ∀ e,
  boundElements (add_bounds refs e) = boundElements e ++ refs.
Proof.
  induction refs as [|r refs IH]; intros e; [by rewrite app_nil_r|].
  unfold add_bounds. rewrite foldl_step. fold (add_bounds refs (append_bound r e)).
  rewrite IH. simpl. by rewrite <- app_assoc.
Qed.

Lemma arrow_refs_of_app cid l1 l2 :
  arrow_refs_of cid (l1 ++ l2) = arrow_refs_of cid l1 ++ arrow_refs_of cid l2.
Proof. unfold arrow_refs_of. apply bind_app. Qed.

Lemma bound_arrows_type l e : el_type (bound_arrows l e) = el_type e.
Proof. unfold bound_arrows. destruct (decide _); [apply add_bounds_type|done]. Qed.

Lemma bound_arrows_id l e : el_id (bound_arrows l e) = el_id e.
Proof. unfold bound_arrows. destruct (decide _); [apply add_bounds_id|done]. Qed.

Lemma bound_arrows_extra l e : extra (bound_arrows l e) = extra e.
Proof. unfold bound_arrows. destruct (decide _); [apply add_bounds_extra|done]. Qed.

Lemma bound_arrows_geometry l e : geometry (bound_arrows l e) = geometry e.
Proof. unfold bound_arrows. destruct (decide _); [apply add_bounds_geometry|done]. Qed.

Lemma bound_arrows_nil e : bound_arrows [] e = e.
Proof. unfold bound_arrows. by destruct (decide _). Qed.

Lemma bound_arrows_snoc l a from to e :
  arrow_start a = Some from → arrow_end a = Some to →
  bind_map to (el_id a) (bind_map from (el_id a) (bound_arrows l e))
  = bound_arrows (l ++ [a]) e.
Proof.
  intros Hs He. unfold bound_arrows.
  destruct (decide (el_type e = "rectangle")) as [Hr|Hr].
  - rewrite arrow_refs_of_app, add_bounds_app.
    set (e1 := add_bounds (arrow_refs_of (el_id e) l) e).
    assert (el_type e1 = "rectangle") as Ht1 by (unfold e1; by rewrite add_bounds_type).
    assert (el_id e1 = el_id e) as Hi1 by (unfold e1; by rewrite add_bounds_id).
    unfold arrow_refs_of. simpl. rewrite app_nil_r, Hs, He, <- Hi1.
    unfold bind_map at 2.
    destruct (decide (el_type e1 = "rectangle" ∧ el_id e1 = from)) as [[_ Hf]|Hf].
    + destruct (decide (Some from = Some (el_id e1))) as [_|Hn]; [|by rewrite Hf in Hn].
      unfold bind_map. simpl.
      destruct (decide (el_type e1 = "rectangle" ∧ el_id e1 = to)) as [[_ Hto]|Hto].
      * destruct (decide (Some to = Some (el_id e1))) as [_|Hn]; [|by rewrite Hto in Hn].
        done.
      * destruct (decide (Some to = Some (el_id e1))) as [[= Hn]|_]; [|done].
        destruct Hto. done.
    + destruct (decide (Some from = Some (el_id e1))) as [[= Hn]|_].
      { destruct Hf. done. }
      unfold bind_map.
      destruct (decide (el_type e1 = "rectangle" ∧ el_id e1 = to)) as [[_ Hto]|Hto].
      * destruct (decide (Some to = Some (el_id e1))) as [_|Hn]; [|by rewrite Hto in Hn].
        done.
      * destruct (decide (Some to = Some (el_id e1))) as [[= Hn]|_]; [|done].
        destruct Hto. done.
  - unfold bind_map.
    destruct (decide (el_type e = "rectangle" ∧ el_id e = from)) as [[? _]|_]; [done|].
    destruct (decide (el_type e = "rectangle" ∧ el_id e = to)) as [[? _]|_]; done.
Qed.

Lemma connect_calls_closed ce L calls : ∀ st,
  binder_ok ce st →
  els st = bound_arrows (arrows st) <$> L →
  els (foldl (connect_call ce) st calls)
  = bound_arrows (arrows (foldl (connect_call ce) st calls)) <$> L.
Proof.
  induction calls as [|c calls IH]; intros st Hok Hels; [done|].
  rewrite foldl_step. apply IH; [by apply binder_ok_connect|].
  destruct (connect_call_arrow ce st c) as (a & Harr & Hcall & Hid).
  rewrite connect_call_els by apply Hok.
  rewrite Harr, Hels, <- !list_fmap_compose.
  apply list_fmap_ext. intros i e _. simpl. rewrite <- Hid.
  destruct Hcall as (_ & Hs & He & _).
  by apply bound_arrows_snoc.
Qed.

Lemma final_closed_form `{PyStr} m title g :
  els (final_binder m title g)
  = bound_arrows (arrows (final_binder m title g)) <$> elements (lay_out m title g).
Proof.
  unfold final_binder. apply connect_calls_closed.
  - apply binder_ok_initial.
  - simpl. rewrite <- (list_fmap_id (elements _)) at 1.
    apply list_fmap_ext. intros i e _. by rewrite bound_arrows_nil.
Qed.

Lemma connect_calls_ids ce calls : ∀ st,
  el_id <$> arrows (foldl (connect_call ce) st calls)
  = (el_id <$> arrows st)
    ++ ((λ k, "arrow-" +:+ pretty k) <$> seq (arrow_idx st) (length calls)).
Proof.
  induction calls as [|c calls IH]; intros st.
  - simpl. by rewrite app_nil_r.
  - rewrite foldl_step, IH, connect_call_idx.
    destruct (connect_call_arrow ce st c) as (a & -> & _ & Hid).
    rewrite fmap_app, <- app_assoc. simpl. by rewrite Hid.
Qed.

Lemma connect_calls_bound ce calls : ∀ st,
  Forall (λ a, boundElements a = []) (arrows st) →
  Forall (λ a, boundElements a = []) (arrows (foldl (connect_call ce) st calls)).
Proof.
  induction calls as [|c calls IH]; intros st Hst; [done|].
  rewrite foldl_step. apply IH. rewrite connect_call_arrows.
  apply Forall_app. split; [done|]. by repeat constructor.
Qed.

Lemma final_arrow_ids `{PyStr} m title g :
  el_id <$> arrows (final_binder m title g)
  = (λ k, "arrow-" +:+ pretty k)
    <$> seq 0 (length (arrows (final_binder m title g))).
Proof.
  pose proof (Forall2_length _ _ _ (final_arrows m title g)) as Hlen.
  unfold final_binder in *. rewrite connect_calls_ids. simpl. by rewrite Hlen.
Qed.

(** ** The cards of the layout, one by one *)

Lemma calls_elements_card calls : ∀ g j c,
  calls !! j = Some c →
  ∃ g',
    calls_elements calls g !! (2 * j)
    = Some (create_card (call_card c) (call_text_id c) (call_x c) (call_y c)
                        (call_w c) (call_h c) (call_bg c) (call_txt c)
                        (call_font c) g').1.1
    ∧ calls_elements calls g !! (2 * j + 1)
      = Some (create_card (call_card c) (call_text_id c) (call_x c) (call_y c)
                          (call_w c) (call_h c) (call_bg c) (call_txt c)
                          (call_font c) g').1.2.
Proof.
  induction calls as [|c0 calls IH]; intros g j c Hj; [done|].
  destruct j as [|j].
  - injection Hj as ->. exists g. cbn [calls_elements].
    destruct (create_card _ _ _ _ _ _ _ _ _ g) as [[rect te] g'] eqn:E. done.
  - simpl in Hj. cbn [calls_elements].
    destruct (create_card _ _ _ _ _ _ _ _ _ g) as [[rect te] g'] eqn:E.
    destruct (IH g' j c Hj) as (g'' & H1 & H2). exists g''.
    replace (2 * S j) with (S (S (2 * j))) by lia.
    replace (S (S (2 * j)) + 1) with (S (S (2 * j + 1))) by lia. done.
Qed.

Lemma goal_calls_lookup_eq `{PyStr} gs : ∀ i0 y0 i,
  goal_calls gs i0 y0 !! i
  = goal_call (i0 + i) (row_y y0 (GOAL_H + ROW_SPACING) i) <$> gs !! i.
Proof.
  induction gs as [|x gs IH]; intros i0 y0 i; [done|].
  destruct i as [|i].
  - simpl. by rewrite Nat.add_0_r.
  - cbn [goal_calls lookup list_lookup]. rewrite IH, row_y_shift.
    by replace (S i0 + i) with (i0 + S i) by lia.
Qed.

Lemma subject_calls_lookup_eq `{PyStr} ss : ∀ i0 y0 i,
  subject_calls ss i0 y0 !! i
  = subject_call (i0 + i) (row_y y0 (SUBJECT_H + ROW_SPACING) i) <$> ss !! i.
Proof.
  induction ss as [|x ss IH]; intros i0 y0 i; [done|].
  destruct i as [|i].
  - simpl. by rewrite Nat.add_0_r.
  - cbn [subject_calls lookup list_lookup]. rewrite IH, row_y_shift.
    by replace (S i0 + i) with (i0 + S i) by lia.
Qed.

Lemma hypothesis_calls_lookup_eq `{PyStr} hs : ∀ i0 y0 i,
  hypothesis_calls hs i0 y0 !! i
  = hypothesis_call (i0 + i) (row_y y0 (HYPOTHESIS_H + ROW_SPACING) i) <$> hs !! i.
Proof.
  induction hs as [|x hs IH]; intros i0 y0 i; [done|].
  destruct i as [|i].
  - simpl. by rewrite Nat.add_0_r.
  - cbn [hypothesis_calls lookup list_lookup]. rewrite IH, row_y_shift.
    by replace (S i0 + i) with (i0 + S i) by lia.
Qed.

Lemma task_calls_lookup_eq ts : ∀ j0 start idx j,
  task_calls ts j0 start idx !! j
  = task_call (idx + j) (task_y start (j0 + j)) <$> ts !! j.
Proof.
  induction ts as [|x ts IH]; intros j0 start idx j; [done|].
  destruct j as [|j].
  - simpl. by rewrite !Nat.add_0_r.
  - cbn [task_calls lookup list_lookup]. rewrite IH.
    replace (S idx + j) with (idx + S j) by lia.
    by replace (S j0 + j) with (j0 + S j) by lia.
Qed.

Lemma calls_length_goal `{PyStr} gs : ∀ i y, length (goal_calls gs i y) = length gs.
Proof. induction gs as [|x gs IH]; intros i y; [done|]. simpl. by rewrite IH. Qed.

Lemma calls_length_subject `{PyStr} ss : ∀ i y, length (subject_calls ss i y) = length ss.
Proof. induction ss as [|x ss IH]; intros i y; [done|]. simpl. by rewrite IH. Qed.

Lemma calls_length_hypothesis `{PyStr} hs : ∀ i y,
  length (hypothesis_calls hs i y) = length hs.
Proof. induction hs as [|x hs IH]; intros i y; [done|]. simpl. by rewrite IH. Qed.

Lemma task_phase_cards tb hs : ∀ lay idx,
  (∀ h, h ∈ hs → is_Some (positions lay !! hyp_id h)) →
  ∃ calls,
    foldl (place_hyp_tasks tb) (lay, idx) hs
    = (foldl place_call lay calls, idx + length calls)
    ∧ length calls
      = length (concat ((λ h, default [] (tb !! hyp_id h)) <$> hs))
    ∧ ∀ k t, concat ((λ h, default [] (tb !! hyp_id h)) <$> hs) !! k = Some t →
             ∃ y, calls !! k = Some (task_call (idx + k) y t).
Proof.
  induction hs as [|h hs IH]; intros lay idx Hreg.
  - exists []. simpl. split; [f_equal; lia|done].
  - destruct (Hreg h) as [hyp_pos Hpos]; [constructor|].
    rewrite foldl_step, (place_hyp_tasks_calls _ _ _ _ _ Hpos).
    set (ts := default [] (tb !! hyp_id h)).
    set (c1 := task_calls ts 0 (task_start_y hyp_pos (length ts)) idx).
    assert (length c1 = length ts) as Hlen by apply task_calls_length.
    destruct (IH (foldl place_call lay c1) (idx + length ts)) as (c2 & Hrun & Hlen2 & Hcards).
    { intros h' Hh'. apply positions_calls_is_Some. left. apply Hreg. by constructor. }
    exists (c1 ++ c2). rewrite fmap_cons, concat_cons. fold ts. split; [|split].
    + rewrite Hrun, foldl_app, length_app, Hlen. f_equal. lia.
    + by rewrite !length_app, Hlen, Hlen2.
    + intros k t Hk. destruct (decide (k < length ts)) as [Hlt|Hge].
      * rewrite lookup_app_l in Hk by done. rewrite lookup_app_l by lia.
        unfold c1. rewrite task_calls_lookup_eq, Hk. by eexists.
      * rewrite lookup_app_r in Hk by lia. rewrite lookup_app_r by lia.
        destruct (Hcards _ _ Hk) as [y Hy]. exists y. rewrite Hlen, Hy.
        do 2 f_equal. lia.
Qed.

Section Cards.
Context `{PyStr}.
Variables (m : HypothesisMap) (title : string) (g : rng).

(** The whole layout as one run of [place_card]: the three columns, then
    the cards of the tasks. *)
Lemma lay_out_cards :
  ∃ tc,
    lay_out m title g = foldl place_call (headers title g) (column_calls m ++ tc)
    ∧ length tc = length (placed_tasks m)
    ∧ ∀ k t, placed_tasks m !! k = Some t →
             ∃ y, tc !! k = Some (task_call k y t).
Proof.
  destruct (task_phase_cards (tasks_by_hypothesis (tasks m)) (hypotheses m)
              (columns m title g) 0) as (tc & Hrun & Hlen & Hcards).
  { intros h Hh. by apply columns_registered. }
  rewrite placed_tasks_groups in Hlen, Hcards.
  exists tc. unfold lay_out. rewrite Hrun. simpl fst.
  by rewrite columns_calls, foldl_app.
Qed.

Lemma column_calls_length :
  length (column_calls m)
  = length (goals m) + length (subjects m) + length (hypotheses m).
Proof.
  unfold column_calls.
  rewrite !length_app, calls_length_goal, calls_length_subject, calls_length_hypothesis.
  lia.
Qed.

Lemma column_calls_goal i goal :
  goals m !! i = Some goal →
  column_calls m !! i
  = Some (goal_call i (row_y ROW_START (GOAL_H + ROW_SPACING) i) goal).
Proof.
  intros Hi. unfold column_calls.
  rewrite lookup_app_l
    by (rewrite calls_length_goal; by eapply lookup_lt_Some).
  by rewrite goal_calls_lookup_eq, Hi.
Qed.

Lemma column_calls_subject i s :
  subjects m !! i = Some s →
  column_calls m !! (length (goals m) + i)
  = Some (subject_call i (row_y ROW_START (SUBJECT_H + ROW_SPACING) i) s).
Proof.
  intros Hi. unfold column_calls.
  rewrite lookup_app_r by (rewrite calls_length_goal; lia).
  rewrite calls_length_goal.
  replace (length (goals m) + i - length (goals m)) with i by lia.
  rewrite lookup_app_l
    by (rewrite calls_length_subject; by eapply lookup_lt_Some).
  by rewrite subject_calls_lookup_eq, Hi.
Qed.

Lemma column_calls_hypothesis i h :
  hypotheses m !! i = Some h →
  column_calls m !! (length (goals m) + length (subjects m) + i)
  = Some (hypothesis_call i (row_y ROW_START (HYPOTHESIS_H + ROW_SPACING) i) h).
Proof.
  intros Hi. unfold column_calls.
  rewrite lookup_app_r by (rewrite calls_length_goal; lia).
  rewrite calls_length_goal.
  rewrite lookup_app_r by (rewrite calls_length_subject; lia).
  rewrite calls_length_subject.
  replace (length (goals m) + length (subjects m) + i - length (goals m)
           - length (subjects m)) with i by lia.
  by rewrite hypothesis_calls_lookup_eq, Hi.
Qed.
End Cards.

(** ** The document in closed form *)

Lemma add_bounds_bg refs : ∀ e,
  backgroundColor (add_bounds refs e) = backgroundColor e.
Proof.
  induction refs as [|r refs IH]; intros e; [done|].
  unfold add_bounds. rewrite foldl_step. fold (add_bounds refs (append_bound r e)).
  by rewrite IH.
Qed.

Lemma headers_length title g : length (elements (headers title g)) = 5.
Proof. reflexivity. Qed.

Lemma headers_bound title g e :
  e ∈ elements (headers title g) → boundElements e = [].
Proof.
  intros [k Hk]%list_elem_of_lookup.
  destruct k as [|[|[|[|[|k]]]]]; simpl in Hk; try injection Hk as <-; done.
Qed.

Lemma calls_elements_inv calls : ∀ g e,
  e ∈ calls_elements calls g →
  ∃ j c g',
    calls !! j = Some c
    ∧ (e = (create_card (call_card c) (call_text_id c) (call_x c) (call_y c)
                        (call_w c) (call_h c) (call_bg c) (call_txt c)
                        (call_font c) g').1.1
       ∨ e = (create_card (call_card c) (call_text_id c) (call_x c) (call_y c)
                          (call_w c) (call_h c) (call_bg c) (call_txt c)
                          (call_font c) g').1.2).
Proof.
  induction calls as [|c0 calls IH]; intros g e He.
  - by apply elem_of_nil in He.
  - cbn [calls_elements] in He.
    destruct (create_card _ _ _ _ _ _ _ _ _ g) as [[rect te] g'] eqn:E.
    apply elem_of_cons in He as [->|He].
    { exists 0, c0, g. split; [done|]. left. by rewrite E. }
    apply elem_of_cons in He as [->|He].
    { exists 0, c0, g. split; [done|]. right. by rewrite E. }
    destruct (IH g' e He) as (j & c & g'' & Hj & Hor).
    by exists (S j), c, g''.
Qed.

Lemma task_cards_keys (tc : list card_call) (P : list Task) :
  length tc = length P →
  (∀ k t, P !! k = Some t → ∃ y, tc !! k = Some (task_call k y t)) →
  call_key <$> tc = task_id <$> P
  ∧ call_card <$> tc = (λ k, "task-" +:+ pretty k) <$> seq 0 (length P).
Proof.
  intros Hlen Hcards. split; apply list_eq; intros i; rewrite !list_lookup_fmap.
  - destruct (P !! i) as [t|] eqn:E.
    + destruct (Hcards i t E) as [y ->]. done.
    + apply lookup_ge_None in E. rewrite (proj2 (lookup_ge_None tc i)) by lia. done.
  - destruct (P !! i) as [t|] eqn:E.
    + destruct (Hcards i t E) as [y ->]. apply lookup_lt_Some in E.
      by rewrite lookup_seq_lt by done.
    + apply lookup_ge_None in E. rewrite (proj2 (lookup_ge_None tc i)) by lia.
      by rewrite lookup_seq_ge by done.
Qed.

Lemma count_type_fmap (f : element → element) (ty : string) (l : list element) :
  (∀ e, el_type (f e) = el_type e) →
  length (filter (λ e, el_type e = ty) (f <$> l))
  = length (filter (λ e, el_type e = ty) l).
Proof.
  intros Hf. induction l as [|e l IH]; [done|].
  rewrite fmap_cons, !filter_cons, Hf.
  destruct (decide (el_type e = ty)); simpl; by rewrite IH.
Qed.

Lemma calls_elements_count calls : ∀ g,
  length (filter (λ e, el_type e = "rectangle") (calls_elements calls g))
  = length calls
  ∧ length (filter (λ e, el_type e = "text") (calls_elements calls g))
    = length calls.
Proof.
  induction calls as [|c calls IH]; intros g; [done|].
  cbn [calls_elements].
  destruct (create_card_spec (call_card c) (call_text_id c) (call_x c) (call_y c)
              (call_w c) (call_h c) (call_bg c) (call_txt c) (call_font c) g)
    as (rect & te & g' & -> & Hr & Ht).
  destruct Hr as (_ & Hrt & _). destruct Ht as (_ & Htt & _).
  destruct (IH g') as [IH1 IH2].
  rewrite !filter_cons, Hrt, Htt. simpl. rewrite IH1, IH2. done.
Qed.

Section Form.
Context `{PyStr}.
Variables (m : HypothesisMap) (title : string) (g : rng).

Lemma document_form :
  ∃ doc tc,
    convert_to_excalidraw m title g = Some doc
    ∧ doc_type doc = "excalidraw" ∧ doc_version doc = 2%Z ∧ files doc = []
    ∧ lay_out m title g
      = foldl place_call (headers title g) (column_calls m ++ tc)
    ∧ length tc = length (placed_tasks m)
    ∧ (∀ k t, placed_tasks m !! k = Some t →
              ∃ y, tc !! k = Some (task_call k y t))
    ∧ doc_elements doc
      = (bound_arrows (arrows (final_binder m title g))
         <$> (elements (headers title g)
              ++ calls_elements (column_calls m ++ tc) (gen (headers title g))))
        ++ arrows (final_binder m title g).
Proof.
  destruct (lay_out_cards m title g) as (tc & Hlay & Hlen & Hcards).
  unfold convert_to_excalidraw. rewrite bind_arrows_final. simpl.
  eexists _, tc. split; [reflexivity|]. simpl.
  do 3 (split; [done|]). split; [done|]. split; [done|]. split; [done|].
  by rewrite final_closed_form, Hlay, elements_calls.
Qed.

Lemma form_calls_length tc :
  length tc = length (placed_tasks m) →
  length (column_calls m ++ tc) = card_count m.
Proof.
  intros Hlen. rewrite length_app, column_calls_length, Hlen. done.
Qed.

Lemma form_calls_ids tc :
  length tc = length (placed_tasks m) →
  (∀ k t, placed_tasks m !! k = Some t → ∃ y, tc !! k = Some (task_call k y t)) →
  call_key <$> column_calls m ++ tc = registered m
  ∧ call_card <$> column_calls m ++ tc = card_ids m.
Proof.
  intros Hlen Hcards.
  destruct (task_cards_keys tc (placed_tasks m) Hlen Hcards) as [Hk Hc].
  unfold column_calls, registered, card_ids. rewrite !fmap_app.
  rewrite goal_calls_keys, subject_calls_keys, hypothesis_calls_keys, Hk.
  rewrite goal_calls_cards, subject_calls_cards, hypothesis_calls_cards, Hc.
  by rewrite <- !app_assoc.
Qed.

(** The card made by the [j]-th call of [place_card] sits in the document
    at the indices [5 + 2j] and [5 + 2j + 1]. *)
Lemma form_card_at (l arrs : list element) (calls : list card_call) j c :
  l = (bound_arrows arrs
       <$> (elements (headers title g)
            ++ calls_elements calls (gen (headers title g)))) ++ arrs →
  calls !! j = Some c →
  card_at l j c.
Proof.
  intros -> Hj.
  destruct (calls_elements_card calls (gen (headers title g)) j c Hj)
    as (g' & Hr & Ht).
  pose proof (lookup_lt_Some _ _ _ Hj) as Hlt.
  pose proof (calls_elements_length calls (gen (headers title g))) as Hlen.
  set (rect0 := (create_card (call_card c) (call_text_id c) (call_x c) (call_y c)
                   (call_w c) (call_h c) (call_bg c) (call_txt c)
                   (call_font c) g').1.1) in *.
  set (te0 := (create_card (call_card c) (call_text_id c) (call_x c) (call_y c)
                 (call_w c) (call_h c) (call_bg c) (call_txt c)
                 (call_font c) g').1.2) in *.
  exists (bound_arrows arrs rect0), (bound_arrows arrs te0).
  assert (bound_arrows arrs te0 = te0) as Hte.
  { unfold bound_arrows. destruct (decide _) as [Hty|]; [|done].
    unfold te0 in Hty. simpl in Hty. done. }
  split; [|split].
  - rewrite lookup_app_l
      by (rewrite length_fmap, length_app, headers_length, Hlen; lia).
    rewrite list_lookup_fmap, lookup_app_r by (rewrite headers_length; lia).
    rewrite headers_length.
    replace (5 + 2 * j - 5) with (2 * j) by lia. by rewrite Hr.
  - rewrite lookup_app_l
      by (rewrite length_fmap, length_app, headers_length, Hlen; lia).
    rewrite list_lookup_fmap, lookup_app_r by (rewrite headers_length; lia).
    rewrite headers_length.
    replace (5 + 2 * j + 1 - 5) with (2 * j + 1) by lia. by rewrite Ht.
  - rewrite Hte, bound_arrows_type, bound_arrows_id, bound_arrows_geometry.
    repeat split.
    + unfold bound_arrows. simpl. by rewrite add_bounds_bg.
    + unfold bound_arrows. simpl. by rewrite add_bounds_bound.
Qed.
End Form.

(** ** The document as a whole *)

Lemma filter_none {A} (P : A → Prop) `{∀ x, Decision (P x)} (l : list A) :
  (∀ x, x ∈ l → ¬ P x) → filter P l = [].
Proof.
  induction l as [|x l IH]; intros Hall; [done|].
  rewrite filter_cons. destruct (decide (P x)) as [Hp|_].
  - destruct (Hall x); [constructor|done].
  - apply IH. intros y Hy. apply Hall. by constructor.
Qed.

Lemma filter_all {A} (P : A → Prop) `{∀ x, Decision (P x)} (l : list A) :
  (∀ x, x ∈ l → P x) → filter P l = l.
Proof.
  induction l as [|x l IH]; intros Hall; [done|].
  rewrite filter_cons. destruct (decide (P x)) as [_|Hn].
  - f_equal. apply IH. intros y Hy. apply Hall. by constructor.
  - destruct Hn. apply Hall. constructor.
Qed.

Section Whole.
Context `{PyStr}.
Variables (m : HypothesisMap) (title : string) (g : rng).

Lemma final_arrows_bound a :
  a ∈ arrows (final_binder m title g) → boundElements a = [].
Proof.
  intros Ha. unfold final_binder in Ha.
  pose proof (connect_calls_bound (card_elements (lay_out m title g))
                (arrow_calls m (positions (lay_out m title g)))
                (initial_binder (lay_out m title g))) as Hall.
  specialize (Hall (List.Forall_nil _)). rewrite Forall_forall in Hall. by apply Hall.
Qed.

Lemma layout_types e :
  e ∈ elements (lay_out m title g) →
  el_type e = "text" ∨ el_type e = "rectangle".
Proof.
  destruct (lay_out_cards m title g) as (tc & -> & _).
  rewrite elements_calls. intros [He|He]%elem_of_app.
  - left. by apply headers_elements in He as [? _].
  - apply calls_elements_inv in He as (j & c & g' & _ & [->| ->]); [by right|by left].
Qed.

Lemma document_arrows (doc : document) :
  doc_elements doc
  = (bound_arrows (arrows (final_binder m title g))
     <$> elements (lay_out m title g)) ++ arrows (final_binder m title g) →
  filter (λ e, el_type e = "arrow") (doc_elements doc)
  = arrows (final_binder m title g).
Proof.
  intros ->. rewrite filter_app, filter_none, filter_all; [done| |].
  - intros a Ha. by apply final_arrow_types in Ha as [? _].
  - intros e (e0 & -> & He0)%list_elem_of_fmap. rewrite bound_arrows_type.
    by destruct (layout_types e0 He0) as [-> | ->].
Qed.

(** X8.  The conversion never fails, whatever the map.  The document lists
    the title and the four headers, then for every card its rectangle
    followed by its text, then the connectors: so connectors are drawn
    above the cards.  The rectangles carry the identifiers of [card_ids]
    in order, every text names its rectangle as container, and the
    connectors are numbered from ["arrow-0"] in order. *)
Theorem document_order :
  ∃ doc,
    convert_to_excalidraw m title g = Some doc
    ∧ doc_type doc = "excalidraw" ∧ doc_version doc = 2%Z ∧ files doc = []
    ∧ length (doc_elements doc)
      = 5 + 2 * card_count m + connector_count (doc_elements doc)
    ∧ ∀ i e, doc_elements doc !! i = Some e →
        (i < 5 →
           el_type e = "text" ∧ container_of e = None ∧ boundElements e = [])
        ∧ (∀ k, i = 5 + 2 * k → k < card_count m →
             el_type e = "rectangle" ∧ card_ids m !! k = Some (el_id e))
        ∧ (∀ k, i = 5 + 2 * k + 1 → k < card_count m →
             el_type e = "text" ∧ container_of e = card_ids m !! k
             ∧ boundElements e = [])
        ∧ (5 + 2 * card_count m ≤ i →
             el_type e = "arrow" ∧ boundElements e = []
             ∧ el_id e = "arrow-" +:+ pretty (i - (5 + 2 * card_count m))).
Proof.
  destruct (document_form m title g) as (doc & tc & Hdoc & Hty & Hver & Hfiles & Hlay
                             & Hlen & Hcards & Hels).
  exists doc. do 4 (split; [done|]).
  pose proof (form_calls_length m tc Hlen) as Hn.
  destruct (form_calls_ids m tc Hlen Hcards) as [_ Hids].
  set (calls := column_calls m ++ tc) in *.
  set (A := arrows (final_binder m title g)) in *.
  assert (length (bound_arrows A
                  <$> elements (headers title g)
                      ++ calls_elements calls (gen (headers title g)))
          = 5 + 2 * card_count m) as Hfront.
  { by rewrite length_fmap, length_app, headers_length, calls_elements_length, Hn. }
  assert (filter (λ e, el_type e = "arrow") (doc_elements doc) = A) as Harr.
  { apply document_arrows. by rewrite Hels, Hlay, elements_calls. }
  split.
  { unfold connector_count. rewrite Harr, Hels, length_app, Hfront. done. }
  intros i e Hi. split; [|split; [|split]].
  - intros Hlt. rewrite Hels in Hi.
    rewrite lookup_app_l, list_lookup_fmap, lookup_app_l in Hi
      by (rewrite ?Hfront, ?headers_length; lia).
    destruct (elements (headers title g) !! i) as [e0|] eqn:E; [|done].
    injection Hi as <-. apply list_elem_of_lookup_2 in E.
    pose proof (headers_bound _ _ _ E) as Hb.
    apply headers_elements in E as (Ht & Hc & _).
    unfold bound_arrows. rewrite Ht. simpl. done.
  - intros k -> Hk.
    destruct (lookup_lt_is_Some_2 calls k) as [c Hc]; [lia|].
    destruct (form_card_at title g _ A calls k c Hels Hc)
      as (rect & te & Hr & _ & Hrt & Hrid & _).
    rewrite Hr in Hi. injection Hi as <-. split; [done|].
    by rewrite <- Hids, list_lookup_fmap, Hc, Hrid.
  - intros k -> Hk.
    destruct (lookup_lt_is_Some_2 calls k) as [c Hc]; [lia|].
    destruct (form_card_at title g _ A calls k c Hels Hc)
      as (rect & te & _ & Ht & _ & _ & _ & _ & _ & Htt & _ & Hcont & _ & Hb).
    rewrite Ht in Hi. injection Hi as <-. split; [done|]. split; [|done].
    by rewrite <- Hids, list_lookup_fmap, Hc, Hcont.
  - intros Hge. rewrite Hels in Hi.
    rewrite lookup_app_r in Hi by (rewrite Hfront; lia). rewrite Hfront in Hi.
    pose proof (list_elem_of_lookup_2 _ _ _ Hi) as Hin.
    split; [by apply final_arrow_types in Hin as [? _]|].
    split; [by apply final_arrows_bound|].
    pose proof (final_arrow_ids m title g) as Hid. fold A in Hid.
    assert ((el_id <$> A) !! (i - (5 + 2 * card_count m)) = Some (el_id e)) as Hl
      by (by rewrite list_lookup_fmap, Hi).
    rewrite Hid, list_lookup_fmap in Hl.
    rewrite lookup_seq_lt in Hl by (by eapply lookup_lt_Some).
    simpl in Hl. by injection Hl as <-.
Qed.

(** X9.  The arrow phase leaves every element of the layout in place and
    changes nothing but the bound lists of the rectangles: the document is
    the layout, each rectangle with the entries of the connectors that
    start from it or end at it appended in the order of the connectors,
    followed by the connectors. *)
Theorem arrows_extend_bound_lists :
  ∃ doc,
    convert_to_excalidraw m title g = Some doc
    ∧ doc_elements doc
      = (bound_arrows (filter (λ e, el_type e = "arrow") (doc_elements doc))
         <$> elements (lay_out m title g))
        ++ filter (λ e, el_type e = "arrow") (doc_elements doc).
Proof.
  destruct (document_form m title g) as (doc & tc & Hdoc & _ & _ & _ & Hlay & _ & _ & Hels).
  exists doc. split; [done|].
  rewrite <- elements_calls, <- Hlay in Hels.
  by rewrite (document_arrows doc Hels).
Qed.

(** X10.  Where the cards are.  The card of the [i]-th goal is the [i]-th
    card of the document, then come the cards of the subjects, of the
    hypotheses and of the tasks; the rows of a column start at
    [ROW_START] and are one card height plus [ROW_SPACING] apart, and the
    text of a card is the text built for its entity. *)
Theorem column_cards :
  ∃ doc,
    convert_to_excalidraw m title g = Some doc
    ∧ (∀ i goal, goals m !! i = Some goal →
         card_at (doc_elements doc) i
           (goal_call i (row_y ROW_START (GOAL_H + ROW_SPACING) i) goal))
    ∧ (∀ i s, subjects m !! i = Some s →
         card_at (doc_elements doc) (length (goals m) + i)
           (subject_call i (row_y ROW_START (SUBJECT_H + ROW_SPACING) i) s))
    ∧ (∀ i h, hypotheses m !! i = Some h →
         card_at (doc_elements doc)
           (length (goals m) + length (subjects m) + i)
           (hypothesis_call i (row_y ROW_START (HYPOTHESIS_H + ROW_SPACING) i) h))
    ∧ (∀ k t, placed_tasks m !! k = Some t →
         ∃ y, card_at (doc_elements doc)
                (length (goals m) + length (subjects m)
                 + length (hypotheses m) + k)
                (task_call k y t))
    ∧ ∀ y0 pitch i,
        (row_y y0 pitch i == y0 + inject_Z (Z.of_nat i) * pitch)%Q.
Proof.
  destruct (document_form m title g) as (doc & tc & Hdoc & _ & _ & _ & Hlay & Hlen
                             & Hcards & Hels).
  exists doc. split; [done|].
  split; [|split; [|split; [|split]]].
  - intros i goal Hi. eapply form_card_at; [exact Hels|].
    rewrite lookup_app_l
      by (rewrite column_calls_length; apply lookup_lt_Some in Hi; lia).
    by apply column_calls_goal.
  - intros i s Hi. eapply form_card_at; [exact Hels|].
    rewrite lookup_app_l
      by (rewrite column_calls_length; apply lookup_lt_Some in Hi; lia).
    by apply column_calls_subject.
  - intros i h Hi. eapply form_card_at; [exact Hels|].
    rewrite lookup_app_l
      by (rewrite column_calls_length; apply lookup_lt_Some in Hi; lia).
    by apply column_calls_hypothesis.
  - intros k t Hk. destruct (Hcards k t Hk) as [y Hy]. exists y.
    eapply form_card_at; [exact Hels|].
    rewrite lookup_app_r by (rewrite column_calls_length; lia).
    rewrite column_calls_length.
    replace (length (goals m) + length (subjects m) + length (hypotheses m) + k
             - (length (goals m) + length (subjects m) + length (hypotheses m)))
      with k by lia.
    done.
  - apply row_y_value.
Qed.
End Whole.

(** ** Bound lists and bindings *)

Lemma connect_calls_made ce calls : ∀ st a,
  a ∈ arrows (foldl (connect_call ce) st calls) →
  a ∈ arrows st
  ∨ ∃ c id g',
      c ∈ calls
      ∧ a = (create_arrow id (pos_card (from_pos c)) (pos_card (to_pos c))
               (pos_x (from_pos c)) (pos_y (from_pos c) + pos_h (from_pos c) / 2)
               (pos_x (to_pos c) + pos_w (to_pos c))
               (pos_y (to_pos c) + pos_h (to_pos c) / 2)
               (arrow_color c) (arrow_stroke c) g').1.
Proof.
  induction calls as [|c calls IH]; intros st a Ha; [by left|].
  rewrite foldl_step in Ha. apply IH in Ha as [Ha|(c' & id & g' & Hc' & ->)].
  - rewrite connect_call_arrows in Ha. apply elem_of_app in Ha as [Ha|Ha]; [by left|].
    apply list_elem_of_singleton in Ha as ->. right.
    exists c, ("arrow-" +:+ pretty (arrow_idx st)), (bgen st).
    split; [constructor|done].
  - right. exists c', id, g'. split; [by constructor|done].
Qed.

Lemma arrow_calls_pos m P c :
  c ∈ arrow_calls m P →
  (∃ k, P !! k = Some (from_pos c)) ∧ (∃ k, P !! k = Some (to_pos c)).
Proof.
  unfold arrow_calls. rewrite !elem_of_app, !list_elem_of_omap.
  intros [(s & _ & Hc)|[(h & _ & Hc)|(t & _ & Hc)]].
  - unfold subject_arrow_call in Hc. destruct (goals m) as [|goal0 ?]; [done|].
    destruct (P !! subject_id s) as [sp'|] eqn:E1; [|done].
    destruct (P !! goal_id goal0) as [gp|] eqn:E2; [|done].
    injection Hc as <-. simpl. eauto.
  - unfold hyp_arrow_call in Hc. destruct (hyp_subject_id h) as [sid|]; [|done].
    simpl in Hc. destruct (decide (sid = "")); [done|].
    destruct (P !! sid) as [sp'|] eqn:E1; [|done].
    destruct (P !! hyp_id h) as [hp|] eqn:E2; [|done].
    injection Hc as <-. simpl. eauto.
  - unfold task_arrow_call in Hc.
    destruct (P !! hypothesis_id t) as [hp|] eqn:E1; [|done].
    destruct (P !! task_id t) as [tp|] eqn:E2; [|done].
    injection Hc as <-. simpl. eauto.
Qed.

Lemma arrow_ref_listed (cid : string) (l : list element) (a : element) :
  a ∈ l → arrow_start a = Some cid ∨ arrow_end a = Some cid →
  arrow_ref a ∈ arrow_refs_of cid l.
Proof.
  intros Ha Hor. unfold arrow_refs_of. apply list_elem_of_bind. exists a.
  split; [|done]. apply elem_of_app.
  destruct Hor as [Hs|He].
  - left. rewrite decide_True by done. constructor.
  - right. rewrite decide_True by done. constructor.
Qed.

Lemma arrow_refs_of_inv (cid : string) (l : list element) (r : bound_ref) :
  r ∈ arrow_refs_of cid l →
  ∃ a, a ∈ l ∧ r = arrow_ref a
       ∧ (arrow_start a = Some cid ∨ arrow_end a = Some cid).
Proof.
  unfold arrow_refs_of. intros (a & Hr & Ha)%list_elem_of_bind. exists a.
  split; [done|]. apply elem_of_app in Hr as [Hr|Hr].
  - destruct (decide (arrow_start a = Some cid)); [|by apply elem_of_nil in Hr].
    apply list_elem_of_singleton in Hr. auto.
  - destruct (decide (arrow_end a = Some cid)); [|by apply elem_of_nil in Hr].
    apply list_elem_of_singleton in Hr. auto.
Qed.

Section Bindings.
Context `{PyStr}.
Variables (m : HypothesisMap) (title : string) (g : rng).

(** A card of the document with its exact bound list. *)
Lemma form_card_bound (l arrs : list element) (calls : list card_call) j c :
  l = (bound_arrows arrs
       <$> (elements (headers title g)
            ++ calls_elements calls (gen (headers title g)))) ++ arrs →
  calls !! j = Some c →
  ∃ rect te,
    l !! (5 + 2 * j) = Some rect ∧ l !! (5 + 2 * j + 1) = Some te
    ∧ el_type rect = "rectangle" ∧ el_id rect = call_card c
    ∧ geometry rect = (call_x c, call_y c, call_w c, call_h c)
    ∧ el_type te = "text" ∧ container_of te = Some (call_card c)
    ∧ boundElements rect = text_ref te :: arrow_refs_of (call_card c) arrs.
Proof.
  intros -> Hj.
  destruct (calls_elements_card calls (gen (headers title g)) j c Hj)
    as (g' & Hr & Ht).
  pose proof (lookup_lt_Some _ _ _ Hj) as Hlt.
  pose proof (calls_elements_length calls (gen (headers title g))) as Hlen.
  set (rect0 := (create_card (call_card c) (call_text_id c) (call_x c) (call_y c)
                   (call_w c) (call_h c) (call_bg c) (call_txt c)
                   (call_font c) g').1.1) in *.
  set (te0 := (create_card (call_card c) (call_text_id c) (call_x c) (call_y c)
                 (call_w c) (call_h c) (call_bg c) (call_txt c)
                 (call_font c) g').1.2) in *.
  exists (bound_arrows arrs rect0), (bound_arrows arrs te0).
  assert (bound_arrows arrs te0 = te0) as Hte.
  { unfold bound_arrows. destruct (decide _) as [Hty|]; [|done].
    unfold te0 in Hty. simpl in Hty. done. }
  split; [|split].
  - rewrite lookup_app_l
      by (rewrite length_fmap, length_app, headers_length, Hlen; lia).
    rewrite list_lookup_fmap, lookup_app_r by (rewrite headers_length; lia).
    rewrite headers_length.
    replace (5 + 2 * j - 5) with (2 * j) by lia. by rewrite Hr.
  - rewrite lookup_app_l
      by (rewrite length_fmap, length_app, headers_length, Hlen; lia).
    rewrite list_lookup_fmap, lookup_app_r by (rewrite headers_length; lia).
    rewrite headers_length.
    replace (5 + 2 * j + 1 - 5) with (2 * j + 1) by lia. by rewrite Ht.
  - rewrite Hte, bound_arrows_type, bound_arrows_id, bound_arrows_geometry.
    do 5 (split; [done|]).
    unfold bound_arrows. simpl. by rewrite add_bounds_bound.
Qed.

(** X11.  The bound list of every rectangle, exactly: first the entry of
    its text, the element that follows it, then for every connector of the
    document, in order, one entry if the connector starts from the
    rectangle and one more if it ends at it. *)
Theorem bound_elements_exact :
  ∃ doc,
    convert_to_excalidraw m title g = Some doc
    ∧ ∀ k, k < card_count m →
        ∃ rect te,
          doc_elements doc !! (5 + 2 * k) = Some rect
          ∧ doc_elements doc !! (5 + 2 * k + 1) = Some te
          ∧ el_type rect = "rectangle"
          ∧ el_type te = "text" ∧ container_of te = Some (el_id rect)
          ∧ boundElements rect
            = text_ref te
              :: arrow_refs_of (el_id rect)
                   (filter (λ e, el_type e = "arrow") (doc_elements doc)).
Proof.
  destruct (document_form m title g)
    as (doc & tc & Hdoc & _ & _ & _ & Hlay & Hlen & Hcards & Hels).
  exists doc. split; [done|]. intros k Hk.
  rewrite <- (form_calls_length m tc Hlen) in Hk.
  destruct (lookup_lt_is_Some_2 _ _ Hk) as [c Hc].
  destruct (form_card_bound _ _ _ k c Hels Hc)
    as (rect & te & Hr & Ht & Hrt & Hid & _ & Htt & Hcont & Hb).
  exists rect, te. rewrite Hid. do 5 (split; [done|]).
  rewrite (document_arrows m title g doc); [done|].
  by rewrite Hels, Hlay, elements_calls.
Qed.

Lemma registry_card (doc : document) (tc : list card_call) k p :
  lay_out m title g
  = foldl place_call (headers title g) (column_calls m ++ tc) →
  doc_elements doc
  = (bound_arrows (arrows (final_binder m title g))
     <$> (elements (headers title g)
          ++ calls_elements (column_calls m ++ tc) (gen (headers title g))))
    ++ arrows (final_binder m title g) →
  positions (lay_out m title g) !! k = Some p →
  ∃ rect,
    rect ∈ doc_elements doc ∧ el_type rect = "rectangle"
    ∧ el_id rect = pos_card p
    ∧ geometry rect = (pos_x p, pos_y p, pos_w p, pos_h p)
    ∧ ∀ a, a ∈ arrows (final_binder m title g) →
           arrow_start a = Some (pos_card p) ∨ arrow_end a = Some (pos_card p) →
           arrow_ref a ∈ boundElements rect.
Proof.
  intros Hlay Hels Hp. rewrite Hlay in Hp.
  apply positions_calls_value in Hp as [Hp|(c & Hc & _ & ->)].
  { by rewrite headers_positions, lookup_empty in Hp. }
  apply list_elem_of_lookup in Hc as [j Hj].
  destruct (form_card_bound _ _ _ j c Hels Hj)
    as (rect & te & Hr & _ & Hrt & Hid & Hgeo & _ & _ & Hb).
  exists rect. split; [by eapply list_elem_of_lookup_2|].
  do 3 (split; [done|]).
  intros a Ha Hor. rewrite Hb. apply elem_of_cons. right.
  by apply arrow_ref_listed.
Qed.

(** X12.  Every connector is anchored on two rectangles of the document:
    it starts at the middle of the left edge of the rectangle named by its
    start binding and ends at the middle of the right edge of the one
    named by its end binding, and both rectangles list it in their bound
    lists. *)
Theorem arrow_anchors :
  ∃ doc,
    convert_to_excalidraw m title g = Some doc
    ∧ ∀ a, a ∈ doc_elements doc → el_type a = "arrow" →
        ∃ r1 r2,
          r1 ∈ doc_elements doc ∧ r2 ∈ doc_elements doc
          ∧ el_type r1 = "rectangle" ∧ el_type r2 = "rectangle"
          ∧ arrow_start a = Some (el_id r1) ∧ arrow_end a = Some (el_id r2)
          ∧ arrow_ref a ∈ boundElements r1 ∧ arrow_ref a ∈ boundElements r2
          ∧ el_x a = el_x r1 ∧ el_y a = (el_y r1 + el_height r1 / 2)%Q
          ∧ arrow_points a
            = [(0, 0)%Q;
               ((el_x r2 + el_width r2 - el_x r1)%Q,
                (el_y r2 + el_height r2 / 2 - (el_y r1 + el_height r1 / 2))%Q)].
Proof.
  destruct (document_form m title g)
    as (doc & tc & Hdoc & _ & _ & _ & Hlay & Hlen & Hcards & Hels).
  exists doc. split; [done|]. intros a Ha Hta.
  assert (a ∈ arrows (final_binder m title g)) as HaA.
  { rewrite <- (document_arrows m title g doc)
      by (by rewrite Hels, Hlay, elements_calls).
    by apply list_elem_of_filter. }
  pose proof HaA as Hmade. unfold final_binder in Hmade.
  apply connect_calls_made in Hmade as [Hnil|(c & id & g' & Hc & Heq)].
  { by apply elem_of_nil in Hnil. }
  destruct (arrow_calls_pos _ _ _ Hc) as [[k1 Hk1] [k2 Hk2]].
  destruct (registry_card doc tc k1 _ Hlay Hels Hk1)
    as (r1 & Hr1 & Ht1 & Hid1 & Hg1 & Hb1).
  destruct (registry_card doc tc k2 _ Hlay Hels Hk2)
    as (r2 & Hr2 & Ht2 & Hid2 & Hg2 & Hb2).
  exists r1, r2. do 4 (split; [done|]).
  assert (arrow_start a = Some (pos_card (from_pos c))) as Hs by (by rewrite Heq).
  assert (arrow_end a = Some (pos_card (to_pos c))) as He by (by rewrite Heq).
  unfold geometry in Hg1, Hg2.
  injection Hg1 as Hx1 Hy1 Hw1 Hh1. injection Hg2 as Hx2 Hy2 Hw2 Hh2.
  rewrite Hid1, Hid2, Hx1, Hy1, Hh1, Hx2, Hy2, Hw2, Hh2.
  do 2 (split; [done|]).
  split; [apply Hb1; auto|]. split; [apply Hb2; auto|].
  by rewrite Heq.
Qed.

(** X13.  Only rectangles have bound elements, and every entry of a bound
    list names an element of the document, of the type the entry states,
    that refers back to the rectangle: the text contained in it, or a
    connector that starts from it or ends at it. *)
Theorem bound_refs_resolve :
  ∃ doc,
    convert_to_excalidraw m title g = Some doc
    ∧ ∀ e r, e ∈ doc_elements doc → r ∈ boundElements e →
        el_type e = "rectangle"
        ∧ ∃ e', e' ∈ doc_elements doc
                ∧ el_id e' = ref_id r ∧ el_type e' = ref_type r
                ∧ (container_of e' = Some (el_id e)
                   ∨ arrow_start e' = Some (el_id e)
                   ∨ arrow_end e' = Some (el_id e)).
Proof.
  destruct (document_form m title g)
    as (doc & tc & Hdoc & _ & _ & _ & Hlay & Hlen & Hcards & Hels).
  exists doc. split; [done|]. intros e r He Hr.
  set (A := arrows (final_binder m title g)) in *.
  pose proof He as He'. rewrite Hels in He'.
  apply elem_of_app in He' as [(e0 & -> & He0)%list_elem_of_fmap|HeA].
  2:{ rewrite (final_arrows_bound m title g e HeA) in Hr. by apply elem_of_nil in Hr. }
  apply elem_of_app in He0 as [He0|He0].
  { pose proof (headers_bound _ _ _ He0) as Hb.
    apply headers_elements in He0 as (Ht & _).
    unfold bound_arrows in Hr. rewrite Ht in Hr. simpl in Hr.
    rewrite Hb in Hr. by apply elem_of_nil in Hr. }
  apply calls_elements_inv in He0 as (j & c & g' & Hj & [-> | ->]).
  2:{ unfold bound_arrows in Hr. simpl in Hr. by apply elem_of_nil in Hr. }
  rewrite bound_arrows_type, bound_arrows_id. split; [done|].
  destruct (form_card_bound _ _ _ j c Hels Hj)
    as (rect & te & _ & Ht & _ & _ & _ & Htt & Hcont & _).
  unfold bound_arrows in Hr. simpl in Hr. rewrite add_bounds_bound in Hr.
  simpl in Hr. apply elem_of_cons in Hr as [->|Hr].
  - destruct (form_card_at title g _ A _ j c Hels Hj)
      as (rect' & te' & _ & Ht' & _ & _ & _ & _ & _ & Htt' & Hid' & Hcont' & _).
    exists te'. split; [by eapply list_elem_of_lookup_2|]. simpl. auto.
  - apply arrow_refs_of_inv in Hr as (a & Ha & -> & Hor).
    exists a. split; [rewrite Hels; apply elem_of_app; by right|].
    split; [done|]. simpl.
    split; [by apply final_arrow_types in Ha as [? _]|]. tauto.
Qed.
End Bindings.

(** ** Which cards the connectors join *)

Section Connect.
Context `{PyStr}.
Variables (m : HypothesisMap) (title : string) (g : rng).

Lemma registry_entry (calls : list card_call) j c :
  NoDup (registered m) →
  lay_out m title g = foldl place_call (headers title g) calls →
  call_key <$> calls = registered m →
  calls !! j = Some c →
  positions (lay_out m title g) !! call_key c = Some (call_pos c).
Proof.
  intros Hnd -> Hkeys Hj. apply (positions_calls_lookup_last _ j); [done|].
  rewrite fmap_drop, Hkeys. intros (k & Hk)%list_elem_of_lookup.
  rewrite lookup_drop in Hk.
  assert (registered m !! j = Some (call_key c)) as Hj'
    by (by rewrite <- Hkeys, list_lookup_fmap, Hj).
  pose proof (NoDup_lookup _ _ _ _ Hnd Hj' Hk). lia.
Qed.

Lemma call_arrow_made c :
  c ∈ arrow_calls m (positions (lay_out m title g)) →
  ∃ a, a ∈ arrows (final_binder m title g) ∧ arrow_of_call c a.
Proof.
  intros [i Hi]%list_elem_of_lookup.
  destruct (Forall2_lookup_l _ _ _ _ _ (final_arrows m title g) Hi) as (a & Ha & Hc).
  exists a. split; [by eapply list_elem_of_lookup_2|done].
Qed.

(** X14.  When the identifiers under which cards are registered are
    pairwise distinct, the connectors join the cards of the entities that
    refer to each other: every subject to the first goal, a hypothesis to
    the subject named by its [subject_id], a task to its hypothesis, with
    the colour and width of the kind of link. *)
Theorem arrows_connect_cards :
  NoDup (registered m) →
  ∃ doc,
    convert_to_excalidraw m title g = Some doc
    ∧ (∀ j s goal0,
         subjects m !! j = Some s → head (goals m) = Some goal0 →
         ∃ a, a ∈ doc_elements doc ∧ el_type a = "arrow"
              ∧ arrow_start a = Some ("subject-" +:+ pretty j)
              ∧ arrow_end a = Some "goal-0"
              ∧ strokeColor a = COLORS_subject ∧ strokeWidth a = 3%Z)
    ∧ (∀ i h j s,
         hypotheses m !! i = Some h → subjects m !! j = Some s →
         hyp_subject_id h = Some (subject_id s) → subject_id s ≠ "" →
         ∃ a, a ∈ doc_elements doc ∧ el_type a = "arrow"
              ∧ arrow_start a = Some ("hypothesis-" +:+ pretty i)
              ∧ arrow_end a = Some ("subject-" +:+ pretty j)
              ∧ strokeColor a = PRIORITY_COLORS (hyp_priority h)
              ∧ strokeWidth a = PRIORITY_STROKE (hyp_priority h))
    ∧ (∀ k t i h,
         placed_tasks m !! k = Some t → hypotheses m !! i = Some h →
         hypothesis_id t = hyp_id h →
         ∃ a, a ∈ doc_elements doc ∧ el_type a = "arrow"
              ∧ arrow_start a = Some ("task-" +:+ pretty k)
              ∧ arrow_end a = Some ("hypothesis-" +:+ pretty i)
              ∧ strokeColor a = "#70736d" ∧ strokeWidth a = 2%Z).
Proof.
  intros Hnd.
  destruct (document_form m title g)
    as (doc & tc & Hdoc & _ & _ & _ & Hlay & Hlen & Hcards & Hels).
  exists doc. split; [done|].
  destruct (form_calls_ids m tc Hlen Hcards) as [Hkeys _].
  set (P := positions (lay_out m title g)).
  assert (∀ i goal, goals m !! i = Some goal →
            P !! goal_id goal
            = Some (call_pos (goal_call i (row_y ROW_START (GOAL_H + ROW_SPACING) i) goal)))
    as Hgoal.
  { intros i goal Hi.
    apply (registry_entry (column_calls m ++ tc) i
             (goal_call i (row_y ROW_START (GOAL_H + ROW_SPACING) i) goal));
      [done..|].
    rewrite lookup_app_l
      by (rewrite column_calls_length; apply lookup_lt_Some in Hi; lia).
    by apply column_calls_goal. }
  assert (∀ i s, subjects m !! i = Some s →
            P !! subject_id s
            = Some (call_pos (subject_call i (row_y ROW_START (SUBJECT_H + ROW_SPACING) i) s)))
    as Hsubj.
  { intros i s Hi.
    apply (registry_entry (column_calls m ++ tc) (length (goals m) + i)
             (subject_call i (row_y ROW_START (SUBJECT_H + ROW_SPACING) i) s));
      [done..|].
    rewrite lookup_app_l
      by (rewrite column_calls_length; apply lookup_lt_Some in Hi; lia).
    by apply column_calls_subject. }
  assert (∀ i h, hypotheses m !! i = Some h →
            P !! hyp_id h
            = Some (call_pos (hypothesis_call i
                                (row_y ROW_START (HYPOTHESIS_H + ROW_SPACING) i) h)))
    as Hhyp.
  { intros i h Hi.
    apply (registry_entry (column_calls m ++ tc)
             (length (goals m) + length (subjects m) + i)
             (hypothesis_call i (row_y ROW_START (HYPOTHESIS_H + ROW_SPACING) i) h));
      [done..|].
    rewrite lookup_app_l
      by (rewrite column_calls_length; apply lookup_lt_Some in Hi; lia).
    by apply column_calls_hypothesis. }
  assert (∀ a, a ∈ arrows (final_binder m title g) → a ∈ doc_elements doc) as Hin.
  { intros a Ha. rewrite Hels. apply elem_of_app. by right. }
  split; [|split].
  - intros j s goal0 Hj Hg0.
    assert (goals m !! 0 = Some goal0) as Hg0'
      by (destruct (goals m); [done|by injection Hg0 as ->]).
    pose proof (Hgoal _ _ Hg0') as Hpg. pose proof (Hsubj _ _ Hj) as Hps.
    destruct (call_arrow_made
                {| from_pos := call_pos (subject_call j (row_y ROW_START (SUBJECT_H + ROW_SPACING) j) s);
                   to_pos := call_pos (goal_call 0 (row_y ROW_START (GOAL_H + ROW_SPACING) 0) goal0);
                   arrow_color := COLORS_subject; arrow_stroke := 3 |})
      as (a & Ha & Hty & Hs & He & _ & Hcol & Hw).
    { unfold arrow_calls. apply elem_of_app. left. apply list_elem_of_omap.
      exists s. split; [by eapply list_elem_of_lookup_2|].
      unfold subject_arrow_call. fold P.
      destruct (goals m) as [|g0 gs]; [done|]. injection Hg0 as ->.
      by rewrite Hps, Hpg. }
    exists a. split; [by apply Hin|]. done.
  - intros i h j s Hi Hj Hsid Hne.
    pose proof (Hhyp _ _ Hi) as Hph. pose proof (Hsubj _ _ Hj) as Hps.
    destruct (call_arrow_made
                {| from_pos := call_pos (hypothesis_call i (row_y ROW_START (HYPOTHESIS_H + ROW_SPACING) i) h);
                   to_pos := call_pos (subject_call j (row_y ROW_START (SUBJECT_H + ROW_SPACING) j) s);
                   arrow_color := PRIORITY_COLORS (hyp_priority h);
                   arrow_stroke := PRIORITY_STROKE (hyp_priority h) |})
      as (a & Ha & Hty & Hs & He & _ & Hcol & Hw).
    { unfold arrow_calls. apply elem_of_app. right. apply elem_of_app. left.
      apply list_elem_of_omap.
      exists h. split; [by eapply list_elem_of_lookup_2|].
      unfold hyp_arrow_call. fold P. rewrite Hsid. simpl.
      rewrite decide_False by done. by rewrite Hps, Hph. }
    exists a. split; [by apply Hin|]. done.
  - intros k t i h Hk Hi Hhid.
    pose proof (Hhyp _ _ Hi) as Hph.
    destruct (Hcards k t Hk) as [y Hy].
    assert (P !! task_id t = Some (call_pos (task_call k y t))) as Hpt.
    { apply (registry_entry (column_calls m ++ tc)
               (length (column_calls m) + k) (task_call k y t)); [done..|].
      rewrite lookup_app_r by lia.
      by replace (length (column_calls m) + k - length (column_calls m)) with k by lia. }
    assert (t ∈ tasks m) as Ht.
    { apply (proj1 (placed_tasks_lookup m)). by eapply list_elem_of_lookup_2. }
    destruct (call_arrow_made
                {| from_pos := call_pos (task_call k y t);
                   to_pos := call_pos (hypothesis_call i (row_y ROW_START (HYPOTHESIS_H + ROW_SPACING) i) h);
                   arrow_color := "#70736d"; arrow_stroke := 2 |})
      as (a & Ha & Hty & Hs & He & _ & Hcol & Hw).
    { unfold arrow_calls. apply elem_of_app. right. apply elem_of_app. right.
      apply list_elem_of_omap. exists t. split; [done|].
      unfold task_arrow_call. fold P. by rewrite Hhid, Hph, Hpt. }
    exists a. split; [by apply Hin|]. done.
Qed.

(** X15.  When the hypotheses have pairwise distinct identifiers, the
    document has one rectangle and one text for every goal, subject and
    hypothesis and for every task whose hypothesis can be looked up in the
    map, and five more texts.  Such a task has the card whose text is its
    description wrapped at 25 characters. *)
Theorem task_cards_lookup :
  NoDup (hyp_id <$> hypotheses m) →
  ∃ doc,
    convert_to_excalidraw m title g = Some doc
    ∧ length (filter (λ e, el_type e = "rectangle") (doc_elements doc))
      = length (goals m) + length (subjects m) + length (hypotheses m)
        + length (filter (λ t, is_Some (get_hypothesis_by_id m (hypothesis_id t)))
                         (tasks m))
    ∧ length (filter (λ e, el_type e = "text") (doc_elements doc))
      = 5 + (length (goals m) + length (subjects m) + length (hypotheses m)
             + length (filter (λ t, is_Some (get_hypothesis_by_id m (hypothesis_id t)))
                              (tasks m)))
    ∧ ∀ t, t ∈ tasks m →
           is_Some (get_hypothesis_by_id m (hypothesis_id t)) →
           ∃ k y, card_at (doc_elements doc)
                    (length (goals m) + length (subjects m)
                     + length (hypotheses m) + k)
                    (task_call k y t).
Proof.
  intros Hnd.
  destruct (document_form m title g)
    as (doc & tc & Hdoc & _ & _ & _ & Hlay & Hlen & Hcards & Hels).
  exists doc. split; [done|].
  destruct (placed_tasks_lookup m) as (Hplaced & _ & Hcount).
  rewrite <- (Hcount Hnd).
  pose proof (form_calls_length m tc Hlen) as Hn. unfold card_count in Hn.
  destruct (calls_elements_count (column_calls m ++ tc) (gen (headers title g)))
    as [Hrc Htc].
  assert (∀ ty, ty ≠ "arrow" →
            filter (λ e, el_type e = ty) (arrows (final_binder m title g)) = [])
    as Hnoarr.
  { intros ty Hty. apply filter_none. intros a Ha Heq.
    apply final_arrow_types in Ha as [Ha _]. congruence. }
  split; [|split].
  - rewrite Hels, filter_app, length_app, Hnoarr by done.
    rewrite count_type_fmap by (intros; apply bound_arrows_type).
    rewrite filter_app, length_app, Hrc, Hn. simpl. lia.
  - rewrite Hels, filter_app, length_app, Hnoarr by done.
    rewrite count_type_fmap by (intros; apply bound_arrows_type).
    rewrite filter_app, length_app, Htc, Hn. simpl. lia.
  - intros t Ht Hsome.
    assert (t ∈ placed_tasks m) as [k Hk]%list_elem_of_lookup
      by (by apply Hplaced).
    destruct (Hcards k t Hk) as [y Hy]. exists k, y.
    eapply form_card_at; [exact Hels|].
    rewrite lookup_app_r by (rewrite column_calls_length; lia).
    rewrite column_calls_length.
    replace (length (goals m) + length (subjects m) + length (hypotheses m) + k
             - (length (goals m) + length (subjects m) + length (hypotheses m)))
      with k by lia.
    done.
Qed.
End Connect.

Lemma arrows_connect_cards_witness :
  ∃ doc,
    @convert_to_excalidraw ascii_py sample_map default_title rng0 = Some doc
    ∧ (∀ j s goal0,
         subjects sample_map !! j = Some s → head (goals sample_map) = Some goal0 →
         ∃ a, a ∈ doc_elements doc ∧ el_type a = "arrow"
              ∧ arrow_start a = Some ("subject-" +:+ pretty j)
              ∧ arrow_end a = Some "goal-0"
              ∧ strokeColor a = COLORS_subject ∧ strokeWidth a = 3%Z)
    ∧ (∀ i h j s,
         hypotheses sample_map !! i = Some h → subjects sample_map !! j = Some s →
         hyp_subject_id h = Some (subject_id s) → subject_id s ≠ "" →
         ∃ a, a ∈ doc_elements doc ∧ el_type a = "arrow"
              ∧ arrow_start a = Some ("hypothesis-" +:+ pretty i)
              ∧ arrow_end a = Some ("subject-" +:+ pretty j)
              ∧ strokeColor a = PRIORITY_COLORS (hyp_priority h)
              ∧ strokeWidth a = PRIORITY_STROKE (hyp_priority h))
    ∧ (∀ k t i h,
         placed_tasks sample_map !! k = Some t → hypotheses sample_map !! i = Some h →
         hypothesis_id t = hyp_id h →
         ∃ a, a ∈ doc_elements doc ∧ el_type a = "arrow"
              ∧ arrow_start a = Some ("task-" +:+ pretty k)
              ∧ arrow_end a = Some ("hypothesis-" +:+ pretty i)
              ∧ strokeColor a = "#70736d" ∧ strokeWidth a = 2%Z).
Proof.
  apply (@arrows_connect_cards ascii_py sample_map default_title rng0).
  apply (bool_decide_unpack _). vm_compute. exact I.
Defined.

Lemma task_cards_lookup_witness :
  ∃ doc,
    @convert_to_excalidraw ascii_py sample_map default_title rng0 = Some doc
    ∧ length (filter (λ e, el_type e = "rectangle") (doc_elements doc))
      = length (goals sample_map) + length (subjects sample_map)
        + length (hypotheses sample_map)
        + length (filter (λ t, is_Some (get_hypothesis_by_id sample_map (hypothesis_id t)))
                         (tasks sample_map))
    ∧ length (filter (λ e, el_type e = "text") (doc_elements doc))
      = 5 + (length (goals sample_map) + length (subjects sample_map)
             + length (hypotheses sample_map)
             + length (filter (λ t, is_Some (get_hypothesis_by_id sample_map (hypothesis_id t)))
                              (tasks sample_map)))
    ∧ ∀ t, t ∈ tasks sample_map →
           is_Some (get_hypothesis_by_id sample_map (hypothesis_id t)) →
           ∃ k y, card_at (doc_elements doc)
                    (length (goals sample_map) + length (subjects sample_map)
                     + length (hypotheses sample_map) + k)
                    (task_call k y t).
Proof.
  apply (@task_cards_lookup ascii_py sample_map default_title rng0).
  apply (bool_decide_unpack _). vm_compute. exact I.
Defined.

(** ** Title and headers *)

Section Headers.
Context `{PyStr}.
Variables (m : HypothesisMap) (title : string) (g : rng).

(** X16.  The document opens with the title, which spans the four
    columns, and the four column headers; every header has the left edge
    and the width of the cards of its column, and none of the five is
    bound to a container. *)
Theorem headers_aligned :
  ∃ doc t l1 l2 l3 l4,
    convert_to_excalidraw m title g = Some doc
    ∧ take 5 (doc_elements doc) = [t; l1; l2; l3; l4]
    ∧ el_text t = Some title
    ∧ el_x t = COL_GOAL ∧ el_width t = (COL_TASK + TASK_W - COL_GOAL)%Q
    ∧ el_y t = TITLE_Y
    ∧ (el_text l1, el_x l1, el_width l1) = (Some "ЦЕЛЬ", COL_GOAL, GOAL_W)
    ∧ (el_text l2, el_x l2, el_width l2) = (Some "СУБЪЕКТЫ", COL_SUBJECT, SUBJECT_W)
    ∧ (el_text l3, el_x l3, el_width l3)
      = (Some "ГИПОТЕЗЫ", COL_HYPOTHESIS, HYPOTHESIS_W)
    ∧ (el_text l4, el_x l4, el_width l4) = (Some "ЗАДАЧИ", COL_TASK, TASK_W)
    ∧ Forall (λ l, el_y l = HEADER_Y ∧ el_height l = 30%Q) [l1; l2; l3; l4]
    ∧ Forall (λ l, el_type l = "text" ∧ container_of l = None
                   ∧ boundElements l = []) [t; l1; l2; l3; l4].
Proof.
  destruct (document_form m title g)
    as (doc & tc & Hdoc & _ & _ & _ & Hlay & Hlen & Hcards & Hels).
  assert (take 5 (doc_elements doc) = elements (headers title g)) as Htake.
  { rewrite Hels, fmap_app, <- app_assoc.
    rewrite take_app_length' by (by rewrite length_fmap, headers_length).
    rewrite <- (list_fmap_id (elements (headers title g))) at 2.
    apply list_fmap_ext. intros i e Hi. apply list_elem_of_lookup_2 in Hi.
    apply headers_elements in Hi as [Ht _].
    unfold bound_arrows. by rewrite Ht. }
  destruct (elements (headers title g)) as [|t [|l1 [|l2 [|l3 [|l4 [|]]]]]] eqn:E;
    try (pose proof (headers_length title g) as Hl; rewrite E in Hl; done).
  exists doc, t, l1, l2, l3, l4. split; [done|]. split; [done|].
  injection E as <- <- <- <- <-. simpl. repeat split; repeat constructor.
Qed.
End Headers.

(** ** Cards do not overlap *)

Lemma inject_nat_lt (a b : nat) :
  a < b → (inject_Z (Z.of_nat a) + 1 <= inject_Z (Z.of_nat b))%Q.
Proof.
  intros Hlt. change 1%Q with (inject_Z 1).
  rewrite <- inject_Z_plus, <- Zle_Qle. lia.
Qed.

Lemma inject_nat_le (a b : nat) :
  a ≤ b → (inject_Z (Z.of_nat a) <= inject_Z (Z.of_nat b))%Q.
Proof. intros Hle. rewrite <- Zle_Qle. lia. Qed.

Lemma half_value (x : Q) : (x / 2 == x * (1 # 2))%Q.
Proof. field. Qed.

Lemma goal_rows_disjoint (i1 i2 : nat) :
  i1 < i2 →
  (row_y ROW_START (GOAL_H + ROW_SPACING) i1 + GOAL_H
   <= row_y ROW_START (GOAL_H + ROW_SPACING) i2)%Q.
Proof.
  intros Hlt%inject_nat_lt. rewrite !row_y_value.
  unfold ROW_START, GOAL_H, ROW_SPACING. lra.
Qed.

Lemma subject_rows_disjoint (i1 i2 : nat) :
  i1 < i2 →
  (row_y ROW_START (SUBJECT_H + ROW_SPACING) i1 + SUBJECT_H
   <= row_y ROW_START (SUBJECT_H + ROW_SPACING) i2)%Q.
Proof.
  intros Hlt%inject_nat_lt. rewrite !row_y_value.
  unfold ROW_START, SUBJECT_H, ROW_SPACING. lra.
Qed.

Lemma hypothesis_rows_disjoint (i1 i2 : nat) :
  i1 < i2 →
  (row_y ROW_START (HYPOTHESIS_H + ROW_SPACING) i1 + HYPOTHESIS_H
   <= row_y ROW_START (HYPOTHESIS_H + ROW_SPACING) i2)%Q.
Proof.
  intros Hlt%inject_nat_lt. rewrite !row_y_value.
  unfold ROW_START, HYPOTHESIS_H, ROW_SPACING. lra.
Qed.

Lemma task_rows_disjoint (start : Q) (j1 j2 : nat) :
  j1 < j2 → (task_y start j1 + TASK_H <= task_y start j2)%Q.
Proof.
  intros Hlt%inject_nat_lt. unfold task_y, TASK_H. lra.
Qed.

Lemma task_blocks_disjoint (i1 i2 n1 n2 j1 j2 : nat) :
  i1 < i2 → j1 < n1 → n1 ≤ 4 → j2 < n2 → n2 ≤ 4 →
  (task_y (task_start_y (hypothesis_pos i1) n1) j1 + TASK_H
   <= task_y (task_start_y (hypothesis_pos i2) n2) j2)%Q.
Proof.
  intros Hi%inject_nat_lt Hj1%inject_nat_lt Hn1%inject_nat_le
         Hj2%inject_nat_lt Hn2%inject_nat_le.
  pose proof (inject_nat_le 0 j2 ltac:(lia)) as Hj0.
  unfold task_y, task_start_y, total_tasks_h, hypothesis_pos. simpl pos_y. simpl pos_h.
  rewrite !row_y_value, !half_value.
  unfold ROW_START, HYPOTHESIS_H, ROW_SPACING, TASK_H.
  change (inject_Z (Z.of_nat 4)) with 4%Q in *.
  change (inject_Z (Z.of_nat 0)) with 0%Q in *.
  lra.
Qed.

Lemma forward_app {A} (R : A → A → Prop) (l1 l2 : list A) :
  forward R l1 → forward R l2 →
  (∀ c1 c2, c1 ∈ l1 → c2 ∈ l2 → R c1 c2) →
  forward R (l1 ++ l2).
Proof.
  intros H1 H2 H12 k1 k2 c1 c2 Hlt Hk1 Hk2.
  destruct (decide (k2 < length l1)) as [Hin2|Hout2].
  - rewrite lookup_app_l in Hk1 by lia. rewrite lookup_app_l in Hk2 by lia.
    by apply (H1 k1 k2).
  - rewrite lookup_app_r in Hk2 by lia.
    destruct (decide (k1 < length l1)) as [Hin1|Hout1].
    + rewrite lookup_app_l in Hk1 by lia.
      apply H12; by eapply list_elem_of_lookup_2.
    + rewrite lookup_app_r in Hk1 by lia.
      apply (H2 (k1 - length l1) (k2 - length l1)); [lia|done..].
Qed.

Lemma length_concat_take_S {A} (ls : list (list A)) (i : nat) (l : list A) :
  ls !! i = Some l →
  length (concat (take (S i) ls)) = length (concat (take i ls)) + length l.
Proof.
  revert i. induction ls as [|l0 ls IH]; intros i Hi; [done|].
  destruct i as [|i].
  - injection Hi as ->. simpl. destruct ls; simpl; rewrite ?app_nil_r; lia.
  - simpl in Hi. change (take (S (S i)) (l0 :: ls)) with (l0 :: take (S i) ls).
    change (take (S i) (l0 :: ls)) with (l0 :: take i ls).
    rewrite !concat_cons, !length_app, (IH i Hi). lia.
Qed.

Lemma length_concat_take_mono {A} (ls : list (list A)) : ∀ i1 i2,
  i1 ≤ i2 → length (concat (take i1 ls)) ≤ length (concat (take i2 ls)).
Proof.
  induction ls as [|l0 ls IH]; intros i1 i2 Hle.
  - by rewrite !take_nil.
  - destruct i1 as [|i1]; [simpl; lia|].
    destruct i2 as [|i2]; [lia|].
    change (take (S i1) (l0 :: ls)) with (l0 :: take i1 ls).
    change (take (S i2) (l0 :: ls)) with (l0 :: take i2 ls).
    rewrite !concat_cons, !length_app.
    specialize (IH i1 i2 ltac:(lia)). lia.
Qed.

Lemma task_phase_geometry tb hs : ∀ lay idx,
  (∀ h, h ∈ hs → is_Some (positions lay !! hyp_id h)) →
  (∀ h h' t, h ∈ hs → h' ∈ hs → t ∈ default [] (tb !! hyp_id h) →
             task_id t ≠ hyp_id h') →
  ∃ calls,
    foldl (place_hyp_tasks tb) (lay, idx) hs
    = (foldl place_call lay calls, idx + length calls)
    ∧ ∀ k c, calls !! k = Some c →
        ∃ i h j t hp,
          hs !! i = Some h
          ∧ default [] (tb !! hyp_id h) !! j = Some t
          ∧ positions lay !! hyp_id h = Some hp
          ∧ k = length (concat (take i ((λ h, default [] (tb !! hyp_id h)) <$> hs))) + j
          ∧ c = task_call (idx + k)
                  (task_y (task_start_y hp (length (default [] (tb !! hyp_id h)))) j) t.
Proof.
  induction hs as [|h hs IH]; intros lay idx Hreg Hfresh.
  - exists []. simpl. split; [f_equal; lia|done].
  - destruct (Hreg h) as [hyp_pos Hpos]; [constructor|].
    rewrite foldl_step, (place_hyp_tasks_calls _ _ _ _ _ Hpos).
    set (ts := default [] (tb !! hyp_id h)).
    set (c1 := task_calls ts 0 (task_start_y hyp_pos (length ts)) idx).
    assert (length c1 = length ts) as Hlen by apply task_calls_length.
    assert (∀ h', h' ∈ hs →
              positions (foldl place_call lay c1) !! hyp_id h'
              = positions lay !! hyp_id h') as Hsame.
    { intros h' Hh'. apply positions_calls_notin. unfold c1.
      rewrite task_calls_keys. intros (t & Heq & Ht)%list_elem_of_fmap.
      apply (Hfresh h h' t); [constructor|by constructor|done|done]. }
    destruct (IH (foldl place_call lay c1) (idx + length ts))
      as (c2 & Hrun & Hgeo).
    { intros h' Hh'. rewrite Hsame by done. apply Hreg. by constructor. }
    { intros h1 h2 t Hh1 Hh2 Ht. apply (Hfresh h1 h2 t); by try constructor. }
    exists (c1 ++ c2). split.
    + rewrite Hrun, foldl_app, length_app, Hlen. f_equal. lia.
    + intros k c Hk. destruct (decide (k < length ts)) as [Hlt|Hge].
      * rewrite lookup_app_l in Hk by lia. unfold c1 in Hk.
        rewrite task_calls_lookup_eq in Hk.
        destruct (ts !! k) as [t|] eqn:Et; [|done]. injection Hk as <-.
        exists 0, h, k, t, hyp_pos. done.
      * rewrite lookup_app_r in Hk by lia. rewrite Hlen in Hk.
        destruct (Hgeo _ _ Hk) as (i & h' & j & t & hp & Hi & Hj & Hp & Hoff & ->).
        exists (S i), h', j, t, hp. split; [done|]. split; [done|].
        split; [rewrite <- Hsame; [done|by eapply list_elem_of_lookup_2]|].
        assert (k = length ts
                    + (length (concat (take i ((λ h0, default [] (tb !! hyp_id h0)) <$> hs)))
                       + j)) as Hk' by lia.
        split.
        -- rewrite fmap_cons. change (take (S i) (?x :: ?l)) with (x :: take i l).
           rewrite concat_cons, length_app. fold ts. lia.
        -- f_equal. lia.
Qed.

Lemma goal_calls_forward `{PyStr} gs : forward calls_apart (goal_calls gs 0 ROW_START).
Proof.
  intros k1 k2 c1 c2 Hlt Hk1 Hk2. rewrite goal_calls_lookup_eq in Hk1, Hk2.
  destruct (gs !! k1) as [g1|]; [|done]. destruct (gs !! k2) as [g2|]; [|done].
  injection Hk1 as <-. injection Hk2 as <-. right. left. simpl.
  by apply goal_rows_disjoint.
Qed.

Lemma subject_calls_forward `{PyStr} ss :
  forward calls_apart (subject_calls ss 0 ROW_START).
Proof.
  intros k1 k2 c1 c2 Hlt Hk1 Hk2. rewrite subject_calls_lookup_eq in Hk1, Hk2.
  destruct (ss !! k1) as [g1|]; [|done]. destruct (ss !! k2) as [g2|]; [|done].
  injection Hk1 as <-. injection Hk2 as <-. right. left. simpl.
  by apply subject_rows_disjoint.
Qed.

Lemma hypothesis_calls_forward `{PyStr} hs :
  forward calls_apart (hypothesis_calls hs 0 ROW_START).
Proof.
  intros k1 k2 c1 c2 Hlt Hk1 Hk2. rewrite hypothesis_calls_lookup_eq in Hk1, Hk2.
  destruct (hs !! k1) as [g1|]; [|done]. destruct (hs !! k2) as [g2|]; [|done].
  injection Hk1 as <-. injection Hk2 as <-. right. left. simpl.
  by apply hypothesis_rows_disjoint.
Qed.

Lemma goal_calls_column `{PyStr} gs i y c :
  c ∈ goal_calls gs i y → call_x c = COL_GOAL ∧ call_w c = GOAL_W.
Proof.
  intros [k Hk]%list_elem_of_lookup. rewrite goal_calls_lookup_eq in Hk.
  destruct (gs !! k); [|done]. by injection Hk as <-.
Qed.

Lemma subject_calls_column `{PyStr} ss i y c :
  c ∈ subject_calls ss i y → call_x c = COL_SUBJECT ∧ call_w c = SUBJECT_W.
Proof.
  intros [k Hk]%list_elem_of_lookup. rewrite subject_calls_lookup_eq in Hk.
  destruct (ss !! k); [|done]. by injection Hk as <-.
Qed.

Lemma hypothesis_calls_column `{PyStr} hs i y c :
  c ∈ hypothesis_calls hs i y →
  call_x c = COL_HYPOTHESIS ∧ call_w c = HYPOTHESIS_W.
Proof.
  intros [k Hk]%list_elem_of_lookup. rewrite hypothesis_calls_lookup_eq in Hk.
  destruct (hs !! k); [|done]. by injection Hk as <-.
Qed.

Lemma calls_apart_columns (c1 c2 : card_call) (x1 w1 x2 : Q) :
  call_x c1 = x1 ∧ call_w c1 = w1 → call_x c2 = x2 → (x1 + w1 <= x2)%Q →
  calls_apart c1 c2.
Proof. intros [<- <-] <- Hle. by left. Qed.

Section Overlap.
Context `{PyStr}.
Variables (m : HypothesisMap) (title : string) (g : rng).
Hypothesis Hnd : NoDup ((hyp_id <$> hypotheses m) ++ (task_id <$> tasks m)).
Hypothesis Hfew :
  ∀ h, h ∈ hypotheses m → length (get_tasks_for_hypothesis m (hyp_id h)) ≤ 4.

(** The cards of the tasks, with the hypothesis and the rank that decide
    where each of them is placed. *)
Lemma task_calls_geometry :
  ∃ tc,
    lay_out m title g
    = foldl place_call (headers title g) (column_calls m ++ tc)
    ∧ ∀ k c, tc !! k = Some c →
        ∃ i h j t,
          hypotheses m !! i = Some h
          ∧ get_tasks_for_hypothesis m (hyp_id h) !! j = Some t
          ∧ k = length (concat (take i ((λ h, get_tasks_for_hypothesis m (hyp_id h))
                                        <$> hypotheses m))) + j
          ∧ c = task_call k
                  (task_y (task_start_y (hypothesis_pos i)
                             (length (get_tasks_for_hypothesis m (hyp_id h)))) j) t.
Proof.
  pose proof Hnd as [_ [Hdisj _]]%NoDup_app.
  destruct (task_phase_geometry (tasks_by_hypothesis (tasks m)) (hypotheses m)
              (columns m title g) 0) as (tc & Hrun & Hgeo).
  { intros h Hh. by apply columns_registered. }
  { intros h h' t Hh Hh' Ht Heq.
    rewrite tasks_by_hypothesis_lookup in Ht.
    apply list_elem_of_filter in Ht as [_ Ht].
    apply (Hdisj (hyp_id h')); [by apply list_elem_of_fmap_2|].
    rewrite <- Heq. by apply list_elem_of_fmap_2. }
  exists tc. split.
  { unfold lay_out. rewrite Hrun. simpl fst.
    by rewrite columns_calls, foldl_app. }
  intros k c Hk.
  destruct (Hgeo k c Hk) as (i & h & j & t & hp & Hi & Hj & Hp & Hoff & ->).
  rewrite tasks_by_hypothesis_lookup in Hj.
  pose proof (tasks_state_own_card m title g i 0 h Hi Hnd) as Hown.
  unfold tasks_state in Hown. rewrite take_0 in Hown. simpl in Hown.
  rewrite Hp in Hown. injection Hown as ->.
  exists i, h, j, t. split; [done|]. split; [done|].
  assert ((λ h0, default [] (tasks_by_hypothesis (tasks m) !! hyp_id h0))
            <$> hypotheses m
          = (λ h0, get_tasks_for_hypothesis m (hyp_id h0)) <$> hypotheses m) as Hgr.
  { apply list_fmap_ext. intros ? ? _. apply tasks_by_hypothesis_lookup. }
  rewrite Hgr in Hoff.
  split; [done|]. by rewrite tasks_by_hypothesis_lookup.
Qed.

Lemma task_calls_forward tc :
  (∀ k c, tc !! k = Some c →
     ∃ i h j t,
       hypotheses m !! i = Some h
       ∧ get_tasks_for_hypothesis m (hyp_id h) !! j = Some t
       ∧ k = length (concat (take i ((λ h, get_tasks_for_hypothesis m (hyp_id h))
                                     <$> hypotheses m))) + j
       ∧ c = task_call k
               (task_y (task_start_y (hypothesis_pos i)
                          (length (get_tasks_for_hypothesis m (hyp_id h)))) j) t) →
  forward calls_apart tc.
Proof.
  intros Hgeo k1 k2 c1 c2 Hlt Hk1 Hk2.
  destruct (Hgeo _ _ Hk1) as (i1 & h1 & j1 & t1 & Hi1 & Hj1 & Hoff1 & ->).
  destruct (Hgeo _ _ Hk2) as (i2 & h2 & j2 & t2 & Hi2 & Hj2 & Hoff2 & ->).
  pose proof (lookup_lt_Some _ _ _ Hj1) as Hlt1.
  pose proof (lookup_lt_Some _ _ _ Hj2) as Hlt2.
  pose proof (Hfew h1 ltac:(by eapply list_elem_of_lookup_2)) as Hn1.
  pose proof (Hfew h2 ltac:(by eapply list_elem_of_lookup_2)) as Hn2.
  right. simpl.
  destruct (Nat.lt_trichotomy i1 i2) as [Hi|[Hi|Hi]].
  - left. by apply task_blocks_disjoint.
  - subst i2. rewrite Hi1 in Hi2. injection Hi2 as <-.
    left. apply task_rows_disjoint. lia.
  - exfalso.
    set (groups := (λ h, get_tasks_for_hypothesis m (hyp_id h)) <$> hypotheses m) in *.
    assert (groups !! i2 = Some (get_tasks_for_hypothesis m (hyp_id h2))) as Hg2
      by (unfold groups; by rewrite list_lookup_fmap, Hi2).
    pose proof (length_concat_take_S groups i2 _ Hg2) as HS.
    pose proof (length_concat_take_mono groups (S i2) i1 ltac:(lia)) as Hmono.
    lia.
Qed.

Lemma all_calls_forward tc :
  (∀ k c, tc !! k = Some c →
     ∃ i h j t,
       hypotheses m !! i = Some h
       ∧ get_tasks_for_hypothesis m (hyp_id h) !! j = Some t
       ∧ k = length (concat (take i ((λ h, get_tasks_for_hypothesis m (hyp_id h))
                                     <$> hypotheses m))) + j
       ∧ c = task_call k
               (task_y (task_start_y (hypothesis_pos i)
                          (length (get_tasks_for_hypothesis m (hyp_id h)))) j) t) →
  forward calls_apart (column_calls m ++ tc).
Proof.
  intros Hgeo.
  assert (∀ c, c ∈ tc → call_x c = COL_TASK) as Htask.
  { intros c [k Hk]%list_elem_of_lookup.
    by destruct (Hgeo _ _ Hk) as (i & h & j & t & _ & _ & _ & ->). }
  unfold column_calls. rewrite <- !app_assoc.
  apply forward_app; [apply goal_calls_forward| |].
  - apply forward_app; [apply subject_calls_forward| |].
    + apply forward_app; [apply hypothesis_calls_forward|by apply task_calls_forward|].
      intros c1 c2 H1%hypothesis_calls_column H2%Htask.
      by eapply calls_apart_columns.
    + intros c1 c2 H1%subject_calls_column
        [[H2 _]%hypothesis_calls_column|H2%Htask]%elem_of_app;
        by eapply calls_apart_columns.
  - intros c1 c2 H1%goal_calls_column
      [[H2 _]%subject_calls_column
      |[[H2 _]%hypothesis_calls_column|H2%Htask]%elem_of_app]%elem_of_app;
      by eapply calls_apart_columns.
Qed.

(** X17.  When the identifiers of the hypotheses and of the tasks are
    pairwise distinct and no hypothesis has more than four tasks, no two
    cards of the document overlap: of any two rectangles, one lies
    entirely to the left of the other or entirely above it. *)
Theorem cards_do_not_overlap :
  ∃ doc,
    convert_to_excalidraw m title g = Some doc
    ∧ ∀ i1 i2 r1 r2,
        i1 ≠ i2 →
        doc_elements doc !! i1 = Some r1 → doc_elements doc !! i2 = Some r2 →
        el_type r1 = "rectangle" → el_type r2 = "rectangle" →
        disjoint_boxes r1 r2.
Proof.
  destruct task_calls_geometry as (tc & Hlay & Hgeo).
  pose proof (all_calls_forward tc Hgeo) as Hfwd.
  destruct (convert_elements m title g) as (doc & Hdoc & Hels).
  rewrite final_closed_form, Hlay, elements_calls in Hels.
  exists doc. split; [done|].
  set (calls := column_calls m ++ tc) in *.
  set (A := arrows (final_binder m title g)) in *.
  assert (∀ i r, doc_elements doc !! i = Some r → el_type r = "rectangle" →
            ∃ k c, i = 5 + 2 * k ∧ calls !! k = Some c
                   ∧ geometry r = (call_x c, call_y c, call_w c, call_h c))
    as Hrect.
  { intros i r Hi Hty.
    pose proof (calls_elements_length calls (gen (headers title g))) as Hlen.
    destruct (decide (i < 5)) as [Hlt|Hge].
    { rewrite Hels in Hi.
      rewrite lookup_app_l, list_lookup_fmap, lookup_app_l in Hi
        by (rewrite ?length_fmap, ?length_app, ?headers_length; lia).
      destruct (elements (headers title g) !! i) as [e0|] eqn:E; [|done].
      injection Hi as <-. apply list_elem_of_lookup_2, headers_elements in E as [E _].
      rewrite bound_arrows_type, E in Hty. done. }
    destruct (decide (i < 5 + 2 * length calls)) as [Hin|Hout].
    2:{ rewrite Hels in Hi.
        rewrite lookup_app_r in Hi
          by (rewrite length_fmap, length_app, headers_length, Hlen; lia).
        apply list_elem_of_lookup_2, final_arrow_types in Hi as [Hi _].
        rewrite Hi in Hty. done. }
    destruct (Nat.Even_or_Odd (i - 5)) as [[k Hk]|[k Hk]].
    - destruct (lookup_lt_is_Some_2 calls k) as [c Hc]; [lia|].
      destruct (form_card_at title g _ A calls k c Hels Hc)
        as (rect & te & Hr & _ & _ & _ & Hgeo' & _).
      replace i with (5 + 2 * k) in Hi by lia.
      rewrite Hr in Hi. injection Hi as <-.
      exists k, c. split; [lia|done].
    - destruct (lookup_lt_is_Some_2 calls k) as [c Hc]; [lia|].
      destruct (form_card_at title g _ A calls k c Hels Hc)
        as (rect & te & _ & Ht & _ & _ & _ & _ & _ & Htt & _).
      replace i with (5 + 2 * k + 1) in Hi by lia.
      rewrite Ht in Hi. injection Hi as <-. rewrite Htt in Hty. done. }
  intros i1 i2 r1 r2 Hne H1 H2 Ht1 Ht2.
  destruct (Hrect _ _ H1 Ht1) as (k1 & c1 & -> & Hc1 & Hg1).
  destruct (Hrect _ _ H2 Ht2) as (k2 & c2 & -> & Hc2 & Hg2).
  unfold geometry in Hg1, Hg2.
  injection Hg1 as Hx1 Hy1 Hw1 Hh1. injection Hg2 as Hx2 Hy2 Hw2 Hh2.
  unfold disjoint_boxes. rewrite Hx1, Hy1, Hw1, Hh1, Hx2, Hy2, Hw2, Hh2.
  destruct (Nat.lt_trichotomy k1 k2) as [Hlt|[Heq|Hgt]]; [|lia|].
  - destruct (Hfwd k1 k2 c1 c2 Hlt Hc1 Hc2) as [Hd|[Hd|Hd]]; tauto.
  - destruct (Hfwd k2 k1 c2 c1 Hgt Hc2 Hc1) as [Hd|[Hd|Hd]]; tauto.
Qed.
End Overlap.

Lemma cards_do_not_overlap_witness :
  ∃ doc,
    @convert_to_excalidraw ascii_py sample_map default_title rng0 = Some doc
    ∧ ∀ i1 i2 r1 r2,
        i1 ≠ i2 →
        doc_elements doc !! i1 = Some r1 → doc_elements doc !! i2 = Some r2 →
        el_type r1 = "rectangle" → el_type r2 = "rectangle" →
        disjoint_boxes r1 r2.
Proof.
  apply (@cards_do_not_overlap ascii_py sample_map default_title rng0).
  - apply (bool_decide_unpack _). vm_compute. exact I.
  - intros h Hh. simpl in Hh. apply list_elem_of_singleton in Hh as ->.
    vm_compute. lia.
Defined.
